(** * react-chess: search engine and backend provider layer

    A shallow embedding of
      - [src/services/ChessEngine.ts] and [src/services/ChessAI.ts]
        (the material evaluation and the alpha-beta search),
      - [src/providers/adapters.ts] (response normalisers),
      - [src/providers/RemoteProvider.ts] (HTTP helper and the
        provider's methods),
      - the local provider [LocalProvider] (the in-memory game store),
      - the backend context component [BackendProvider] (backend
        selection and health check),
    followed by the properties proved about them. *)

From Stdlib Require Import ZArith QArith Qround List String Ascii Bool Lia.
From Stdlib Require Import DecimalString.
Import ListNotations.

Local Open Scope string_scope.
Local Open Scope list_scope.
Local Open Scope Z_scope.

Local Notation "a =s b" := (String.eqb a b) (at level 70, no associativity).

(* ===================================================================== *)
(** * JavaScript numbers used by the search *)
(* ===================================================================== *)

(** The search only ever produces the two infinities and sums of integer
    piece values (well inside the exactly representable range of a
    double), so a score is an integer extended by [-Infinity] and
    [Infinity]. *)
Inductive Num : Type :=
  | NegInfinity
  | Finite (z : Z)
  | Infinity.

Module Num.

(** [a > b] *)
Definition gt (a b : Num) : bool :=
  match a, b with
  | NegInfinity, _ => false
  | Finite _, NegInfinity => true
  | Finite x, Finite y => y <? x
  | Finite _, Infinity => false
  | Infinity, Infinity => false
  | Infinity, _ => true
  end.

(** [a >= b] *)
Definition ge (a b : Num) : bool :=
  match a, b with
  | NegInfinity, NegInfinity => true
  | NegInfinity, _ => false
  | Finite _, NegInfinity => true
  | Finite x, Finite y => y <=? x
  | Finite _, Infinity => false
  | Infinity, _ => true
  end.

(** [Math.max(a, b)] *)
Definition max (a b : Num) : Num :=
  match a, b with
  | NegInfinity, _ => b
  | _, NegInfinity => a
  | Infinity, _ => Infinity
  | _, Infinity => Infinity
  | Finite x, Finite y => Finite (Z.max x y)
  end.

(** [Math.min(a, b)] *)
Definition min (a b : Num) : Num :=
  match a, b with
  | Infinity, _ => b
  | _, Infinity => a
  | NegInfinity, _ => NegInfinity
  | _, NegInfinity => NegInfinity
  | Finite x, Finite y => Finite (Z.min x y)
  end.

End Num.

(* ===================================================================== *)
(** * The rules engine seen by the search *)
(* ===================================================================== *)

(** Types of [@rumenx/chess/types] as the search uses them.  A colour is
    ['white' | 'black'] (the annotation of [maximizingColor]); a piece
    type and a game status stay strings, so that the [default] arms of
    the [switch] statements keep their meaning. *)
Inductive Color : Type := white | black.

Definition Color_eqb (a b : Color) : bool :=
  match a, b with
  | white, white | black, black => true
  | _, _ => false
  end.

Definition Square : Type := string.

Record ChessPiece : Type := mkPiece {
  type : string;
  color : Color
}.

Record ChessMove : Type := mkMove {
  from : Square;
  to : Square;
  piece : ChessPiece;
  captured : option ChessPiece;
  promotion : option string
}.

(** The wrapped [Game] object.  [St] is the engine's mutable state; a
    method that mutates returns the new state next to its result, a
    query is a function of the state. *)
Record Engine : Type := mkEngine {
  St : Type;
  (** [engine.makeMove(from, to, promotion)]: the executed move, or
      [None] for JavaScript's [null] *)
  makeMove : St -> Square -> Square -> option string -> option ChessMove * St;
  (** [engine.undo()] *)
  undo : St -> option ChessMove * St;
  getLegalMoves : St -> list ChessMove;
  getTurn : St -> Color;
  getBoard : St -> list (list (option ChessPiece));
  isGameOver : St -> bool;
  getStatus : St -> string;
  getFEN : St -> string
}.

Arguments makeMove {_}.
Arguments undo {_}.
Arguments getLegalMoves {_}.
Arguments getTurn {_}.
Arguments getBoard {_}.
Arguments isGameOver {_}.
Arguments getStatus {_}.
Arguments getFEN {_}.

Module ChessEngine.

(** [ChessEngine.getResult] *)
Definition getResult {E : Engine} (s : St E) : string :=
  let status := getStatus s in
  if status =s "checkmate" then
    match getTurn s with white => "0-1" | black => "1-0" end
  else if (status =s "stalemate") || (status =s "draw")
          || (status =s "insufficient_material")
          || (status =s "threefold_repetition")
          || (status =s "fifty_move_rule") then "1/2-1/2"
  else "*".

End ChessEngine.

(* ===================================================================== *)
(** * ChessAI *)
(* ===================================================================== *)

Inductive AIDifficulty : Type :=
  | harmless | easy | medium | hard | expert | godlike | random.

Module ChessAI.

Import ChessEngine.

(** [ChessAI.depthForLevel].  The [default] arm is unreachable for a
    value of type [AIDifficulty]. *)
Definition depthForLevel (level : AIDifficulty) : nat :=
  match level with
  | harmless | random => 0
  | easy => 1
  | medium => 2
  | hard => 3
  | expert => 4
  | godlike => 5
  end.

(** [ChessAI.pieceValue] *)
Definition pieceValue (p : ChessPiece) : Z :=
  let t := type p in
  if t =s "pawn" then 100
  else if (t =s "knight") || (t =s "bishop") then 300
  else if t =s "rook" then 500
  else if t =s "queen" then 900
  else if t =s "king" then 10000
  else 0.

(** [ChessAI.captureValue] *)
Definition captureValue (move : ChessMove) : Z :=
  match captured move with
  | None => 0
  | Some c => pieceValue {| type := type c; color := color c |}
  end.

(** [ChessAI.evaluate]: the two nested [for ... of] loops accumulate
    into [score]; the game-over test comes after them. *)
Definition evaluate {E : Engine} (s : St E) (maximizingColor : Color) : Num :=
  let board := getBoard s in
  let score :=
    fold_left
      (fun score row =>
         fold_left
           (fun score cell =>
              match cell with
              | None => score
              | Some p =>
                  let value := pieceValue p in
                  score + (if Color_eqb (color p) maximizingColor
                           then value else - value)
              end)
           row score)
      board 0 in
  if isGameOver s then
    let result := getResult s in
    if result =s "1-0" then
      (if Color_eqb maximizingColor white then Infinity else NegInfinity)
    else if result =s "0-1" then
      (if Color_eqb maximizingColor black then Infinity else NegInfinity)
    else Finite score
  else Finite score.

Section Minimax.

Context {E : Engine}.

(** The body of the [for (const move of legalMoves)] loop of a
    maximizing node, with [child] the recursive call at [depth - 1].
    The loop variables [value] and [alpha] are threaded together
    with the engine state. *)
Fixpoint maxLoop (child : St E -> Num -> Num -> Num * St E)
    (moves : list ChessMove) (s : St E) (value alpha beta : Num)
    : Num * St E :=
  match moves with
  | [] => (value, s)
  | move :: rest =>
      match makeMove s (from move) (to move) (promotion move) with
      | (None, s1) => maxLoop child rest s1 value alpha beta
      | (Some _, s1) =>
          let '(childValue, s2) := child s1 alpha beta in
          let s3 := snd (undo s2) in
          let value' := Num.max value childValue in
          let alpha' := Num.max alpha value' in
          if Num.ge alpha' beta then (value', s3)
          else maxLoop child rest s3 value' alpha' beta
      end
  end.

(** The loop of a minimizing node. *)
Fixpoint minLoop (child : St E -> Num -> Num -> Num * St E)
    (moves : list ChessMove) (s : St E) (value alpha beta : Num)
    : Num * St E :=
  match moves with
  | [] => (value, s)
  | move :: rest =>
      match makeMove s (from move) (to move) (promotion move) with
      | (None, s1) => minLoop child rest s1 value alpha beta
      | (Some _, s1) =>
          let '(childValue, s2) := child s1 alpha beta in
          let s3 := snd (undo s2) in
          let value' := Num.min value childValue in
          let beta' := Num.min beta value' in
          if Num.ge alpha beta' then (value', s3)
          else minLoop child rest s3 value' alpha beta'
      end
  end.

(** [ChessAI.minimax] *)
Fixpoint minimax (depth : nat) (s : St E) (alpha beta : Num)
    (maximizingColor : Color) {struct depth} : Num * St E :=
  match depth with
  | O => (evaluate s maximizingColor, s)
  | S depth' =>
      if isGameOver s then (evaluate s maximizingColor, s)
      else
        let legalMoves := getLegalMoves s in
        if (List.length legalMoves =? 0)%nat
        then (evaluate s maximizingColor, s)
        else
          let currentTurn := getTurn s in
          let isMaximizing := Color_eqb currentTurn maximizingColor in
          let child := fun s' a b => minimax depth' s' a b maximizingColor in
          if isMaximizing
          then maxLoop child legalMoves s NegInfinity alpha beta
          else minLoop child legalMoves s Infinity alpha beta
  end.

(** [[...legalMoves].sort((a, b) => bCap - aCap)]: [Array.prototype.sort]
    is stable, so the result is the stable arrangement by descending
    capture value.  [insertByCapture] puts [a] in front of the first
    element it does not have to follow. *)
Definition capOf (a : ChessMove) : Z :=
  match captured a with Some _ => captureValue a | None => 0 end.

Fixpoint insertByCapture (a : ChessMove) (l : list ChessMove) : list ChessMove :=
  match l with
  | [] => [a]
  | b :: l' =>
      if capOf b - capOf a <=? 0 then a :: b :: l'
      else b :: insertByCapture a l'
  end.

Definition sortByCapture (l : list ChessMove) : list ChessMove :=
  fold_right insertByCapture [] l.

(** The root loop of [computeBestMove], called with
    [depth' = effectiveDepth - 1]. *)
Fixpoint rootLoop (depth' : nat) (maximizingColor : Color)
    (ordered : list ChessMove) (s : St E)
    (bestMove : option ChessMove) (bestScore : Num)
    : option ChessMove * St E :=
  match ordered with
  | [] => (bestMove, s)
  | move :: rest =>
      match makeMove s (from move) (to move) (promotion move) with
      | (None, s1) => rootLoop depth' maximizingColor rest s1 bestMove bestScore
      | (Some _, s1) =>
          let '(score, s2) :=
            minimax depth' s1 NegInfinity Infinity maximizingColor in
          let s3 := snd (undo s2) in
          if Num.gt score bestScore
          then rootLoop depth' maximizingColor rest s3 (Some move) score
          else rootLoop depth' maximizingColor rest s3 bestMove bestScore
      end
  end.

(** [legal[i]] for an integer [i]: [None] stands for [undefined], which
    an index outside the array gives. *)
Definition arrayGet {A : Type} (l : list A) (i : Z) : option A :=
  if i <? 0 then None else nth_error l (Z.to_nat i).

(** [ChessAI.computeBestMove].  [rnd] is the value returned by the one
    call of [Math.random()] (used at depth 0 only).  In the result
    [None] is [null]; at depth 0 it is also what an index outside the
    array would give, which no [rnd] in [0, 1) produces.  The index is
    the floor of the exact product; the rounded product the code floors
    can differ from it in the last place, and then the index is the
    next one, still inside the array. *)
Definition computeBestMove (s : St E) (level : AIDifficulty) (rnd : Q)
    : option ChessMove * St E :=
  let depth := depthForLevel level in
  if (depth =? 0)%nat then
    let legal := getLegalMoves s in
    if (List.length legal =? 0)%nat then (None, s)
    else (arrayGet legal (Qfloor (rnd * inject_Z (Z.of_nat (List.length legal)))), s)
  else
    let legalMoves := getLegalMoves s in
    let effectiveDepth :=
      if (60 <? List.length legalMoves)%nat && (3 <? depth)%nat
      then 3%nat else depth in
    let maximizingColor := getTurn s in
    let ordered := sortByCapture legalMoves in
    rootLoop (effectiveDepth - 1) maximizingColor ordered s None NegInfinity.

End Minimax.

End ChessAI.

(* ===================================================================== *)
(** * JavaScript values and exceptions of the provider layer *)
(* ===================================================================== *)

Set Warnings "-register-all".

(** A value as [JSON.parse] builds it, plus [undefined] (what reading an
    absent property gives).  A string is a sequence of 8-bit characters;
    a number is the rational it denotes.  An object is the list of its
    own properties. *)
Inductive JsVal : Type :=
  | VUndefined
  | VNull
  | VBool (b : bool)
  | VNum (q : Q)
  | VStr (s : string)
  | VArr (elems : list JsVal)
  | VObj (props : list (string * JsVal)).

(** What a [throw] carries. *)
Inductive Exn : Type :=
  | TypeError
  | SyntaxError
  | Error (message : string)
  | ApiError (status : Z) (code : string) (message : string)
  (** what a rejected [fetch] carried: the message of an [Error], or
      [None] for a value that is not an [Error] *)
  | FetchRejected (message : option string).

(** A computation that returns or throws. *)
Inductive Res (A : Type) : Type :=
  | Ok (a : A)
  | Throw (e : Exn).

Arguments Ok {A} a.
Arguments Throw {A} e.

Definition bind {A B : Type} (c : Res A) (k : A -> Res B) : Res B :=
  match c with
  | Ok a => k a
  | Throw e => Throw e
  end.

Notation "x <- c ;; k" := (bind c (fun x => k))
  (at level 61, c at next level, right associativity).

(** [arr.map(f)] for a callback that may throw: elements are visited from
    the left and the first exception ends the call. *)
Fixpoint mapM {A B : Type} (f : A -> Res B) (l : list A) : Res (list B) :=
  match l with
  | [] => Ok []
  | a :: l' =>
      b <- f a ;;
      bs <- mapM f l' ;;
      Ok (b :: bs)
  end.

(** [Number.prototype.toString], the one built-in the embedding leaves
    open: no property below depends on how a number prints. *)
Class NumberFormat : Type := Number_toString : Q -> string.

Module Js.

Fixpoint assoc (k : string) (props : list (string * JsVal)) : option JsVal :=
  match props with
  | [] => None
  | (k', v) :: rest => if k =s k' then Some v else assoc k rest
  end.

(** [v.k] for a property name [k] that no built-in prototype defines
    (every name read by the adapters and by [request] is of this
    kind): the own property of an object, [undefined] on any other
    value, a [TypeError] on [null] and [undefined]. *)
Definition get (v : JsVal) (k : string) : Res JsVal :=
  match v with
  | VUndefined | VNull => Throw TypeError
  | VObj props =>
      match assoc k props with Some x => Ok x | None => Ok VUndefined end
  | _ => Ok VUndefined
  end.

(** [v?.k] *)
Definition optGet (v : JsVal) (k : string) : JsVal :=
  match v with
  | VObj props =>
      match assoc k props with Some x => x | None => VUndefined end
  | _ => VUndefined
  end.

(** [Boolean(v)], the truthiness test of [if], [!] and [? :] *)
Definition truthy (v : JsVal) : bool :=
  match v with
  | VUndefined | VNull => false
  | VBool b => b
  | VNum q => negb (Qeq_bool q 0)
  | VStr s => negb (s =s "")
  | VArr _ | VObj _ => true
  end.

(** [a ?? b] *)
Definition nullish (v : JsVal) : bool :=
  match v with
  | VUndefined | VNull => true
  | _ => false
  end.

Definition coalesce (a b : JsVal) : JsVal :=
  if nullish a then b else a.

(** [v === 'lit'] *)
Definition isStr (v : JsVal) (lit : string) : bool :=
  match v with
  | VStr s => s =s lit
  | _ => false
  end.

(** [[l1, ..., ln].includes(v)] for string literals [li] *)
Definition includes (lits : list string) (v : JsVal) : bool :=
  existsb (isStr v) lits.

(** [typeof v === 'object'] *)
Definition typeofObject (v : JsVal) : bool :=
  match v with
  | VNull | VArr _ | VObj _ => true
  | _ => false
  end.

(** [String(v)].  An array prints its elements joined by commas, with
    [null] and [undefined] printed empty.  An object prints through
    [Object.prototype.toString] unless it has an own property
    [toString]: that property holds data, not a function, and then
    neither [toString] nor [valueOf] yields a primitive. *)
Section ToString.

Context {NF : NumberFormat}.

Fixpoint String_ (v : JsVal) : Res string :=
  match v with
  | VUndefined => Ok "undefined"
  | VNull => Ok "null"
  | VBool true => Ok "true"
  | VBool false => Ok "false"
  | VNum q => Ok (Number_toString q)
  | VStr s => Ok s
  | VArr elems =>
      (fix join (l : list JsVal) : Res string :=
         match l with
         | [] => Ok ""
         | x :: l' =>
             sx <- (if nullish x then Ok "" else String_ x) ;;
             match l' with
             | [] => Ok sx
             | _ :: _ => rest <- join l' ;; Ok (sx ++ "," ++ rest)%string
             end
         end) elems
  | VObj props =>
      match assoc "toString" props with
      | Some _ => Throw TypeError
      | None => Ok "[object Object]"
      end
  end.

End ToString.

(** The property names every object literal inherits from
    [Object.prototype]. *)
Definition ObjectPrototypeKeys : list string :=
  [ "constructor"; "hasOwnProperty"; "isPrototypeOf";
    "propertyIsEnumerable"; "toLocaleString"; "toString"; "valueOf";
    "__proto__"; "__defineGetter__"; "__defineSetter__";
    "__lookupGetter__"; "__lookupSetter__" ].

(** The outcome of [map[k]] on an object literal [map]: an own
    property, a member inherited from [Object.prototype] (a function,
    or the prototype itself for [__proto__]; never nullish), or
    [undefined]. *)
Inductive Lookup (A : Type) : Type :=
  | Own (a : A)
  | Inherited (k : string)
  | Absent.

Arguments Own {A} a.
Arguments Inherited {A} k.
Arguments Absent {A}.

Fixpoint own {A : Type} (k : string) (lit : list (string * A)) : option A :=
  match lit with
  | [] => None
  | (k', a) :: rest => if k =s k' then Some a else own k rest
  end.

Definition literalGet {A : Type} (lit : list (string * A)) (k : string) : Lookup A :=
  match own k lit with
  | Some a => Own a
  | None =>
      if existsb (String.eqb k) ObjectPrototypeKeys then Inherited k
      else Absent
  end.

End Js.

(* ===================================================================== *)
(** * providers/types.ts *)
(* ===================================================================== *)

Inductive BackendId : Type := local | rust | go | js.

Definition BackendId_eqb (a b : BackendId) : bool :=
  match a, b with
  | local, local | rust, rust | go, go | js, js => true
  | _, _ => false
  end.

Definition BackendId_name (id : BackendId) : string :=
  match id with
  | local => "local"
  | rust => "rust"
  | go => "go"
  | js => "js"
  end.

Definition PlayerColor : Type := Color.

Module GameStatusNorm.
Inductive t : Type :=
  | active
  | check
  | checkmate
  | stalemate
  | draw
  | insufficient_material
  | threefold_repetition
  | fifty_move_rule.
End GameStatusNorm.

(** What the [status] field of a normalised state holds at run time: a
    canonical status, or, when a status table was indexed with the name
    of a member of [Object.prototype], that inherited member. *)
Inductive StatusValue : Type :=
  | Canonical (g : GameStatusNorm.t)
  | PrototypeMember (k : string).

Module Norm.

(** [NormPiece].  [type] is copied from the backend's object unchecked,
    so it is whatever value the response held. *)
Record NormPiece : Type := mkNormPiece {
  type : JsVal;
  color : PlayerColor
}.

(** [NormMove]; [san] and [promotion] are copied unchecked. *)
Record NormMove : Type := mkNormMove {
  from : string;
  to : string;
  san : JsVal;
  piece : option NormPiece;
  captured : option NormPiece;
  promotion : JsVal
}.

Record NormGameState : Type := mkNormGameState {
  id : string;
  fen : string;
  turn : PlayerColor;
  status : StatusValue;
  check : bool;
  moveCount : nat;
  moveHistory : list NormMove;
  board : option (list (list (option NormPiece)));
  result : string;
  gameOver : bool
}.

End Norm.

Record ProviderCapabilities : Type := mkCaps {
  cap_undo : bool;
  cap_ai : bool;
  cap_hint : bool;
  cap_analysis : bool;
  cap_chat : bool;
  cap_websocket : bool;
  cap_pgn : bool;
  cap_fenLoad : bool
}.

(** [BACKEND_PRESETS[id].url] *)
Definition BACKEND_PRESETS_url (id : BackendId) : option string :=
  match id with
  | local => None
  | rust => Some "http://localhost:8082"
  | go => Some "http://localhost:8080"
  | js => Some "http://localhost:8081"
  end.

(* ===================================================================== *)
(** * providers/adapters.ts *)
(* ===================================================================== *)

Module Adapters.

Import Norm.

(** [assertColor] *)
Definition assertColor (c : JsVal) : PlayerColor :=
  if Js.isStr c "white" then white
  else if Js.isStr c "black" then black
  else if Js.isStr c "w" then white
  else if Js.isStr c "b" then black
  else white.

(** [history.map(f)] on a value that need not be an array: only an
    array has a [map] method. *)
Definition asArray (v : JsVal) : Res (list JsVal) :=
  match v with
  | VArr l => Ok l
  | _ => Throw TypeError
  end.

(** [s.toUpperCase()] on the ASCII letters, the only characters it is
    applied to where its result matters (the keys of the piece table). *)
Definition upperChar (c : ascii) : ascii :=
  let n := nat_of_ascii c in
  if ((97 <=? n) && (n <=? 122))%nat then ascii_of_nat (n - 32) else c.

Fixpoint toUpperCase (s : string) : string :=
  match s with
  | EmptyString => EmptyString
  | String c s' => String (upperChar c) (toUpperCase s')
  end.

Section WithNumberFormat.

Context {NF : NumberFormat}.

(** ** rust-chess *)

(** [rustNormStatus]: [map[s] ?? 'active'].  The key is the string
    [s] converts to. *)
Definition rustStatusMap : list (string * GameStatusNorm.t) :=
  [ ("active", GameStatusNorm.active);
    ("check", GameStatusNorm.check);
    ("checkmate", GameStatusNorm.checkmate);
    ("stalemate", GameStatusNorm.stalemate);
    ("draw", GameStatusNorm.draw);
    ("insufficient_material", GameStatusNorm.insufficient_material);
    ("threefold_repetition", GameStatusNorm.threefold_repetition);
    ("fifty_move_rule", GameStatusNorm.fifty_move_rule) ].

Definition rustNormStatus (s : JsVal) : Res StatusValue :=
  k <- Js.String_ s ;;
  match Js.literalGet rustStatusMap k with
  | Js.Own g => Ok (Canonical g)
  | Js.Inherited m => Ok (PrototypeMember m)
  | Js.Absent => Ok (Canonical GameStatusNorm.active)
  end.

Definition drawStatuses : list string :=
  [ "stalemate"; "draw"; "insufficient_material";
    "threefold_repetition"; "fifty_move_rule" ].

(** [rustDeriveResult] *)
Definition rustDeriveResult (status currentPlayer : JsVal) : string :=
  if Js.isStr status "checkmate" then
    (if Js.isStr currentPlayer "white" then "0-1" else "1-0")
  else if Js.includes drawStatuses status then "1/2-1/2"
  else "*".

(** The single-character piece table of [rustNormPiece]; a key of
    length one is never the name of an inherited member. *)
Definition rustPieceMap : list (string * string) :=
  [ ("P", "pawn"); ("N", "knight"); ("B", "bishop");
    ("R", "rook"); ("Q", "queen"); ("K", "king");
    ("p", "pawn"); ("n", "knight"); ("b", "bishop");
    ("r", "rook"); ("q", "queen"); ("k", "king") ].

(** [rustNormPiece]; [None] is [undefined]. *)
Definition rustNormPiece (raw : JsVal) : option NormPiece :=
  if negb (Js.truthy raw) then None
  else if Js.typeofObject raw then
    Some {| type := Js.optGet raw "type";
            color := assertColor (Js.optGet raw "color") |}
  else
    match raw with
    | VStr c =>
        if (String.length c =? 1)%nat then
          match Js.own c rustPieceMap with
          | Some t =>
              Some {| type := VStr t;
                      color := if c =s toUpperCase c then white else black |}
          | None => None
          end
        else None
    | _ => None
    end.

(** [rustNormMove] *)
Definition rustNormMove (raw : JsVal) : Res NormMove :=
  rfrom <- Js.get raw "from" ;;
  sfrom <- Js.String_ (Js.coalesce rfrom (VStr "")) ;;
  rto <- Js.get raw "to" ;;
  sto <- Js.String_ (Js.coalesce rto (VStr "")) ;;
  rsan <- Js.get raw "san" ;;
  rpiece <- Js.get raw "piece" ;;
  rcaptured <- Js.get raw "captured" ;;
  rpromotion <- Js.get raw "promotion" ;;
  Ok {| from := sfrom;
        to := sto;
        san := rsan;
        piece := if Js.truthy rpiece then rustNormPiece rpiece else None;
        captured := if Js.truthy rcaptured then rustNormPiece rcaptured else None;
        promotion := rpromotion |}.

(** [rustNormBoard] *)
Definition rustNormBoard (raw : JsVal)
    : Res (option (list (list (option NormPiece)))) :=
  match raw with
  | VArr rows =>
      b <- mapM (fun row =>
                   cells <- asArray row ;;
                   Ok (map (fun cell =>
                              if Js.truthy cell then rustNormPiece cell
                              else None) cells))
                rows ;;
      Ok (Some b)
  | _ => Ok None
  end.

Definition rustTerminal : list string :=
  [ "checkmate"; "stalemate"; "draw"; "insufficient_material";
    "threefold_repetition"; "fifty_move_rule" ].

(** [rustNormGame] *)
Definition rustNormGame (raw : JsVal) : Res NormGameState :=
  rhistory <- Js.get raw "moveHistory" ;;
  let history := Js.coalesce rhistory (VArr []) in
  rid <- Js.get raw "id" ;;
  sid <- Js.String_ rid ;;
  rfen <- Js.get raw "fen" ;;
  sfen <- Js.String_ (Js.coalesce rfen (VStr "")) ;;
  rplayer <- Js.get raw "currentPlayer" ;;
  rstatus <- Js.get raw "status" ;;
  nstatus <- rustNormStatus rstatus ;;
  rcheck <- Js.get raw "check" ;;
  items <- asArray history ;;
  moves <- mapM rustNormMove items ;;
  rboard <- Js.get raw "board" ;;
  nboard <- rustNormBoard rboard ;;
  Ok {| id := sid;
        fen := sfen;
        turn := assertColor rplayer;
        status := nstatus;
        check := Js.truthy rcheck;
        moveCount := List.length items;
        moveHistory := moves;
        board := nboard;
        result := rustDeriveResult rstatus rplayer;
        gameOver := Js.includes rustTerminal rstatus |}.

(** ** go-chess *)

Definition goStatusMap : list (string * GameStatusNorm.t) :=
  [ ("in_progress", GameStatusNorm.active);
    ("check", GameStatusNorm.check);
    ("white_wins", GameStatusNorm.checkmate);
    ("black_wins", GameStatusNorm.checkmate);
    ("stalemate", GameStatusNorm.stalemate);
    ("draw", GameStatusNorm.draw);
    ("insufficient_material", GameStatusNorm.insufficient_material);
    ("threefold_repetition", GameStatusNorm.threefold_repetition);
    ("fifty_move_rule", GameStatusNorm.fifty_move_rule) ].

(** [goNormStatus] *)
Definition goNormStatus (s : JsVal) : Res StatusValue :=
  k <- Js.String_ s ;;
  match Js.literalGet goStatusMap k with
  | Js.Own g => Ok (Canonical g)
  | Js.Inherited m => Ok (PrototypeMember m)
  | Js.Absent => Ok (Canonical GameStatusNorm.active)
  end.

(** [goDeriveResult] *)
Definition goDeriveResult (status : JsVal) : string :=
  if Js.isStr status "white_wins" then "1-0"
  else if Js.isStr status "black_wins" then "0-1"
  else if Js.includes drawStatuses status then "1/2-1/2"
  else "*".

(** [goNormPiece], and [jsNormPiece], which has the same body *)
Definition goNormPiece (raw : JsVal) : option NormPiece :=
  if negb (Js.truthy raw) then None
  else if Js.typeofObject raw then
    Some {| type := Js.optGet raw "type";
            color := assertColor (Js.optGet raw "color") |}
  else None.

Definition jsNormPiece : JsVal -> option NormPiece := goNormPiece.

(** [goNormMove] *)
Definition goNormMove (raw : JsVal) : Res NormMove :=
  rfrom <- Js.get raw "from" ;;
  sfrom <- Js.String_ (Js.coalesce rfrom (VStr "")) ;;
  rto <- Js.get raw "to" ;;
  sto <- Js.String_ (Js.coalesce rto (VStr "")) ;;
  rnotation <- Js.get raw "notation" ;;
  rpiece <- Js.get raw "piece" ;;
  rcaptured <- Js.get raw "captured" ;;
  rpromotion <- Js.get raw "promotion" ;;
  Ok {| from := sfrom;
        to := sto;
        san := Js.coalesce rnotation VUndefined;
        piece := if Js.truthy rpiece then goNormPiece rpiece else None;
        captured := if Js.truthy rcaptured then goNormPiece rcaptured else None;
        promotion := rpromotion |}.

Definition goTerminal : list string :=
  [ "white_wins"; "black_wins"; "stalemate"; "draw";
    "insufficient_material"; "threefold_repetition"; "fifty_move_rule" ].

(** [goNormGame] *)
Definition goNormGame (raw : JsVal) : Res NormGameState :=
  rhistory <- Js.get raw "move_history" ;;
  let history := Js.coalesce rhistory (VArr []) in
  rid <- Js.get raw "id" ;;
  sid <- Js.String_ rid ;;
  rfen <- Js.get raw "fen" ;;
  sfen <- Js.String_ (Js.coalesce rfen (VStr "")) ;;
  rcolor <- Js.get raw "active_color" ;;
  rstatus <- Js.get raw "status" ;;
  nstatus <- goNormStatus rstatus ;;
  items <- asArray history ;;
  moves <- mapM goNormMove items ;;
  Ok {| id := sid;
        fen := sfen;
        turn := assertColor rcolor;
        status := nstatus;
        check := Js.isStr rstatus "check";
        moveCount := List.length items;
        moveHistory := moves;
        board := None;
        result := goDeriveResult rstatus;
        gameOver := Js.includes goTerminal rstatus |}.

(** ** js-chess / npm-chess *)

(** [jsDeriveResult] *)
Definition jsDeriveResult (raw : JsVal) : Res string :=
  rcheckmate <- Js.get raw "checkmate" ;;
  if Js.truthy rcheckmate then
    rwinner <- Js.get raw "winner" ;;
    Ok (if Js.isStr rwinner "white" then "1-0" else "0-1")
  else
    rgameOver <- Js.get raw "gameOver" ;;
    if Js.truthy rgameOver then Ok "1/2-1/2" else Ok "*".

(** [jsNormMove] *)
Definition jsNormMove (raw : JsVal) : Res NormMove :=
  rfrom <- Js.get raw "from" ;;
  sfrom <- Js.String_ (Js.coalesce rfrom (VStr "")) ;;
  rto <- Js.get raw "to" ;;
  sto <- Js.String_ (Js.coalesce rto (VStr "")) ;;
  rsan <- Js.get raw "san" ;;
  rpiece <- Js.get raw "piece" ;;
  rcaptured <- Js.get raw "capturedPiece" ;;
  rpromotion <- Js.get raw "promotion" ;;
  Ok {| from := sfrom;
        to := sto;
        san := rsan;
        piece := if Js.truthy rpiece then jsNormPiece rpiece else None;
        captured := if Js.truthy rcaptured then jsNormPiece rcaptured else None;
        promotion := rpromotion |}.

(** [jsNormGame] *)
Definition jsNormGame (raw : JsVal) : Res NormGameState :=
  rhistory <- Js.get raw "moveHistory" ;;
  let history := Js.coalesce rhistory (VArr []) in
  rgameOver <- Js.get raw "gameOver" ;;
  let gameOver_ := Js.truthy rgameOver in
  rcheckmate <- Js.get raw "checkmate" ;;
  let checkmate := Js.truthy rcheckmate in
  rstalemate <- Js.get raw "stalemate" ;;
  let stalemate := Js.truthy rstalemate in
  rcheck <- Js.get raw "check" ;;
  let check_ := Js.truthy rcheck in
  rthreefold <- Js.get raw "inThreefoldRepetition" ;;
  rfifty <- Js.get raw "inFiftyMoveRule" ;;
  let status_ :=
    if checkmate then GameStatusNorm.checkmate
    else if stalemate then GameStatusNorm.stalemate
    else if Js.truthy rthreefold then GameStatusNorm.threefold_repetition
    else if Js.truthy rfifty then GameStatusNorm.fifty_move_rule
    else if gameOver_ then GameStatusNorm.draw
    else if check_ then GameStatusNorm.check
    else GameStatusNorm.active in
  rid <- Js.get raw "id" ;;
  sid <- Js.String_ rid ;;
  rfen <- Js.get raw "fen" ;;
  sfen <- Js.String_ (Js.coalesce rfen (VStr "")) ;;
  rturn <- Js.get raw "turn" ;;
  items <- asArray history ;;
  moves <- mapM jsNormMove items ;;
  res <- jsDeriveResult raw ;;
  Ok {| id := sid;
        fen := sfen;
        turn := assertColor rturn;
        status := Canonical status_;
        check := check_;
        moveCount := List.length items;
        moveHistory := moves;
        board := None;
        result := res;
        gameOver := gameOver_ |}.

(** ** Adapter registry *)

(** [BackendAdapter], with the members the provider's [undoMove]
    path uses. *)
Record BackendAdapter : Type := mkAdapter {
  apiPrefix : string;
  normGame : JsVal -> Res NormGameState;
  aiDifficultyField : string
}.

(** [ADAPTERS[id]]; there is no entry for ['local']. *)
Definition ADAPTERS (id : BackendId) : option BackendAdapter :=
  match id with
  | local => None
  | rust => Some {| apiPrefix := "/api"; normGame := rustNormGame;
                    aiDifficultyField := "difficulty" |}
  | go => Some {| apiPrefix := "/api"; normGame := goNormGame;
                  aiDifficultyField := "level" |}
  | js => Some {| apiPrefix := "/api/v1"; normGame := jsNormGame;
                  aiDifficultyField := "difficulty" |}
  end.

End WithNumberFormat.

End Adapters.

(* ===================================================================== *)
(** * providers/RemoteProvider.ts *)
(* ===================================================================== *)

Module Http.

(** The arguments of one [fetch] call. *)
Record Request : Type := mkRequest {
  url : string;
  method : option string;
  headers : list (string * string);
  body : option string;
  (** [signal: AbortSignal.timeout(ms)] *)
  signalTimeout : option Z
}.

(** What the code reads of a [Response]. *)
Record Response : Type := mkResponse {
  status : Z;
  statusText : string;
  (** [res.headers.get('content-type')], [None] for [null] *)
  contentType : option string;
  (** [await res.text()] *)
  text : string;
  (** [await res.json()]: the parsed body, or the [SyntaxError] *)
  json : Res JsVal
}.

(** [res.ok]: the status is in the range 200 to 299. *)
Definition ok (res : Response) : bool :=
  (200 <=? status res) && (status res <=? 299).

(** The network: what [fetch] settles with for a request. *)
Inductive FetchResult : Type :=
  | Resolves (res : Response)
  | Rejects (message : option string).

Definition Fetch : Type := Request -> FetchResult.

End Http.

Module RemoteProvider.

Import Http.
Import Adapters.

(** [REMOTE_CAPS[id]] *)
Definition REMOTE_CAPS (id : BackendId) : option ProviderCapabilities :=
  match id with
  | rust => Some {| cap_undo := true; cap_ai := true; cap_hint := true;
                    cap_analysis := true; cap_chat := true;
                    cap_websocket := true; cap_pgn := true;
                    cap_fenLoad := true |}
  | go => Some {| cap_undo := false; cap_ai := true; cap_hint := true;
                  cap_analysis := true; cap_chat := true;
                  cap_websocket := true; cap_pgn := true;
                  cap_fenLoad := true |}
  | js => Some {| cap_undo := true; cap_ai := true; cap_hint := true;
                  cap_analysis := true; cap_chat := false;
                  cap_websocket := false; cap_pgn := true;
                  cap_fenLoad := true |}
  | local => None
  end.

(** [hay.includes(needle)] on strings *)
Fixpoint strIncludes (needle hay : string) : bool :=
  prefix needle hay ||
  match hay with
  | EmptyString => false
  | String _ hay' => strIncludes needle hay'
  end.

(** [{ 'Content-Type': 'application/json', ...extra }] *)
Definition withContentType (extra : list (string * string)) : list (string * string) :=
  match Js.own "Content-Type" extra with
  | Some v =>
      ("Content-Type", v)
        :: filter (fun kv => negb (fst kv =s "Content-Type")) extra
  | None => ("Content-Type", "application/json") :: extra
  end.

(** The [init] argument of [request]. *)
Record RequestInit : Type := mkInit {
  init_method : option string;
  init_headers : list (string * string);
  init_body : option string
}.

Section WithNumberFormat.

Context {NF : NumberFormat}.

(** [request]: the one [fetch] it issues, and what it returns or
    throws. *)
Definition request (fetch : Fetch) (u : string) (init : RequestInit)
    : list Request * Res JsVal :=
  let req := {| url := u;
                method := init_method init;
                headers := withContentType (init_headers init);
                body := init_body init;
                signalTimeout := None |} in
  match fetch req with
  | Rejects m => ([req], Throw (FetchRejected m))
  | Resolves res =>
      let ct := match contentType res with Some c => c | None => "" end in
      if strIncludes "text/plain" ct then
        if negb (ok res)
        then ([req], Throw (ApiError (status res) "HTTP_ERROR" (text res)))
        else ([req], Ok (VStr (text res)))
      else
        ([req],
         body <- json res ;;
         if negb (ok res) then
           let errObj := Js.optGet body "error" in
           let code :=
             if Js.typeofObject errObj then Js.optGet errObj "code"
             else Js.coalesce errObj (VStr "UNKNOWN") in
           let msg :=
             if Js.typeofObject errObj then Js.optGet errObj "message"
             else Js.coalesce (Js.optGet body "message")
                              (VStr (statusText res)) in
           scode <- Js.String_ code ;;
           smsg <- Js.String_ msg ;;
           Throw (ApiError (status res) scode smsg)
         else Ok body)
  end.

Record RemoteProvider : Type := mkRemoteProvider {
  backendId : BackendId;
  capabilities : ProviderCapabilities;
  baseUrl : string;
  (** [ADAPTERS[backendId]], [None] for [undefined] *)
  adapter : option BackendAdapter
}.

(** [baseUrl.replace(/\/+$/, '')] *)
Fixpoint stripTrailingSlashes (s : string) : string :=
  match s with
  | EmptyString => EmptyString
  | String c s' =>
      let r := stripTrailingSlashes s' in
      match r with
      | EmptyString =>
          if Ascii.eqb c "/"%char then EmptyString
          else String c EmptyString
      | _ => String c r
      end
  end.

(** [new RemoteProvider(backendId, baseUrl)] *)
Definition constructor (id : BackendId) (base : string) : Res RemoteProvider :=
  if BackendId_eqb id local
  then Throw (Error "Use LocalProvider for local backend")
  else
    Ok {| backendId := id;
          baseUrl := stripTrailingSlashes base;
          adapter := ADAPTERS id;
          capabilities :=
            match REMOTE_CAPS id with
            | Some c => c
            | None =>
                {| cap_undo := true; cap_ai := true; cap_hint := true;
                   cap_analysis := true; cap_chat := true;
                   cap_websocket := true; cap_pgn := true;
                   cap_fenLoad := true |}
            end |}.

(** [this.url(path)] *)
Definition url_ (p : RemoteProvider) (path : string) : Res string :=
  match adapter p with
  | Some a => Ok (baseUrl p ++ apiPrefix a ++ path)%string
  | None => Throw TypeError
  end.

(** [RemoteProvider.undoMove]: the requests it issued and its
    outcome. *)
Definition undoMove (p : RemoteProvider) (fetch : Fetch) (gameId : string)
    : list Request * Res Norm.NormGameState :=
  if negb (cap_undo (capabilities p)) then
    ([], Throw (Error ("Undo is not supported by the "
                         ++ BackendId_name (backendId p) ++ " backend")%string))
  else
    match url_ p ("/games/" ++ gameId ++ "/undo")%string with
    | Throw e => ([], Throw e)
    | Ok u =>
        let '(reqs, r) :=
          request fetch u {| init_method := Some "POST";
                             init_headers := [];
                             init_body := None |} in
        (reqs,
         raw <- r ;;
         match adapter p with
         | Some a => normGame a raw
         | None => Throw TypeError
         end)
    end.

End WithNumberFormat.

End RemoteProvider.

(* ===================================================================== *)
(** * The backend context: [BackendProvider] *)
(* ===================================================================== *)

Module BackendContext.

Import Http.

(** The [useState] cells of [BackendProvider]. *)
Record State : Type := mkState {
  backendId : BackendId;
  (** [Partial<Record<BackendId, string>>] *)
  urlOverrides : BackendId -> option string;
  (** [true], [false], or [None] for [null] (still checking) *)
  connected : option bool;
  connectionError : option string;
  checking : bool
}.

(** The initial render, from the persisted (or environment) backend
    and URL overrides. *)
Definition initialState (id : BackendId) (urls : BackendId -> option string) : State :=
  {| backendId := id;
     urlOverrides := urls;
     connected := if BackendId_eqb id local || BackendId_eqb id js
                  then Some true else None;
     connectionError := None;
     checking := false |}.

(** [backends[id].url]: the preset with the override on top. *)
Definition backends_url (s : State) (id : BackendId) : option string :=
  match urlOverrides s id with
  | Some u => Some u
  | None => BACKEND_PRESETS_url id
  end.

(** The provider object held by the context.  The local provider's
    internals play no role here. *)
Inductive ChessProvider : Type :=
  | LocalProvider
  | Remote (p : RemoteProvider.RemoteProvider).

Section WithNumberFormat.

Context {NF : NumberFormat}.

(** The [provider] memo. *)
Definition provider (s : State) : Res ChessProvider :=
  let id := backendId s in
  if BackendId_eqb id local || BackendId_eqb id js then Ok LocalProvider
  else
    let u :=
      match backends_url s id with
      | Some u => u
      | None =>
          match BACKEND_PRESETS_url id with
          | Some u => u
          | None => "http://localhost:8083"
          end
      end in
    p <- RemoteProvider.constructor id u ;;
    Ok (Remote p).

(** [checkConnection], run to completion: the requests it issued and
    the state it leaves. *)
Definition checkConnection (s : State) (fetch : Fetch)
    : list Request * State :=
  let id := backendId s in
  if BackendId_eqb id local || BackendId_eqb id js then
    ([], {| backendId := id; urlOverrides := urlOverrides s;
            connected := Some true; connectionError := None;
            checking := checking s |})
  else
    let u :=
      match backends_url s id with
      | Some u => u
      | None =>
          match BACKEND_PRESETS_url id with
          | Some u => u
          | None => ""
          end
      end in
    let req := {| url := (u ++ "/health")%string;
                  method := None; headers := []; body := None;
                  signalTimeout := Some 5000 |} in
    match fetch req with
    | Resolves res =>
        if ok res then
          ([req], {| backendId := id; urlOverrides := urlOverrides s;
                     connected := Some true; connectionError := None;
                     checking := false |})
        else
          ([req], {| backendId := id; urlOverrides := urlOverrides s;
                     connected := Some false;
                     connectionError :=
                       Some ("Health check returned "
                               ++ Number_toString (inject_Z (status res)))%string;
                     checking := false |})
    | Rejects m =>
        ([req], {| backendId := id; urlOverrides := urlOverrides s;
                   connected := Some false;
                   connectionError :=
                     Some (match m with
                           | Some msg => msg
                           | None => "Cannot reach backend"
                           end);
                   checking := false |})
    end.

(** [customUrl && id !== 'local'] *)
Definition overrides (id : BackendId) (customUrl : option string) : bool :=
  match customUrl with
  | Some u => negb (u =s "") && negb (BackendId_eqb id local)
  | None => false
  end.

(** [switchBackend]: the state after its four setters. *)
Definition switchBackend (s : State) (id : BackendId)
    (customUrl : option string) : State :=
  {| backendId := id;
     urlOverrides :=
       if overrides id customUrl
       then fun i => if BackendId_eqb i id then customUrl else urlOverrides s i
       else urlOverrides s;
     connected := if BackendId_eqb id local then Some true else None;
     connectionError := None;
     checking := checking s |}.

(** Whether the effect [useEffect(() => { checkConnection() },
    [checkConnection])] runs in the render after
    [switchBackend(id, customUrl)]: the callback is rebuilt when one of
    its dependencies, the backend id or the configurations derived from
    the override object, was replaced. *)
Definition effectRuns (s : State) (id : BackendId)
    (customUrl : option string) : bool :=
  negb (BackendId_eqb id (backendId s)) || overrides id customUrl.

(** [switchBackend] followed by the render it causes. *)
Definition switchAndCheck (s : State) (id : BackendId)
    (customUrl : option string) (fetch : Fetch) : list Request * State :=
  let s1 := switchBackend s id customUrl in
  if effectRuns s id customUrl
  then checkConnection s1 fetch
  else ([], s1).

End WithNumberFormat.

End BackendContext.

(* ===================================================================== *)
(** * Auxiliary definitions for the statements *)
(* ===================================================================== *)

(** ** A log of the mutating engine calls *)

Inductive Call : Type :=
  | CallMake   (** a [makeMove] that was applied *)
  | CallUndo.  (** an [undo] *)

(** [traced E] behaves as [E] and appends every applied [makeMove] and
    every [undo] to a log kept next to the engine state. *)
Definition traced (E : Engine) : Engine :=
  {| St := St E * list Call;
     makeMove := fun sl f t p =>
       match makeMove (fst sl) f t p with
       | (Some m, s') => (Some m, (s', snd sl ++ [CallMake]))
       | (None, s') => (None, (s', snd sl))
       end;
     undo := fun sl =>
       (fst (undo (fst sl)), (snd (undo (fst sl)), snd sl ++ [CallUndo]));
     getLegalMoves := fun sl => getLegalMoves (fst sl);
     getTurn := fun sl => getTurn (fst sl);
     getBoard := fun sl => getBoard (fst sl);
     isGameOver := fun sl => isGameOver (fst sl);
     getStatus := fun sl => getStatus (fst sl);
     getFEN := fun sl => getFEN (fst sl) |}.

(** Reading a log from the left with [open] moves not yet undone: the
    number still open at the end, or [None] when an [undo] comes with
    nothing open. *)
Fixpoint nesting (log : list Call) (open : nat) : option nat :=
  match log with
  | [] => Some open
  | CallMake :: log' => nesting log' (S open)
  | CallUndo :: log' =>
      match open with
      | O => None
      | S open' => nesting log' open'
      end
  end.

(** Every applied [makeMove] is closed by its own [undo]. *)
Definition wellNested (log : list Call) : Prop := nesting log 0 = Some 0%nat.

(** ** The evaluation as the specification words it *)

Definition spec_materialValue (t : string) : Z :=
  if t =s "pawn" then 100
  else if t =s "knight" then 300
  else if t =s "bishop" then 300
  else if t =s "rook" then 500
  else if t =s "queen" then 900
  else if t =s "king" then 10000
  else 0.

(** The pieces on a board, row by row. *)
Definition piecesOf (board : list (list (option ChessPiece))) : list ChessPiece :=
  flat_map (fun row => flat_map (fun cell => match cell with
                                             | Some p => [p]
                                             | None => []
                                             end) row) board.

(** Material of [maximizingColor] minus material of the opponent. *)
Definition spec_materialSum (board : list (list (option ChessPiece)))
    (maximizingColor : Color) : Z :=
  fold_right Z.add 0
    (map (fun p => match color p, maximizingColor with
                   | white, white | black, black => spec_materialValue (type p)
                   | _, _ => - spec_materialValue (type p)
                   end)
         (piecesOf board)).

(** ** The effective depth as the specification words it *)

Definition spec_nominalDepth (level : AIDifficulty) : nat :=
  match level with
  | harmless => 0
  | random => 0
  | easy => 1
  | medium => 2
  | hard => 3
  | expert => 4
  | godlike => 5
  end.

Definition spec_effectiveDepth (level : AIDifficulty) (legalMoveCount : nat) : nat :=
  match level with
  | expert | godlike => if (60 <? legalMoveCount)%nat then 3 else spec_nominalDepth level
  | _ => spec_nominalDepth level
  end.

(** ** A small engine to run the search on *)

Module Toy.

Definition quiet : ChessMove :=
  {| from := "e2"; to := "e4";
     piece := {| type := "pawn"; color := white |};
     captured := None; promotion := None |}.

Definition capture : ChessMove :=
  {| from := "d1"; to := "d8";
     piece := {| type := "queen"; color := white |};
     captured := Some {| type := "queen"; color := black |};
     promotion := None |}.

(** The state is the stack of the moves played; two moves are legal
    until three have been played. *)
Definition legal (s : list ChessMove) : list ChessMove :=
  if (List.length s <? 3)%nat then [quiet; capture] else [].

Definition engine : Engine :=
  {| St := list ChessMove;
     makeMove := fun s f t _ =>
       match find (fun m => (from m =s f) && (to m =s t)) (legal s) with
       | Some m => (Some m, m :: s)
       | None => (None, s)
       end;
     undo := fun s =>
       match s with
       | [] => (None, [])
       | m :: s' => (Some m, s')
       end;
     getLegalMoves := legal;
     getTurn := fun s => if Nat.even (List.length s) then white else black;
     getBoard := fun s =>
       [ [ Some {| type := "king"; color := white |}; None;
           Some {| type := "king"; color := black |} ];
         map (fun m => Some (piece m)) s ];
     isGameOver := fun s => (3 <=? List.length s)%nat;
     getStatus := fun s => if (3 <=? List.length s)%nat then "checkmate" else "active";
     getFEN := fun s => String.concat "/" (map to s) |}.

End Toy.

(** A number format for closed examples: the integer part in decimal. *)
Definition integerFormat : NumberFormat :=
  fun q => DecimalString.NilZero.string_of_int (Z.to_int (Qfloor q)).

(** ** Shapes of the search lemmas *)

(** [child] hands the engine back in the state it received. *)
Definition restoring {E : Engine} (child : St E -> Num -> Num -> Num * St E) : Prop :=
  forall s a b, snd (child s a b) = s.

(** A stretch of log that leaves every number of open moves as it
    found it. *)
Definition neutral (w : list Call) : Prop :=
  forall open, nesting w open = Some open.

(** [child] only extends the log, by a neutral stretch. *)
Definition extending {E : Engine}
    (child : St (traced E) -> Num -> Num -> Num * St (traced E)) : Prop :=
  forall s a b, exists w,
    neutral w /\ snd (snd (child s a b)) = snd s ++ w.

(** ** Pieces and their signed values *)

(** The value of [p] counted for [mc]. *)
Definition signedValue (mc : Color) (p : ChessPiece) : Z :=
  match color p, mc with
  | white, white | black, black => spec_materialValue (type p)
  | _, _ => - spec_materialValue (type p)
  end.

(** The pieces of one row. *)
Definition cellsOf (row : list (option ChessPiece)) : list ChessPiece :=
  flat_map (fun cell => match cell with Some p => [p] | None => [] end) row.

(** ** Sample responses and requests *)

(** A response of js-chess that flags the mate but carries no [gameOver]
    member. *)
Definition mateWithoutGameOver : JsVal :=
  VObj [ ("id", VStr "uuid-2"); ("fen", VStr "mate-fen");
         ("turn", VStr "white"); ("checkmate", VBool true);
         ("check", VBool true); ("winner", VStr "black");
         ("moveHistory", VArr []) ].

(** The same response with the flag. *)
Definition mateWithGameOver : JsVal :=
  VObj [ ("id", VStr "uuid-2"); ("fen", VStr "mate-fen");
         ("turn", VStr "white"); ("gameOver", VBool true);
         ("checkmate", VBool true); ("stalemate", VBool false);
         ("check", VBool true); ("winner", VStr "black");
         ("moveHistory", VArr []) ].

(** The member of the response the turn is read from. *)
Definition turnField (id : BackendId) : string :=
  match id with
  | rust => "currentPlayer"
  | go => "active_color"
  | _ => "turn"
  end.

(** A go-chess response with the short colour code. *)
Definition goShortColor : JsVal :=
  VObj [ ("id", VNum 4); ("fen", VStr "f"); ("active_color", VStr "b");
         ("status", VStr "in_progress"); ("move_history", VArr []) ].

(** The request [request] sends for [u] and [init]. *)
Definition requestSent (u : string) (init : RemoteProvider.RequestInit) : Http.Request :=
  {| Http.url := u;
     Http.method := RemoteProvider.init_method init;
     Http.headers := RemoteProvider.withContentType (RemoteProvider.init_headers init);
     Http.body := RemoteProvider.init_body init;
     Http.signalTimeout := None |}.

(** [res.headers.get('content-type') ?? ''] *)
Definition contentTypeOf (res : Http.Response) : string :=
  match Http.contentType res with Some c => c | None => "" end.

(** A network that answers every request with [res]. *)
Definition answering (res : Http.Response) : Http.Fetch :=
  fun _ => Http.Resolves res.

(** The 404 of rust-chess for an unknown game. *)
Definition notFound : Http.Response :=
  {| Http.status := 404;
     Http.statusText := "Not Found";
     Http.contentType := Some "application/json";
     Http.text := "";
     Http.json :=
       Ok (VObj [ ("error", VObj [ ("code", VStr "NOT_FOUND");
                                   ("message", VStr "Game not found") ]) ]) |}.

(** The request [undoMove] sends. *)
Definition undoRequest (base prefix gameId : string) : Http.Request :=
  {| Http.url := (RemoteProvider.stripTrailingSlashes base ++ prefix
                    ++ "/games/" ++ gameId ++ "/undo")%string;
     Http.method := Some "POST";
     Http.headers := [("Content-Type", "application/json")];
     Http.body := None;
     Http.signalTimeout := None |}.

(** The health-check request for the base URL [u]. *)
Definition healthRequest (u : string) : Http.Request :=
  {| Http.url := (u ++ "/health")%string;
     Http.method := None;
     Http.headers := [];
     Http.body := None;
     Http.signalTimeout := Some 5000 |}.

(** The application as it starts with nothing persisted. *)
Definition freshLocal : BackendContext.State :=
  BackendContext.initialState local (fun _ => None).

(** A healthy backend. *)
Definition healthy : Http.Response :=
  {| Http.status := 200;
     Http.statusText := "OK";
     Http.contentType := Some "application/json";
     Http.text := "";
     Http.json := Ok (VObj [ ("status", VStr "ok") ]) |}.

From Stdlib Require Import Permutation Sorted.

(* ===================================================================== *)
(** * Further definitions: the search *)
(* ===================================================================== *)

(** [a <= b] and [a < b] on scores, through the comparisons the code
    uses. *)
Definition Num_le (a b : Num) : Prop := Num.ge b a = true.

Definition Num_lt (a b : Num) : Prop := Num.gt b a = true.

(** [-a] *)
Definition Num_neg (a : Num) : Num :=
  match a with
  | NegInfinity => Infinity
  | Finite z => Finite (- z)
  | Infinity => NegInfinity
  end.

(** Minimax without a window: the value of a node is the evaluation at
    depth 0, in a finished game and without legal moves, and otherwise
    the greatest (the maximizing colour to move) or the least value of
    the positions the applied legal moves lead to. *)
Fixpoint plainMinimax {E : Engine} (depth : nat) (s : St E)
    (maximizingColor : Color) {struct depth} : Num :=
  match depth with
  | O => ChessAI.evaluate s maximizingColor
  | S depth' =>
      if isGameOver s then ChessAI.evaluate s maximizingColor
      else if (List.length (getLegalMoves s) =? 0)%nat
      then ChessAI.evaluate s maximizingColor
      else if Color_eqb (getTurn s) maximizingColor then
        fold_left
          (fun acc move =>
             match makeMove s (from move) (to move) (promotion move) with
             | (Some _, s1) => Num.max acc (plainMinimax depth' s1 maximizingColor)
             | (None, _) => acc
             end)
          (getLegalMoves s) NegInfinity
      else
        fold_left
          (fun acc move =>
             match makeMove s (from move) (to move) (promotion move) with
             | (Some _, s1) => Num.min acc (plainMinimax depth' s1 maximizingColor)
             | (None, _) => acc
             end)
          (getLegalMoves s) Infinity
  end.

(** [v] answers for the true value [m] under the window [(alpha, beta)]:
    exact strictly inside the window, an upper bound of [m] at or below
    [alpha], a lower bound of [m] at or above [beta]. *)
Definition within (alpha beta v m : Num) : Prop :=
  (Num_le v alpha -> Num_le m v) /\
  (Num_le beta v -> Num_le v m) /\
  (Num_lt alpha v -> Num_lt v beta -> v = m).

(** The plain minimax value of the position a root move leads to, or
    [None] when the engine rejects the move. *)
Definition rootValue {E : Engine} (depth' : nat) (maximizingColor : Color)
    (s : St E) (move : ChessMove) : option Num :=
  match makeMove s (from move) (to move) (promotion move) with
  | (Some _, s1) => Some (plainMinimax depth' s1 maximizingColor)
  | (None, _) => None
  end.

(** [a] may stand before [b] in the ordered move list. *)
Definition capGe (a b : ChessMove) : Prop := ChessAI.capOf b <= ChessAI.capOf a.

(** The other colour. *)
Definition opponent (c : Color) : Color :=
  match c with white => black | black => white end.

(** One step of the plain maximum and minimum over the applied moves. *)
Definition maxStep {E : Engine} (pchild : St E -> Num) (s : St E)
    (acc : Num) (move : ChessMove) : Num :=
  match makeMove s (from move) (to move) (promotion move) with
  | (Some _, s1) => Num.max acc (pchild s1)
  | (None, _) => acc
  end.

Definition minStep {E : Engine} (pchild : St E -> Num) (s : St E)
    (acc : Num) (move : ChessMove) : Num :=
  match makeMove s (from move) (to move) (promotion move) with
  | (Some _, s1) => Num.min acc (pchild s1)
  | (None, _) => acc
  end.

(* ===================================================================== *)
(** * Further definitions: ChessEngine coordinates *)
(* ===================================================================== *)

Module Coords.

(** An integer-valued JavaScript number, [None] for [NaN]. *)
Definition Number_ : Type := option Z.

(** [{ row, col }] *)
Record RowCol : Type := mkRowCol {
  row : Number_;
  col : Number_
}.

(** [parseInt(ch, 10)] for a string [ch] of one character: the digit's
    value, [NaN] for any other character. *)
Definition parseDigit (ch : ascii) : Number_ :=
  let n := nat_of_ascii ch in
  if ((48 <=? n) && (n <=? 57))%nat then Some (Z.of_nat n - 48) else None.

(** [ChessEngine.squareToCoords].  [square.charCodeAt(0)] is [NaN] on the
    empty string; [square[1]] is [undefined] on a string shorter than
    two, and [parseInt(undefined, 10)] is [NaN]. *)
Definition squareToCoords (square : string) : RowCol :=
  let file :=
    match square with
    | EmptyString => None
    | String c _ => Some (Z.of_nat (nat_of_ascii c) - 97)
    end in
  let rank :=
    match square with
    | String _ (String d _) => parseDigit d
    | _ => None
    end in
  let row_ := match rank with Some r => Some (r - 1) | None => None end in
  {| row := row_; col := file |}.

(** An integer as a template literal prints it (plain decimal, which is
    what JavaScript prints below 10^21). *)
Definition decimal (z : Z) : string :=
  DecimalString.NilZero.string_of_int (Z.to_int z).

(** [ChessEngine.coordsToSquare] for integer arguments.
    [String.fromCharCode] takes its argument modulo 2^16; [None] is a
    code unit above 255, which the 8-bit strings used here cannot hold. *)
Definition coordsToSquare (row_ col_ : Z) : option string :=
  let code := (97 + col_) mod 65536 in
  let rank := row_ + 1 in
  if code <? 256
  then Some (String (ascii_of_nat (Z.to_nat code)) (decimal rank))
  else None.

End Coords.

(* ===================================================================== *)
(** * Further definitions: the other normalisers of adapters.ts *)
(* ===================================================================== *)

Module NormLegalMove.
(** [NormLegalMove]; [san] and [promotion] are copied unchecked. *)
Record t : Type := mk {
  from : string;
  to : string;
  san : JsVal;
  promotion : JsVal
}.
End NormLegalMove.

Module NormAiMoveResult.
(** [NormAiMoveResult]; an optional member the adapter does not set is
    [VUndefined]. *)
Record t : Type := mk {
  move : Norm.NormMove;
  game : Norm.NormGameState;
  evaluation : JsVal;
  thinkingTimeMs : JsVal;
  depth : JsVal
}.
End NormAiMoveResult.

Module NormAnalysis.
(** [NormAnalysis] *)
Record t : Type := mk {
  evaluation : JsVal;
  bestMove : option Norm.NormMove;
  depth : JsVal
}.
End NormAnalysis.

Module AdaptersMore.

Import Adapters.

(** [{ from: '', to: '' }] *)
Definition emptyMove : Norm.NormMove :=
  {| Norm.from := ""; Norm.to := ""; Norm.san := VUndefined;
     Norm.piece := None; Norm.captured := None;
     Norm.promotion := VUndefined |}.

Section WithNumberFormat.

Context {NF : NumberFormat}.

(** The callback of [rustNormLegalMoves] and [jsNormLegalMoves] *)
Definition legalMoveOf (m : JsVal) : Res NormLegalMove.t :=
  rfrom <- Js.get m "from" ;;
  sfrom <- Js.String_ rfrom ;;
  rto <- Js.get m "to" ;;
  sto <- Js.String_ rto ;;
  rsan <- Js.get m "san" ;;
  rpromotion <- Js.get m "promotion" ;;
  Ok {| NormLegalMove.from := sfrom; NormLegalMove.to := sto;
        NormLegalMove.san := rsan; NormLegalMove.promotion := rpromotion |}.

(** The callback of [goNormLegalMoves] *)
Definition goLegalMoveOf (m : JsVal) : Res NormLegalMove.t :=
  rfrom <- Js.get m "from" ;;
  sfrom <- Js.String_ rfrom ;;
  rto <- Js.get m "to" ;;
  sto <- Js.String_ rto ;;
  rnotation <- Js.get m "notation" ;;
  rpromotion <- Js.get m "promotion" ;;
  Ok {| NormLegalMove.from := sfrom; NormLegalMove.to := sto;
        NormLegalMove.san := Js.coalesce rnotation VUndefined;
        NormLegalMove.promotion := rpromotion |}.

(** [rustNormLegalMoves] *)
Definition rustNormLegalMoves (raw : JsVal) : Res (list NormLegalMove.t) :=
  rmoves <- Js.get raw "moves" ;;
  let moves := Js.coalesce rmoves (VArr []) in
  items <- asArray moves ;;
  mapM legalMoveOf items.

(** [goNormLegalMoves] *)
Definition goNormLegalMoves (raw : JsVal) : Res (list NormLegalMove.t) :=
  rmoves <- Js.get raw "legal_moves" ;;
  let moves := Js.coalesce rmoves (VArr []) in
  items <- asArray moves ;;
  mapM goLegalMoveOf items.

(** [jsNormLegalMoves] *)
Definition jsNormLegalMoves (raw : JsVal) : Res (list NormLegalMove.t) :=
  rmoves <- Js.get raw "moves" ;;
  let moves := Js.coalesce rmoves (VArr []) in
  items <- asArray moves ;;
  mapM legalMoveOf items.

(** [rustNormAiMove] *)
Definition rustNormAiMove (raw : JsVal) : Res NormAiMoveResult.t :=
  moveRaw <- Js.get raw "move" ;;
  nmove <- (if Js.truthy moveRaw then rustNormMove moveRaw else Ok emptyMove) ;;
  ngame <- rustNormGame raw ;;
  revaluation <- Js.get raw "evaluation" ;;
  rthinking <- Js.get raw "thinkingTime" ;;
  Ok {| NormAiMoveResult.move := nmove;
        NormAiMoveResult.game := ngame;
        NormAiMoveResult.evaluation := revaluation;
        NormAiMoveResult.thinkingTimeMs := rthinking;
        NormAiMoveResult.depth := VUndefined |}.

(** [goNormAiMove] *)
Definition goNormAiMove (raw : JsVal) : Res NormAiMoveResult.t :=
  moveRaw <- Js.get raw "move" ;;
  nmove <- (if Js.truthy moveRaw then goNormMove moveRaw else Ok emptyMove) ;;
  ngame <- goNormGame raw ;;
  revaluation <- Js.get raw "evaluation" ;;
  Ok {| NormAiMoveResult.move := nmove;
        NormAiMoveResult.game := ngame;
        NormAiMoveResult.evaluation := revaluation;
        NormAiMoveResult.thinkingTimeMs := VUndefined;
        NormAiMoveResult.depth := VUndefined |}.

(** [jsNormAiMove] *)
Definition jsNormAiMove (raw : JsVal) : Res NormAiMoveResult.t :=
  rmetrics <- Js.get raw "aiMetrics" ;;
  let metrics := Js.coalesce rmetrics (VObj []) in
  lastMove <- Js.get raw "lastMove" ;;
  nmove <- (if Js.truthy lastMove then jsNormMove lastMove else Ok emptyMove) ;;
  ngame <- jsNormGame raw ;;
  Ok {| NormAiMoveResult.move := nmove;
        NormAiMoveResult.game := ngame;
        NormAiMoveResult.evaluation := Js.optGet metrics "evaluation";
        NormAiMoveResult.thinkingTimeMs := Js.optGet metrics "thinkingTime";
        NormAiMoveResult.depth := Js.optGet metrics "depth" |}.

(** [rustNormAnalysis] *)
Definition rustNormAnalysis (raw : JsVal) : Res NormAnalysis.t :=
  revaluation <- Js.get raw "evaluation" ;;
  rbest <- Js.get raw "bestMove" ;;
  nbest <- (if Js.truthy rbest
            then m <- rustNormMove rbest ;; Ok (Some m)
            else Ok None) ;;
  rdepth <- Js.get raw "depth" ;;
  Ok {| NormAnalysis.evaluation := Js.coalesce revaluation (VNum 0);
        NormAnalysis.bestMove := nbest;
        NormAnalysis.depth := rdepth |}.

(** [goNormAnalysis] *)
Definition goNormAnalysis (raw : JsVal) : Res NormAnalysis.t :=
  revaluation <- Js.get raw "evaluation" ;;
  rcp <- Js.get raw "evaluation_cp" ;;
  rbest <- Js.get raw "best_move" ;;
  nbest <- (if Js.truthy rbest
            then m <- goNormMove rbest ;; Ok (Some m)
            else Ok None) ;;
  rdepth <- Js.get raw "depth" ;;
  Ok {| NormAnalysis.evaluation :=
          Js.coalesce (Js.coalesce revaluation rcp) (VNum 0);
        NormAnalysis.bestMove := nbest;
        NormAnalysis.depth := rdepth |}.

(** [jsNormAnalysis] *)
Definition jsNormAnalysis (raw : JsVal) : Res NormAnalysis.t :=
  revaluation <- Js.get raw "evaluation" ;;
  rbest <- Js.get raw "bestMove" ;;
  nbest <- (if Js.truthy rbest
            then m <- jsNormMove rbest ;; Ok (Some m)
            else Ok None) ;;
  rdepth <- Js.get raw "depth" ;;
  Ok {| NormAnalysis.evaluation := Js.coalesce revaluation (VNum 0);
        NormAnalysis.bestMove := nbest;
        NormAnalysis.depth := rdepth |}.

(** [m] carries the printed [from] and [to] of the raw entry [item]. *)
Definition legalEntry (item : JsVal) (m : NormLegalMove.t) : Prop :=
  Js.String_ (Js.optGet item "from") = Ok (NormLegalMove.from m) /\
  Js.String_ (Js.optGet item "to") = Ok (NormLegalMove.to m).

(** The members of [ADAPTERS[id]] that [Adapters.BackendAdapter] leaves
    out; there is no entry for ['local']. *)
Definition normLegalMoves (id : BackendId)
    : option (JsVal -> Res (list NormLegalMove.t)) :=
  match id with
  | local => None
  | rust => Some rustNormLegalMoves
  | go => Some goNormLegalMoves
  | js => Some jsNormLegalMoves
  end.

Definition normAiMove (id : BackendId) : option (JsVal -> Res NormAiMoveResult.t) :=
  match id with
  | local => None
  | rust => Some rustNormAiMove
  | go => Some goNormAiMove
  | js => Some jsNormAiMove
  end.

Definition normAnalysis (id : BackendId) : option (JsVal -> Res NormAnalysis.t) :=
  match id with
  | local => None
  | rust => Some rustNormAnalysis
  | go => Some goNormAnalysis
  | js => Some jsNormAnalysis
  end.

End WithNumberFormat.

(** The canonical statuses of a finished game. *)
Definition terminalStatus (v : StatusValue) : bool :=
  match v with
  | Canonical GameStatusNorm.checkmate
  | Canonical GameStatusNorm.stalemate
  | Canonical GameStatusNorm.draw
  | Canonical GameStatusNorm.insufficient_material
  | Canonical GameStatusNorm.threefold_repetition
  | Canonical GameStatusNorm.fifty_move_rule => true
  | _ => false
  end.

(** The member of the response that holds the move history. *)
Definition historyField (id : BackendId) : string :=
  match id with
  | go => "move_history"
  | _ => "moveHistory"
  end.

(** The member that holds the legal moves. *)
Definition legalMovesField (id : BackendId) : string :=
  match id with
  | go => "legal_moves"
  | _ => "moves"
  end.

(** The member that holds the move of an AI answer. *)
Definition aiMoveField (id : BackendId) : string :=
  match id with
  | js => "lastMove"
  | _ => "move"
  end.

(** The four result strings. *)
Definition resultStrings : list string := [ "1-0"; "0-1"; "1/2-1/2"; "*" ].

End AdaptersMore.

(** ** Sample responses *)

(** A rust-chess game after 1. e4, with a one-row board. *)
Definition rustAfterE4 : JsVal :=
  VObj [ ("id", VStr "550e8400"); ("fen", VStr "fen-after-e4");
         ("currentPlayer", VStr "black"); ("status", VStr "active");
         ("check", VBool false);
         ("moveHistory",
          VArr [ VObj [ ("from", VStr "e2"); ("to", VStr "e4");
                        ("san", VStr "e4");
                        ("piece", VObj [ ("type", VStr "pawn");
                                         ("color", VStr "white") ]) ] ]);
         ("board", VArr [ VArr [ VStr "K"; VNull; VStr "k" ] ]) ].

(** A go-chess game that ended in stalemate. *)
Definition goStalemate : JsVal :=
  VObj [ ("id", VNum 7); ("fen", VStr "stale-fen");
         ("active_color", VStr "black"); ("status", VStr "stalemate");
         ("move_history", VArr []) ].

(** A go-chess game won by White. *)
Definition goWhiteWins : JsVal :=
  VObj [ ("id", VNum 1); ("fen", VStr "mate-fen");
         ("active_color", VStr "black"); ("status", VStr "white_wins");
         ("move_history", VArr []) ].

(** A js-chess answer to an AI move request. *)
Definition jsAiAnswer : JsVal :=
  VObj [ ("id", VStr "uuid-1"); ("fen", VStr "after-fen");
         ("turn", VStr "white"); ("gameOver", VBool false);
         ("checkmate", VBool false); ("stalemate", VBool false);
         ("check", VBool false); ("moveHistory", VArr []);
         ("aiMetrics", VObj [ ("evaluation", VNum (1 # 5));
                              ("thinkingTime", VNum 15); ("depth", VNum 3) ]) ].

(** Legal moves of rust-chess, the second entry without [from]. *)
Definition rustTwoMoves : JsVal :=
  VObj [ ("moves",
          VArr [ VObj [ ("from", VStr "e2"); ("to", VStr "e4"); ("san", VStr "e4") ];
                 VObj [ ("to", VStr "e3") ] ]) ].

(** An analysis of go-chess that only carries [evaluation_cp]. *)
Definition goAnalysisCp : JsVal :=
  VObj [ ("evaluation_cp", VNum 150); ("depth", VNum 3) ].

(* ===================================================================== *)
(** * Further definitions: the other methods of RemoteProvider *)
(* ===================================================================== *)

(** [JSON.stringify], left open like [Number.prototype.toString]: the
    properties below are about the value that is serialised. *)
Class JsonStringify : Type := JSON_stringify : JsVal -> string.

(** [CreateGameOptions]; [None] is a member that is not given. *)
Record CreateGameOptions : Type := mkCreateGameOptions {
  opt_whitePlayer : option string;
  opt_blackPlayer : option string;
  opt_fen : option string;
  opt_aiEnabled : option bool;
  opt_aiDifficulty : option string;
  opt_aiColor : option PlayerColor
}.

Module RemoteMore.

Import Http RemoteProvider.

(** Truthiness of an optional string argument. *)
Definition given (o : option string) : bool :=
  match o with
  | Some s => negb (s =s "")
  | None => false
  end.

(** [body.k = v]: the assignments of [createGame] and [makeMove] set
    distinct keys, so each one appends. *)
Definition setKey (body : list (string * JsVal)) (k : string) (v : JsVal)
    : list (string * JsVal) :=
  body ++ [(k, v)].

Definition colorName (c : PlayerColor) : string :=
  match c with white => "white" | black => "black" end.

(** The [body] object [createGame] builds. *)
Definition createGameBody (id : BackendId) (options : option CreateGameOptions)
    : list (string * JsVal) :=
  match options with
  | None => []
  | Some o =>
      let body := [] in
      let body := if given (opt_whitePlayer o)
                  then setKey body "whitePlayer"
                         (match opt_whitePlayer o with Some s => VStr s | None => VUndefined end)
                  else body in
      let body := if given (opt_blackPlayer o)
                  then setKey body "blackPlayer"
                         (match opt_blackPlayer o with Some s => VStr s | None => VUndefined end)
                  else body in
      let body := if given (opt_fen o)
                  then setKey body "fen"
                         (match opt_fen o with Some s => VStr s | None => VUndefined end)
                  else body in
      let body := match opt_aiEnabled o with
                  | Some b => setKey body "aiEnabled" (VBool b)
                  | None => body
                  end in
      let body := if given (opt_aiDifficulty o)
                  then setKey body "aiDifficulty"
                         (match opt_aiDifficulty o with Some s => VStr s | None => VUndefined end)
                  else body in
      match opt_aiColor o with
      | Some c =>
          if BackendId_eqb id go
          then setKey body "ai_color" (VStr (colorName c))
          else setKey body "aiColor" (VStr (colorName c))
      | None => body
      end
  end.

(** The [body] object [makeMove] builds. *)
Definition makeMoveBody (from to : string) (promotion : option string)
    : list (string * JsVal) :=
  let body := [("from", VStr from); ("to", VStr to)] in
  if given promotion
  then setKey body "promotion"
         (match promotion with Some s => VStr s | None => VUndefined end)
  else body.

Section WithRuntime.

Context {NF : NumberFormat} {JS : JsonStringify}.

(** The shape every method shares:
    [const raw = await request(this.url(path), init); return norm(raw)]. *)
Definition send {A : Type} (p : RemoteProvider) (fetch : Fetch)
    (path : string) (init : RequestInit) (norm : JsVal -> Res A)
    : list Request * Res A :=
  match url_ p path with
  | Throw e => ([], Throw e)
  | Ok u =>
      let '(reqs, r) := request fetch u init in
      (reqs, raw <- r ;; norm raw)
  end.

(** [this.adapter.normGame] and the other normalisers of the provider's
    adapter; a provider built by [constructor] has
    [adapter = ADAPTERS[backendId]]. *)
Definition adapterNormGame (p : RemoteProvider) (raw : JsVal)
    : Res Norm.NormGameState :=
  match adapter p with
  | Some a => Adapters.normGame a raw
  | None => Throw TypeError
  end.

Definition adapterNormLegalMoves (p : RemoteProvider) (raw : JsVal)
    : Res (list NormLegalMove.t) :=
  match AdaptersMore.normLegalMoves (backendId p) with
  | Some f => f raw
  | None => Throw TypeError
  end.

Definition adapterNormAiMove (p : RemoteProvider) (raw : JsVal)
    : Res NormAiMoveResult.t :=
  match AdaptersMore.normAiMove (backendId p) with
  | Some f => f raw
  | None => Throw TypeError
  end.

Definition adapterNormAnalysis (p : RemoteProvider) (raw : JsVal)
    : Res NormAnalysis.t :=
  match AdaptersMore.normAnalysis (backendId p) with
  | Some f => f raw
  | None => Throw TypeError
  end.

Definition noInit : RequestInit :=
  {| init_method := None; init_headers := []; init_body := None |}.

Definition post (body : option (list (string * JsVal))) : RequestInit :=
  {| init_method := Some "POST";
     init_headers := [];
     init_body := match body with
                  | Some b => Some (JSON_stringify (VObj b))
                  | None => None
                  end |}.

(** [RemoteProvider.createGame] *)
Definition createGame (p : RemoteProvider) (fetch : Fetch)
    (options : option CreateGameOptions) : list Request * Res Norm.NormGameState :=
  send p fetch "/games"
    (post (Some (createGameBody (backendId p) options)))
    (adapterNormGame p).

(** [RemoteProvider.getGame] *)
Definition getGame (p : RemoteProvider) (fetch : Fetch) (gameId : string)
    : list Request * Res Norm.NormGameState :=
  send p fetch ("/games/" ++ gameId)%string noInit (adapterNormGame p).

(** [RemoteProvider.deleteGame] *)
Definition deleteGame (p : RemoteProvider) (fetch : Fetch) (gameId : string)
    : list Request * Res unit :=
  send p fetch ("/games/" ++ gameId)%string
    {| init_method := Some "DELETE"; init_headers := []; init_body := None |}
    (fun _ => Ok tt).

(** [RemoteProvider.makeMove] *)
Definition makeMove (p : RemoteProvider) (fetch : Fetch)
    (gameId from to : string) (promotion : option string)
    : list Request * Res Norm.NormGameState :=
  send p fetch ("/games/" ++ gameId ++ "/moves")%string
    (post (Some (makeMoveBody from to promotion)))
    (adapterNormGame p).

(** [RemoteProvider.getLegalMoves] *)
Definition getLegalMoves (p : RemoteProvider) (fetch : Fetch)
    (gameId : string) (fromSquare : option string)
    : list Request * Res (list NormLegalMove.t) :=
  let qs := if given fromSquare
            then ("?from=" ++ match fromSquare with Some s => s | None => "" end)%string
            else "" in
  send p fetch ("/games/" ++ gameId ++ "/legal-moves" ++ qs)%string noInit
    (adapterNormLegalMoves p).

(** The body of [aiMove] and [aiHint]:
    [{ [this.adapter.aiDifficultyField]: difficulty }] *)
Definition difficultyBody (p : RemoteProvider) (difficulty : string)
    : option (list (string * JsVal)) :=
  match adapter p with
  | Some a => Some [(Adapters.aiDifficultyField a, VStr difficulty)]
  | None => None
  end.

(** [RemoteProvider.aiMove]; [difficulty] defaults to 'medium'. *)
Definition aiMove (p : RemoteProvider) (fetch : Fetch)
    (gameId : string) (difficulty : option string)
    : list Request * Res NormAiMoveResult.t :=
  let d := match difficulty with Some d => d | None => "medium" end in
  match difficultyBody p d with
  | None => ([], Throw TypeError)
  | Some body =>
      send p fetch ("/games/" ++ gameId ++ "/ai-move")%string
        (post (Some body)) (adapterNormAiMove p)
  end.

(** [RemoteProvider.aiHint]; [difficulty] defaults to 'easy'. *)
Definition aiHint (p : RemoteProvider) (fetch : Fetch)
    (gameId : string) (difficulty : option string)
    : list Request * Res Norm.NormMove :=
  let d := match difficulty with Some d => d | None => "easy" end in
  match difficultyBody p d with
  | None => ([], Throw TypeError)
  | Some body =>
      send p fetch ("/games/" ++ gameId ++ "/ai-hint")%string
        (post (Some body))
        (fun raw => r <- adapterNormAiMove p raw ;; Ok (NormAiMoveResult.move r))
  end.

(** [RemoteProvider.loadFen] *)
Definition loadFen (p : RemoteProvider) (fetch : Fetch) (gameId fen : string)
    : list Request * Res Norm.NormGameState :=
  send p fetch ("/games/" ++ gameId ++ "/fen")%string
    (post (Some [("fen", VStr fen)]))
    (adapterNormGame p).

(** [RemoteProvider.getPgn]: whatever [request] returns. *)
Definition getPgn (p : RemoteProvider) (fetch : Fetch) (gameId : string)
    : list Request * Res JsVal :=
  send p fetch ("/games/" ++ gameId ++ "/pgn")%string noInit (fun raw => Ok raw).

(** [RemoteProvider.getAnalysis]; [depth] is a number or not given. *)
Definition getAnalysis (p : RemoteProvider) (fetch : Fetch)
    (gameId : string) (depth : option Q)
    : list Request * Res NormAnalysis.t :=
  let qs := match depth with
            | Some d => if Js.truthy (VNum d)
                        then ("?depth=" ++ Number_toString d)%string
                        else ""
            | None => ""
            end in
  send p fetch ("/games/" ++ gameId ++ "/analysis" ++ qs)%string noInit
    (adapterNormAnalysis p).

End WithRuntime.

(** The request a method sends to [path] of the backend at [base]. *)
Definition apiRequest (base prefix path : string) (method : option string)
    (body : option string) : Request :=
  {| url := (stripTrailingSlashes base ++ prefix ++ path)%string;
     method := method;
     headers := [("Content-Type", "application/json")];
     body := body;
     signalTimeout := None |}.

(** A string of [k] slashes. *)
Fixpoint slashes (k : nat) : string :=
  match k with
  | O => EmptyString
  | S k' => String "/"%char (slashes k')
  end.

(** [s.endsWith('/')] *)
Fixpoint endsWithSlash (s : string) : bool :=
  match s with
  | EmptyString => false
  | String c EmptyString => Ascii.eqb c "/"%char
  | String _ s' => endsWithSlash s'
  end.

End RemoteMore.

(** A serialiser for closed examples: the keys of an object, joined by
    commas. *)
Definition keyList : JsonStringify :=
  fun v =>
    match v with
    | VObj props => String.concat "," (map fst props)
    | _ => ""
    end.

(** A network that is down. *)
Definition unreachable : Http.Fetch :=
  fun _ => Http.Rejects (Some "Failed to fetch").

(** A rust-chess provider as the context builds it. *)
Definition rustAtPreset : RemoteProvider.RemoteProvider :=
  {| RemoteProvider.backendId := rust;
     RemoteProvider.capabilities :=
       {| cap_undo := true; cap_ai := true; cap_hint := true;
          cap_analysis := true; cap_chat := true;
          cap_websocket := true; cap_pgn := true;
          cap_fenLoad := true |};
     RemoteProvider.baseUrl := "http://localhost:8082";
     RemoteProvider.adapter := Adapters.ADAPTERS (NF := integerFormat) rust |}.

(* ===================================================================== *)
(** * Further definitions: the backend context *)
(* ===================================================================== *)

Module BackendMore.

Import Http BackendContext.

(** [setBackendUrl]: the override object is replaced, with [url] under
    [id], whatever [id] and [url] are. *)
Definition setBackendUrl (s : State) (id : BackendId) (url : string) : State :=
  {| backendId := backendId s;
     urlOverrides := fun i => if BackendId_eqb i id then Some url else urlOverrides s i;
     connected := connected s;
     connectionError := connectionError s;
     checking := checking s |}.

Section WithNumberFormat.

Context {NF : NumberFormat}.

(** [setBackendUrl] followed by the render it causes: the override
    object is a new one, so the [backends] memo, the [checkConnection]
    callback and with it the effect are renewed. *)
Definition setUrlAndCheck (s : State) (id : BackendId) (url : string)
    (fetch : Fetch) : list Request * State :=
  checkConnection (setBackendUrl s id url) fetch.

End WithNumberFormat.

End BackendMore.

(** ** The health check in its two phases *)

Module BackendAsync.

Import Http BackendContext.

(** [checkConnection] up to its [await]: for local and js it has
    finished; otherwise [checking] is set and the request is under
    way. *)
Definition checkStart (s : State) : option Request * State :=
  let id := backendId s in
  if BackendId_eqb id local || BackendId_eqb id js then
    (None, {| backendId := id; urlOverrides := urlOverrides s;
              connected := Some true; connectionError := None;
              checking := checking s |})
  else
    let u :=
      match backends_url s id with
      | Some u => u
      | None =>
          match BACKEND_PRESETS_url id with
          | Some u => u
          | None => ""
          end
      end in
    (Some {| url := (u ++ "/health")%string;
             method := None; headers := []; body := None;
             signalTimeout := Some 5000 |},
     {| backendId := id; urlOverrides := urlOverrides s;
        connected := connected s; connectionError := connectionError s;
        checking := true |}).

Section WithNumberFormat.

Context {NF : NumberFormat}.

(** [checkConnection] from its [await] on, in the state [s] the context
    is in when the request settles: the setters write [connected],
    [connectionError] and [checking], whatever [s] is. *)
Definition checkSettle (r : FetchResult) (s : State) : State :=
  match r with
  | Resolves res =>
      if ok res then
        {| backendId := backendId s; urlOverrides := urlOverrides s;
           connected := Some true; connectionError := None;
           checking := false |}
      else
        {| backendId := backendId s; urlOverrides := urlOverrides s;
           connected := Some false;
           connectionError :=
             Some ("Health check returned "
                     ++ Number_toString (inject_Z (status res)))%string;
           checking := false |}
  | Rejects m =>
      {| backendId := backendId s; urlOverrides := urlOverrides s;
         connected := Some false;
         connectionError :=
           Some (match m with
                 | Some msg => msg
                 | None => "Cannot reach backend"
                 end);
         checking := false |}
  end.

End WithNumberFormat.

End BackendAsync.

(* ===================================================================== *)
(** * providers/LocalProvider.ts *)
(* ===================================================================== *)

(** The members of the wrapped [Game] that only the local provider
    reads.  A move object is identified with its record, so its [san]
    member is a function of the record. *)
Record EngineExtras (E : Engine) : Type := mkExtras {
  (** [new Game(arg)], with [None] for [undefined]; it may throw *)
  newGame : option string -> Res (St E);
  (** [engine.loadFEN(fen)]: what it threw, and the state it leaves *)
  loadFEN : St E -> string -> option Exn * St E;
  getHistory : St E -> list ChessMove;
  isInCheck : St E -> bool;
  getLegalMovesFrom : St E -> Square -> list ChessMove;
  (** [m.san] *)
  sanOf : ChessMove -> JsVal
}.

Arguments newGame {E}.
Arguments loadFEN {E}.
Arguments getHistory {E}.
Arguments isInCheck {E}.
Arguments getLegalMovesFrom {E}.
Arguments sanOf {E}.

Module Local.

(** [NormGameState] as the local provider fills it: [status] is the
    engine's status string, cast unchecked, and [board] is always
    present. *)
Record GameState : Type := mkGameState {
  id : string;
  fen : string;
  turn : PlayerColor;
  status : string;
  check : bool;
  moveCount : nat;
  moveHistory : list Norm.NormMove;
  board : list (list (option Norm.NormPiece));
  result : string;
  gameOver : bool
}.

(** [NormAiMoveResult] as [aiMove] fills it. *)
Record AiMoveResult : Type := mkAiMoveResult {
  move : Norm.NormMove;
  game : GameState;
  thinkingTimeMs : Z
}.

End Local.

Module LocalProvider.

Import ChessEngine ChessAI.

(** [capabilities] *)
Definition capabilities : ProviderCapabilities :=
  {| cap_undo := true; cap_ai := true; cap_hint := true;
     cap_analysis := false; cap_chat := false; cap_websocket := false;
     cap_pgn := true; cap_fenLoad := true |}.

(** [toNormPiece] *)
Definition toNormPiece (p : ChessPiece) : Norm.NormPiece :=
  {| Norm.type := VStr (type p); Norm.color := color p |}.

(** [Math.round] *)
Definition Math_round (q : Q) : Z := Qfloor (q + (1 # 2)).

(** [ChessAI.depthForLevel] on the string [aiMove] and [aiHint] pass
    with [as AIDifficulty], the [default] arm included. *)
Definition depthForLevelOfName (level : string) : nat :=
  if (level =s "harmless") || (level =s "random") then 0
  else if level =s "easy" then 1
  else if level =s "medium" then 2
  else if level =s "hard" then 3
  else if level =s "expert" then 4
  else if level =s "godlike" then 5
  else 0.

(** The level a difficulty string stands for.  [computeBestMove] reads
    its level through [depthForLevel] only, where any other string
    takes the [default] arm, with the depth of ['harmless']. *)
Definition levelOfName (level : string) : AIDifficulty :=
  if level =s "harmless" then harmless
  else if level =s "random" then random
  else if level =s "easy" then easy
  else if level =s "medium" then medium
  else if level =s "hard" then hard
  else if level =s "expert" then expert
  else if level =s "godlike" then godlike
  else harmless.

(** ** The [Map] of games *)

Section Map.

Context {V : Type}.

(** [map.set(k, v)]: an existing key keeps its place. *)
Fixpoint Map_set (k : string) (v : V) (m : list (string * V)) : list (string * V) :=
  match m with
  | [] => [(k, v)]
  | (k', v') :: rest =>
      if k =s k' then (k, v) :: rest else (k', v') :: Map_set k v rest
  end.

(** [map.delete(k)] *)
Definition Map_delete (k : string) (m : list (string * V)) : list (string * V) :=
  filter (fun kv => negb (k =s fst kv)) m.

(** [map.get(k)] *)
Definition Map_get (k : string) (m : list (string * V)) : option V :=
  Js.own k m.

End Map.

Section WithEngine.

Context {E : Engine} (X : EngineExtras E) {NF : NumberFormat}.

(** [toNormMove] *)
Definition toNormMove (m : ChessMove) : Norm.NormMove :=
  {| Norm.from := from m;
     Norm.to := to m;
     Norm.san := sanOf X m;
     Norm.piece := Some (toNormPiece (piece m));
     Norm.captured := option_map toNormPiece (captured m);
     Norm.promotion := match promotion m with
                       | Some p => VStr p
                       | None => VUndefined
                       end |}.

(** [gameToNorm] *)
Definition gameToNorm (id : string) (engine : St E) : Local.GameState :=
  let status := getStatus engine in
  let history := getHistory X engine in
  let board := getBoard engine in
  {| Local.id := id;
     Local.fen := getFEN engine;
     Local.turn := getTurn engine;
     Local.status := status;
     Local.check := isInCheck X engine;
     Local.moveCount := List.length history;
     Local.moveHistory := map toNormMove history;
     Local.board := map (map (option_map toNormPiece)) board;
     Local.result := getResult engine;
     Local.gameOver := isGameOver engine |}.

(** The module counter [nextLocalId], the [ChessEngine] objects created
    so far and the [games] map of the provider.  An engine object is
    known by its address, its place in [engines].  An entry of the map
    holds the address of its engine ([engine] and [aiEngine] of an entry
    are the same object), so one engine can be registered under several
    ids; a method that mutates an engine leaves the new engine state at
    its address. *)
Definition Ref : Type := nat.

Record Store : Type := mkStore {
  nextLocalId : Z;
  engines : list (St E);
  games : list (string * Ref)
}.

(** The engine registered under [gameId], in its current state.  The
    map only ever holds addresses of created engines ([allocated] is
    kept by every method), so a lookup that finds an entry finds its
    engine. *)
Definition engineOf (st : Store) (gameId : string) : option (St E) :=
  match Map_get gameId (games st) with
  | Some r => nth_error (engines st) r
  | None => None
  end.

(** The engine at address [r] left in state [s]. *)
Fixpoint assign (r : Ref) (s : St E) (l : list (St E)) : list (St E) :=
  match l, r with
  | [], _ => []
  | _ :: l', O => s :: l'
  | x :: l', S r' => x :: assign r' s l'
  end.

(** The store after the engine of [gameId] was mutated to [s]. *)
Definition mutated (st : Store) (gameId : string) (s : St E) : Store :=
  match Map_get gameId (games st) with
  | Some r =>
      {| nextLocalId := nextLocalId st;
         engines := assign r s (engines st);
         games := games st |}
  | None => st
  end.

(** Every address held by the map is the address of a created engine. *)
Definition allocated (st : Store) : Prop :=
  forall gameId r,
    Map_get gameId (games st) = Some r -> (r < List.length (engines st))%nat.

(** [this.getEngine(gameId)] *)
Definition getEngine (st : Store) (gameId : string) : Res (St E) :=
  match engineOf st gameId with
  | Some s => Ok s
  | None => Throw (Error ("Game not found: " ++ gameId)%string)
  end.

(** [new ChessEngine(fen)] *)
Definition ChessEngine_new (fen : option string) : Res (St E) :=
  newGame X (if RemoteMore.given fen then fen else None).

(** [new ChessEngine(fen)] evaluated outside the provider, as the game
    hook does before [registerEngine]: the address of the new object. *)
Definition newEngine (st : Store) (fen : option string) : Res Ref * Store :=
  match ChessEngine_new fen with
  | Throw e => (Throw e, st)
  | Ok engine =>
      (Ok (List.length (engines st)),
       {| nextLocalId := nextLocalId st;
          engines := engines st ++ [engine];
          games := games st |})
  end.

(** [createGame]: the new engine is a new object. *)
Definition createGame (st : Store) (options : option CreateGameOptions)
    : Res Local.GameState * Store :=
  let id := ("local-" ++ Number_toString (inject_Z (nextLocalId st)))%string in
  let next := nextLocalId st + 1 in
  match ChessEngine_new (match options with
                         | Some o => opt_fen o
                         | None => None
                         end) with
  | Throw e =>
      (Throw e, {| nextLocalId := next; engines := engines st; games := games st |})
  | Ok engine =>
      (Ok (gameToNorm id engine),
       {| nextLocalId := next;
          engines := engines st ++ [engine];
          games := Map_set id (List.length (engines st)) (games st) |})
  end.

(** [getGame] *)
Definition getGame (st : Store) (gameId : string) : Res Local.GameState * Store :=
  (engine <- getEngine st gameId ;; Ok (gameToNorm gameId engine), st).

(** [deleteGame] *)
Definition deleteGame (st : Store) (gameId : string) : Res unit * Store :=
  (Ok tt, {| nextLocalId := nextLocalId st;
             engines := engines st;
             games := Map_delete gameId (games st) |}).

(** [aiMove]; [difficulty] defaults to 'medium', [rnd] is the value of
    [Math.random()] should the search draw one, [elapsed] the
    difference of the two clock readings. *)
Definition aiMove (st : Store) (gameId : string) (difficulty : option string)
    (rnd elapsed : Q) : Res Local.AiMoveResult * Store :=
  let d := match difficulty with Some d => d | None => "medium" end in
  match getEngine st gameId with
  | Throw e => (Throw e, st)
  | Ok engine =>
      match computeBestMove engine (levelOfName d) rnd with
      | (None, engine1) =>
          (Throw (Error "AI could not find a move"), mutated st gameId engine1)
      | (Some move, engine1) =>
          match makeMove engine1 (from move) (to move) (promotion move) with
          | (None, engine2) =>
              (Throw (Error "AI move was illegal"), mutated st gameId engine2)
          | (Some applied, engine2) =>
              (Ok {| Local.move := toNormMove applied;
                     Local.game := gameToNorm gameId engine2;
                     Local.thinkingTimeMs := Math_round elapsed |},
               mutated st gameId engine2)
          end
      end
  end.

(** [aiHint]; [difficulty] defaults to 'easy'. *)
Definition aiHint (st : Store) (gameId : string) (difficulty : option string)
    (rnd : Q) : Res Norm.NormMove * Store :=
  let d := match difficulty with Some d => d | None => "easy" end in
  match getEngine st gameId with
  | Throw e => (Throw e, st)
  | Ok engine =>
      match computeBestMove engine (levelOfName d) rnd with
      | (None, engine1) =>
          (Throw (Error "No hint available"), mutated st gameId engine1)
      | (Some move, engine1) =>
          (Ok {| Norm.from := from move;
                 Norm.to := to move;
                 Norm.san := sanOf X move;
                 Norm.piece := None;
                 Norm.captured := None;
                 Norm.promotion := VUndefined |},
           mutated st gameId engine1)
      end
  end.

(** [makeMove] *)
Definition makeMove (st : Store) (gameId from to : string)
    (promotion : option string) : Res Local.GameState * Store :=
  match getEngine st gameId with
  | Throw e => (Throw e, st)
  | Ok engine =>
      match makeMove engine from to promotion with
      | (None, engine') =>
          (Throw (Error ("Illegal move: " ++ from ++ "-" ++ to)%string),
           mutated st gameId engine')
      | (Some _, engine') =>
          (Ok (gameToNorm gameId engine'), mutated st gameId engine')
      end
  end.

(** [undoMove] *)
Definition undoMove (st : Store) (gameId : string) : Res Local.GameState * Store :=
  match getEngine st gameId with
  | Throw e => (Throw e, st)
  | Ok engine =>
      match undo engine with
      | (None, engine') =>
          (Throw (Error "Nothing to undo"), mutated st gameId engine')
      | (Some _, engine') =>
          (Ok (gameToNorm gameId engine'), mutated st gameId engine')
      end
  end.

(** [getLegalMoves] *)
Definition getLegalMoves (st : Store) (gameId : string)
    (fromSquare : option string) : Res (list NormLegalMove.t) * Store :=
  match getEngine st gameId with
  | Throw e => (Throw e, st)
  | Ok engine =>
      let moves :=
        if RemoteMore.given fromSquare
        then getLegalMovesFrom X engine
               match fromSquare with Some s => s | None => "" end
        else getLegalMoves engine in
      (Ok (map (fun m =>
                  {| NormLegalMove.from := from m;
                     NormLegalMove.to := to m;
                     NormLegalMove.san := sanOf X m;
                     NormLegalMove.promotion :=
                       match promotion m with
                       | Some p => VStr p
                       | None => VUndefined
                       end |}) moves), st)
  end.

(** [loadFen] *)
Definition loadFen (st : Store) (gameId fen : string)
    : Res Local.GameState * Store :=
  match getEngine st gameId with
  | Throw e => (Throw e, st)
  | Ok engine =>
      match loadFEN X engine fen with
      | (Some e, engine') => (Throw e, mutated st gameId engine')
      | (None, engine') =>
          (Ok (gameToNorm gameId engine'), mutated st gameId engine')
      end
  end.

(** [getPgn] *)
Definition getPgn (st : Store) (gameId : string) : Res string * Store :=
  (Ok "", st).

(** [getAnalysis] *)
Definition getAnalysis (st : Store) (gameId : string) (depth : option Q)
    : Res NormAnalysis.t * Store :=
  (Throw (Error "Analysis not supported in local mode"), st).

(** [dispose] *)
Definition dispose (st : Store) : Store :=
  {| nextLocalId := nextLocalId st; engines := engines st; games := [] |}.

(** [getEngineDirect]: the engine object itself, by its address. *)
Definition getEngineDirect (st : Store) (gameId : string) : Res Ref :=
  match Map_get gameId (games st) with
  | Some r => Ok r
  | None => Throw (Error ("Game not found: " ++ gameId)%string)
  end.

(** [registerEngine]: [engine] is the address of an engine object that
    exists already, under another id of the map or outside it (made by
    [newEngine]). *)
Definition registerEngine (st : Store) (gameId : string) (engine : Ref) : Store :=
  {| nextLocalId := nextLocalId st;
     engines := engines st;
     games := Map_set gameId engine (games st) |}.

End WithEngine.

End LocalProvider.

(** The toy engine's remaining members: the history is the stack of
    moves, oldest first. *)
Definition toyExtras : EngineExtras Toy.engine :=
  {| newGame := fun _ => Ok ([] : St Toy.engine);
     loadFEN := fun s _ => (None, ([] : St Toy.engine));
     getHistory := fun s => rev (s : list ChessMove);
     isInCheck := fun _ => false;
     getLegalMovesFrom := fun s sq =>
       filter (fun m => from m =s sq) (getLegalMoves (s : St Toy.engine));
     sanOf := fun m => VStr (to m) |}.

(** A provider holding one fresh toy game. *)
Definition oneToyGame : LocalProvider.Store (E := Toy.engine) :=
  {| LocalProvider.nextLocalId := 2;
     LocalProvider.engines := [([] : St Toy.engine)];
     LocalProvider.games := [("local-1", 0%nat)] |}.

(** The same provider after the engine of its game was registered under
    a second id. *)
Definition sharedToyGame : LocalProvider.Store (E := Toy.engine) :=
  LocalProvider.registerEngine oneToyGame "mirror" 0%nat.

(* ===================================================================== *)
(** * Auxiliary definitions: which responses are normalised *)
(* ===================================================================== *)

(** [String(v)] returns: no object with a member named [toString] has
    to be printed. *)
Fixpoint printable (v : JsVal) : bool :=
  match v with
  | VArr elems =>
      (fix all (l : list JsVal) : bool :=
         match l with
         | [] => true
         | x :: l' => printable x && all l'
         end) elems
  | VObj props =>
      match Js.assoc "toString" props with
      | Some _ => false
      | None => true
      end
  | _ => true
  end.

(** The computation returns. *)
Definition returns {A : Type} (c : Res A) : bool :=
  match c with Ok _ => true | Throw _ => false end.

(** A history entry the move normalisers accept: not [null] or
    [undefined], with [from] and [to] that print. *)
Definition moveOk (m : JsVal) : bool :=
  negb (Js.nullish m)
  && printable (Js.coalesce (Js.optGet m "from") (VStr ""))
  && printable (Js.coalesce (Js.optGet m "to") (VStr "")).

(** A history member that is missing, [null], or an array of such
    entries. *)
Definition historyOk (h : JsVal) : bool :=
  match h with
  | VUndefined | VNull => true
  | VArr moves => forallb moveOk moves
  | _ => false
  end.

(** A board member that is no array, or an array of arrays. *)
Definition boardOk (b : JsVal) : bool :=
  match b with
  | VArr rows =>
      forallb (fun row => match row with VArr _ => true | _ => false end) rows
  | _ => true
  end.

(** The responses [normGame] of backend [id] accepts.  The colour
    member is not among the members looked at. *)
Definition wellFormedGame (id : BackendId) (raw : JsVal) : bool :=
  negb (Js.nullish raw)
  && printable (Js.optGet raw "id")
  && printable (Js.coalesce (Js.optGet raw "fen") (VStr ""))
  && historyOk (Js.optGet raw (AdaptersMore.historyField id))
  && match id with
     | rust => printable (Js.optGet raw "status") && boardOk (Js.optGet raw "board")
     | go => printable (Js.optGet raw "status")
     | _ => true
     end.


(** A response whose history is a string. *)
Definition historyAsText (id : BackendId) : JsVal :=
  VObj [ ("id", VStr "g1"); ("fen", VStr "f"); (turnField id, VStr "black");
         ("status", VStr "active");
         (AdaptersMore.historyField id, VStr "e2e4") ].


(** ** The error body of [request], by the kind of its [error] member *)

(** The code: the [code] member of an [error] object, nothing for an
    [error] that is [null] or an array, "UNKNOWN" without an [error]
    member, and any other [error] itself. *)
Definition errorCodeOf (body : JsVal) : JsVal :=
  match Js.optGet body "error" with
  | VObj err => Js.optGet (VObj err) "code"
  | VNull | VArr _ => VUndefined
  | VUndefined => VStr "UNKNOWN"
  | e => e
  end.

(** The message: the [message] member of an [error] object, nothing for
    an [error] that is [null] or an array, and otherwise the [message]
    member of the body, or the status text when that is missing or
    [null]. *)
Definition errorMessageOf (body : JsVal) (statusText : string) : JsVal :=
  match Js.optGet body "error" with
  | VObj err => Js.optGet (VObj err) "message"
  | VNull | VArr _ => VUndefined
  | _ =>
      match Js.optGet body "message" with
      | VUndefined | VNull => VStr statusText
      | m => m
      end
  end.

(** An error answer whose code is an object with a [toString] member. *)
Definition unprintableCode : Http.Response :=
  {| Http.status := 500;
     Http.statusText := "Internal Server Error";
     Http.contentType := Some "application/json";
     Http.text := "";
     Http.json :=
       Ok (VObj [ ("error", VObj [ ("code", VObj [ ("toString", VNum 1) ]);
                                   ("message", VStr "boom") ]) ]) |}.


(* ===================================================================== *)
(** * Properties of the search *)
(* ===================================================================== *)

Module SearchFacts.

Import ChessEngine ChessAI.

(** ** The search restores the engine *)

Section Restores.

Variable E : Engine.

(** Make/undo symmetry of the rules engine: [undo] reverses the most
    recent applied [makeMove]. *)
Hypothesis makeMove_undo :
  forall (s s' : St E) f t p m,
    makeMove s f t p = (Some m, s') -> snd (undo s') = s.

(** A rejected [makeMove] leaves the engine as it was. *)
Hypothesis makeMove_null :
  forall (s s' : St E) f t p,
    makeMove s f t p = (None, s') -> s' = s.

Lemma maxLoop_restores (child : St E -> Num -> Num -> Num * St E) :
  restoring child ->
  forall moves s value alpha beta,
    snd (maxLoop child moves s value alpha beta) = s.
Proof.
  intros Hc moves.
  induction moves as [|move rest IH]; intros s value alpha beta; simpl.
  - reflexivity.
  - destruct (makeMove s (from move) (to move) (promotion move))
      as [[m|] s1] eqn:Hmk.
    + pose proof (Hc s1 alpha beta) as Hchild.
      destruct (child s1 alpha beta) as [childValue s2].
      simpl in Hchild. subst s2.
      rewrite (makeMove_undo _ _ _ _ _ _ Hmk).
      destruct (Num.ge _ beta); [reflexivity | apply IH].
    + rewrite (makeMove_null _ _ _ _ _ Hmk). apply IH.
Qed.

Lemma minLoop_restores (child : St E -> Num -> Num -> Num * St E) :
  restoring child ->
  forall moves s value alpha beta,
    snd (minLoop child moves s value alpha beta) = s.
Proof.
  intros Hc moves.
  induction moves as [|move rest IH]; intros s value alpha beta; simpl.
  - reflexivity.
  - destruct (makeMove s (from move) (to move) (promotion move))
      as [[m|] s1] eqn:Hmk.
    + pose proof (Hc s1 alpha beta) as Hchild.
      destruct (child s1 alpha beta) as [childValue s2].
      simpl in Hchild. subst s2.
      rewrite (makeMove_undo _ _ _ _ _ _ Hmk).
      destruct (Num.ge alpha _); [reflexivity | apply IH].
    + rewrite (makeMove_null _ _ _ _ _ Hmk). apply IH.
Qed.

Lemma minimax_restores :
  forall depth (s : St E) alpha beta maximizingColor,
    snd (minimax depth s alpha beta maximizingColor) = s.
Proof.
  induction depth as [|depth' IH]; intros s alpha beta mc; simpl.
  - reflexivity.
  - destruct (isGameOver s); [reflexivity|].
    destruct (List.length (getLegalMoves s) =? 0)%nat; [reflexivity|].
    destruct (Color_eqb (getTurn s) mc).
    + apply maxLoop_restores. intros s' a b. apply IH.
    + apply minLoop_restores. intros s' a b. apply IH.
Qed.

Lemma rootLoop_restores :
  forall depth' mc ordered (s : St E) bestMove bestScore,
    snd (rootLoop depth' mc ordered s bestMove bestScore) = s.
Proof.
  intros depth' mc ordered.
  induction ordered as [|move rest IH]; intros s bestMove bestScore; simpl.
  - reflexivity.
  - destruct (makeMove s (from move) (to move) (promotion move))
      as [[m|] s1] eqn:Hmk.
    + pose proof (minimax_restores depth' s1 NegInfinity Infinity mc) as Hchild.
      destruct (minimax depth' s1 NegInfinity Infinity mc) as [score s2].
      simpl in Hchild. subst s2.
      rewrite (makeMove_undo _ _ _ _ _ _ Hmk).
      destruct (Num.gt score bestScore); apply IH.
    + rewrite (makeMove_null _ _ _ _ _ Hmk). apply IH.
Qed.

Lemma computeBestMove_state :
  forall (s : St E) level rnd, snd (computeBestMove s level rnd) = s.
Proof.
  intros s level rnd. unfold computeBestMove.
  destruct (depthForLevel level =? 0)%nat.
  - destruct (List.length (getLegalMoves s) =? 0)%nat; reflexivity.
  - apply rootLoop_restores.
Qed.

End Restores.

(** ** The calls of the search are well nested *)

Lemma nesting_app :
  forall w1 w2 open,
    nesting (w1 ++ w2) open =
    match nesting w1 open with
    | Some k => nesting w2 k
    | None => None
    end.
Proof.
  induction w1 as [|c w1 IH]; intros w2 open; simpl.
  - reflexivity.
  - destruct c.
    + apply IH.
    + destruct open; [reflexivity | apply IH].
Qed.

Lemma neutral_nil : neutral [].
Proof. intro open. reflexivity. Qed.

Lemma neutral_app w1 w2 : neutral w1 -> neutral w2 -> neutral (w1 ++ w2).
Proof.
  intros H1 H2 open. rewrite nesting_app, H1. apply H2.
Qed.

Lemma neutral_wrap w : neutral w -> neutral (CallMake :: w ++ [CallUndo]).
Proof.
  intros H open. simpl. rewrite nesting_app, H. reflexivity.
Qed.

Section Traced.

Variable E : Engine.

Lemma maxLoop_extends
    (child : St (traced E) -> Num -> Num -> Num * St (traced E)) :
  extending child ->
  forall moves s value alpha beta, exists w,
    neutral w /\
    snd (snd (maxLoop (E := traced E) child moves s value alpha beta))
      = snd s ++ w.
Proof.
  intros Hc moves.
  induction moves as [|move rest IH]; intros s value alpha beta; simpl.
  - exists []. split; [apply neutral_nil | now rewrite app_nil_r].
  - destruct (makeMove (fst s) (from move) (to move) (promotion move))
      as [[m|] s1] eqn:Hmk.
    + destruct (Hc (s1, snd s ++ [CallMake]) alpha beta) as (w & Hw & Hlog).
      destruct (child (s1, snd s ++ [CallMake]) alpha beta)
        as [childValue [s2 log2]].
      simpl in Hlog. subst log2. simpl.
      destruct (Num.ge _ beta).
      * exists (CallMake :: w ++ [CallUndo]).
        split; [now apply neutral_wrap|].
        simpl. now rewrite <- !app_assoc.
      * match goal with
        | |- context [maxLoop child rest ?s3 ?v ?a ?b] =>
            destruct (IH s3 v a b) as (w' & Hw' & Hlog')
        end.
        exists ((CallMake :: w ++ [CallUndo]) ++ w').
        split; [apply neutral_app; [now apply neutral_wrap | exact Hw']|].
        etransitivity; [exact Hlog'|]. simpl. now rewrite <- !app_assoc.
    + destruct (IH (s1, snd s) value alpha beta) as (w' & Hw' & Hlog').
      exists w'. split; [exact Hw' | exact Hlog'].
Qed.

Lemma minLoop_extends
    (child : St (traced E) -> Num -> Num -> Num * St (traced E)) :
  extending child ->
  forall moves s value alpha beta, exists w,
    neutral w /\
    snd (snd (minLoop (E := traced E) child moves s value alpha beta))
      = snd s ++ w.
Proof.
  intros Hc moves.
  induction moves as [|move rest IH]; intros s value alpha beta; simpl.
  - exists []. split; [apply neutral_nil | now rewrite app_nil_r].
  - destruct (makeMove (fst s) (from move) (to move) (promotion move))
      as [[m|] s1] eqn:Hmk.
    + destruct (Hc (s1, snd s ++ [CallMake]) alpha beta) as (w & Hw & Hlog).
      destruct (child (s1, snd s ++ [CallMake]) alpha beta)
        as [childValue [s2 log2]].
      simpl in Hlog. subst log2. simpl.
      destruct (Num.ge alpha _).
      * exists (CallMake :: w ++ [CallUndo]).
        split; [now apply neutral_wrap|].
        simpl. now rewrite <- !app_assoc.
      * match goal with
        | |- context [minLoop child rest ?s3 ?v ?a ?b] =>
            destruct (IH s3 v a b) as (w' & Hw' & Hlog')
        end.
        exists ((CallMake :: w ++ [CallUndo]) ++ w').
        split; [apply neutral_app; [now apply neutral_wrap | exact Hw']|].
        etransitivity; [exact Hlog'|]. simpl. now rewrite <- !app_assoc.
    + destruct (IH (s1, snd s) value alpha beta) as (w' & Hw' & Hlog').
      exists w'. split; [exact Hw' | exact Hlog'].
Qed.

Lemma minimax_extends :
  forall depth s alpha beta mc, exists w,
    neutral w /\
    snd (snd (minimax (E := traced E) depth s alpha beta mc)) = snd s ++ w.
Proof.
  induction depth as [|depth' IH]; intros s alpha beta mc; simpl.
  - exists []. split; [apply neutral_nil | now rewrite app_nil_r].
  - destruct (isGameOver (fst s));
      [exists []; split; [apply neutral_nil | now rewrite app_nil_r]|].
    destruct (List.length (getLegalMoves (fst s)) =? 0)%nat;
      [exists []; split; [apply neutral_nil | now rewrite app_nil_r]|].
    destruct (Color_eqb (getTurn (fst s)) mc).
    + apply maxLoop_extends. intros s' a b. apply IH.
    + apply minLoop_extends. intros s' a b. apply IH.
Qed.

Lemma rootLoop_extends :
  forall depth' mc ordered s bestMove bestScore, exists w,
    neutral w /\
    snd (snd (rootLoop (E := traced E) depth' mc ordered s bestMove bestScore))
      = snd s ++ w.
Proof.
  intros depth' mc ordered.
  induction ordered as [|move rest IH]; intros s bestMove bestScore; simpl.
  - exists []. split; [apply neutral_nil | now rewrite app_nil_r].
  - destruct (makeMove (fst s) (from move) (to move) (promotion move))
      as [[m|] s1] eqn:Hmk.
    + destruct (minimax_extends depth' (s1, snd s ++ [CallMake])
                NegInfinity Infinity mc) as (w & Hw & Hlog).
      destruct (minimax (E := traced E) depth' (s1, snd s ++ [CallMake])
                  NegInfinity Infinity mc) as [score [s2 log2]].
      simpl in Hlog. subst log2. simpl.
      destruct (Num.gt score bestScore).
      * match goal with
        | |- context [rootLoop depth' mc rest ?s3 ?bm ?bs] =>
            destruct (IH s3 bm bs) as (w' & Hw' & Hlog')
        end.
        exists ((CallMake :: w ++ [CallUndo]) ++ w').
        split; [apply neutral_app; [now apply neutral_wrap | exact Hw']|].
        etransitivity; [exact Hlog'|]. simpl. now rewrite <- !app_assoc.
      * match goal with
        | |- context [rootLoop depth' mc rest ?s3 ?bm ?bs] =>
            destruct (IH s3 bm bs) as (w' & Hw' & Hlog')
        end.
        exists ((CallMake :: w ++ [CallUndo]) ++ w').
        split; [apply neutral_app; [now apply neutral_wrap | exact Hw']|].
        etransitivity; [exact Hlog'|]. simpl. now rewrite <- !app_assoc.
    + destruct (IH (s1, snd s) bestMove bestScore) as (w' & Hw' & Hlog').
      exists w'. split; [exact Hw' | exact Hlog'].
Qed.

Lemma computeBestMove_wellNested :
  forall (s : St E) level rnd,
    wellNested
      (snd (snd (computeBestMove (E := traced E) (s, []) level rnd))).
Proof.
  intros s level rnd. unfold wellNested, computeBestMove.
  destruct (depthForLevel level =? 0)%nat.
  - simpl. destruct (List.length (getLegalMoves s) =? 0)%nat; reflexivity.
  - match goal with
    | |- context [rootLoop ?d ?mc ?o ?s0 ?bm ?bs] =>
        destruct (rootLoop_extends d mc o s0 bm bs) as (w & Hw & Hlog)
    end.
    rewrite Hlog. simpl. apply Hw.
Qed.

End Traced.

End SearchFacts.

(** ** The search on the toy engine *)

Example toy_medium_prefers_capture :
  ChessAI.computeBestMove (E := Toy.engine) [] medium (1 # 2)
    = (Some Toy.capture, []).
Proof. reflexivity. Qed.

Example toy_medium_calls :
  snd (snd (ChessAI.computeBestMove (E := traced Toy.engine)
              ([], []) medium (1 # 2)))
    = [ CallMake; CallMake; CallUndo; CallMake; CallUndo; CallUndo;
        CallMake; CallMake; CallUndo; CallMake; CallUndo; CallUndo ].
Proof. reflexivity. Qed.

Example toy_sort_is_stable :
  ChessAI.sortByCapture [Toy.quiet; Toy.capture; Toy.quiet]
    = [Toy.capture; Toy.quiet; Toy.quiet].
Proof. reflexivity. Qed.

Example toy_evaluate_mated :
  ChessAI.evaluate (E := Toy.engine) [Toy.quiet; Toy.quiet; Toy.quiet] white
    = Infinity.
Proof. reflexivity. Qed.

(** ** The toy engine satisfies the engine laws *)

Lemma Toy_makeMove_undo :
  forall (s s' : St Toy.engine) f t p m,
    makeMove s f t p = (Some m, s') -> snd (undo s') = s.
Proof.
  intros s s' f t p m H. simpl in H.
  destruct (find _ (Toy.legal s)) as [m'|]; inversion H; subst.
  reflexivity.
Qed.

Lemma Toy_makeMove_null :
  forall (s s' : St Toy.engine) f t p,
    makeMove s f t p = (None, s') -> s' = s.
Proof.
  intros s s' f t p H. simpl in H.
  destruct (find _ (Toy.legal s)) as [m'|]; inversion H; subst.
  reflexivity.
Qed.

(** ** The search leaves the position as it found it *)

(** C1.  Against an engine whose [undo] reverses the last applied
    [makeMove] and whose rejected [makeMove] changes nothing,
    [computeBestMove] returns with the engine in the state it was called
    in, at every tier and from every position, so the FEN is the one
    from before the call.  Moreover, against any engine at all, the
    applied [makeMove]s and the [undo]s of one call are well nested:
    each applied move is undone, cut-off branches included. *)
Theorem computeBestMove_restores_position :
  forall (E : Engine),
    (forall (s s' : St E) f t p m,
        makeMove s f t p = (Some m, s') -> snd (undo s') = s) ->
    (forall (s s' : St E) f t p,
        makeMove s f t p = (None, s') -> s' = s) ->
    forall (s : St E) (level : AIDifficulty) (rnd : Q),
      snd (ChessAI.computeBestMove s level rnd) = s /\
      getFEN (snd (ChessAI.computeBestMove s level rnd)) = getFEN s /\
      wellNested
        (snd (snd (ChessAI.computeBestMove (E := traced E) (s, []) level rnd))).
Proof.
  intros E Hundo Hnull s level rnd.
  pose proof (SearchFacts.computeBestMove_state E Hundo Hnull s level rnd) as Hs.
  split; [exact Hs|]. split.
  - now rewrite Hs.
  - apply SearchFacts.computeBestMove_wellNested.
Qed.

Lemma computeBestMove_restores_position_witness :
  snd (ChessAI.computeBestMove (E := Toy.engine) [] medium (1 # 2)) = [] /\
  getFEN (snd (ChessAI.computeBestMove (E := Toy.engine) [] medium (1 # 2)))
    = getFEN (e := Toy.engine) [] /\
  wellNested
    (snd (snd (ChessAI.computeBestMove (E := traced Toy.engine)
                 ([], []) medium (1 # 2)))).
Proof.
  exact (computeBestMove_restores_position Toy.engine
           Toy_makeMove_undo Toy_makeMove_null [] medium (1 # 2)).
Defined.

(** ** The effective depth *)

(** C6.  [computeBestMove] searches to the depth the specification
    gives: 3 for [expert] and [godlike] when more than 60 moves are legal
    at the root, the nominal depth of the tier otherwise (0 for
    [harmless] and [random], where a move is drawn at random; then 1, 2,
    3, 4, 5).  The root loop calls [minimax] with one less. *)
Theorem computeBestMove_effective_depth :
  forall (E : Engine) (s : St E) (level : AIDifficulty) (rnd : Q),
    ChessAI.depthForLevel level = spec_nominalDepth level /\
    ((3 < ChessAI.depthForLevel level)%nat <-> level = expert \/ level = godlike) /\
    ChessAI.computeBestMove s level rnd =
      match spec_effectiveDepth level (List.length (getLegalMoves s)) with
      | O =>
          match getLegalMoves s with
          | [] => (None, s)
          | _ :: _ =>
              (ChessAI.arrayGet (getLegalMoves s)
                 (Qfloor (rnd * inject_Z (Z.of_nat (List.length (getLegalMoves s))))),
               s)
          end
      | S d =>
          ChessAI.rootLoop d (getTurn s)
            (ChessAI.sortByCapture (getLegalMoves s)) s None NegInfinity
      end.
Proof.
  intros E s level rnd.
  split; [destruct level; reflexivity|].
  split.
  - destruct level; simpl; split; intro H;
      try lia; try (now left); try (now right);
      destruct H as [H|H]; discriminate H.
  - unfold ChessAI.computeBestMove, spec_effectiveDepth.
    destruct level; simpl;
      try (destruct (getLegalMoves s); reflexivity);
      destruct (60 <? List.length (getLegalMoves s))%nat; reflexivity.
Qed.

(** ** The evaluation *)

Lemma pieceValue_spec p : ChessAI.pieceValue p = spec_materialValue (type p).
Proof.
  unfold ChessAI.pieceValue, spec_materialValue.
  destruct (type p =s "pawn"); [reflexivity|].
  destruct (type p =s "knight"); [reflexivity|].
  destruct (type p =s "bishop"); reflexivity.
Qed.

Lemma row_loop_sum mc :
  forall (row : list (option ChessPiece)) (score : Z),
    fold_left
      (fun score cell =>
         match cell with
         | None => score
         | Some p =>
             let value := ChessAI.pieceValue p in
             score + (if Color_eqb (color p) mc then value else - value)
         end) row score
    = score + fold_right Z.add 0 (map (signedValue mc) (cellsOf row)).
Proof.
  induction row as [|cell row IH]; intro score; simpl.
  - lia.
  - rewrite IH. destruct cell as [p|]; simpl; [|reflexivity].
    rewrite pieceValue_spec. unfold signedValue.
    destruct (color p), mc; simpl; lia.
Qed.

Lemma board_loop_sum mc :
  forall (board : list (list (option ChessPiece))) (score : Z),
    fold_left
      (fun score row =>
         fold_left
           (fun score cell =>
              match cell with
              | None => score
              | Some p =>
                  let value := ChessAI.pieceValue p in
                  score + (if Color_eqb (color p) mc then value else - value)
              end) row score) board score
    = score + spec_materialSum board mc.
Proof.
  unfold spec_materialSum, piecesOf.
  induction board as [|row board IH]; intro score; simpl.
  - lia.
  - rewrite IH, row_loop_sum, map_app.
    fold (cellsOf row). fold (signedValue mc).
    assert (Hsum : forall l1 l2 : list Z,
               fold_right Z.add 0 (l1 ++ l2)
               = fold_right Z.add 0 l1 + fold_right Z.add 0 l2).
    { induction l1 as [|x l1 IHl]; intro l2; simpl; [reflexivity|].
      rewrite IHl. lia. }
    rewrite Hsum. unfold signedValue. lia.
Qed.

(** C7.  [evaluate] is the material of the maximizing colour minus the
    material of the opponent (pawn 100, knight 300, bishop 300, rook 500,
    queen 900, king 10000), except in a finished game with result "1-0"
    or "0-1", where it is [Infinity] when the winner is the maximizing
    colour and [-Infinity] otherwise; a finished game with any other
    result (a draw) keeps the material sum. *)
Theorem evaluate_is_material_sum :
  forall (E : Engine) (s : St E) (maximizingColor : Color),
    (spec_materialValue "pawn" = 100 /\ spec_materialValue "knight" = 300 /\
     spec_materialValue "bishop" = 300 /\ spec_materialValue "rook" = 500 /\
     spec_materialValue "queen" = 900 /\ spec_materialValue "king" = 10000) /\
    ChessAI.evaluate s maximizingColor =
      if isGameOver s && (ChessEngine.getResult s =s "1-0") then
        match maximizingColor with white => Infinity | black => NegInfinity end
      else if isGameOver s && (ChessEngine.getResult s =s "0-1") then
        match maximizingColor with black => Infinity | white => NegInfinity end
      else Finite (spec_materialSum (getBoard s) maximizingColor).
Proof.
  intros E s mc. split; [repeat split; reflexivity|].
  unfold ChessAI.evaluate.
  rewrite board_loop_sum, Z.add_0_l.
  destruct (isGameOver s); simpl; [|reflexivity].
  destruct (ChessEngine.getResult s =s "1-0"); [destruct mc; reflexivity|].
  destruct (ChessEngine.getResult s =s "0-1"); [destruct mc; reflexivity|].
  reflexivity.
Qed.

(** ** No move, and the random tier *)

Lemma arrayGet_In {A : Type} (l : list A) (i : Z) (x : A) :
  ChessAI.arrayGet l i = Some x -> In x l.
Proof.
  unfold ChessAI.arrayGet. destruct (i <? 0); [discriminate|].
  apply nth_error_In.
Qed.

Lemma random_index_in_range (rnd : Q) (n : nat) :
  (0 <= rnd)%Q -> (rnd < 1)%Q -> (0 < n)%nat ->
  0 <= Qfloor (rnd * inject_Z (Z.of_nat n)) < Z.of_nat n.
Proof.
  intros H0 H1 Hn.
  assert (Hpos : (0 < inject_Z (Z.of_nat n))%Q).
  { change 0%Q with (inject_Z 0). rewrite <- Zlt_Qlt. lia. }
  split.
  - change 0 with (Qfloor 0). apply Qfloor_resp_le.
    apply Qmult_le_0_compat; [exact H0 | now apply Qlt_le_weak].
  - rewrite Zlt_Qlt.
    apply Qle_lt_trans with (y := (rnd * inject_Z (Z.of_nat n))%Q);
      [apply Qfloor_le|].
    setoid_replace (inject_Z (Z.of_nat n)) with (1 * inject_Z (Z.of_nat n))%Q
      at 2 by ring.
    now apply Qmult_lt_compat_r.
Qed.

(** C8.  With [rnd] a value [Math.random()] can return: at every tier
    [computeBestMove] returns [null] when no move is legal at the root,
    and the engine is untouched; at depth 0 the engine is untouched,
    every move returned is one of the legal moves, and a move is returned
    whenever one is legal. *)
Theorem computeBestMove_null_and_random :
  forall (E : Engine) (s : St E) (level : AIDifficulty) (rnd : Q),
    (0 <= rnd)%Q -> (rnd < 1)%Q ->
    (getLegalMoves s = [] ->
       ChessAI.computeBestMove s level rnd = (None, s)) /\
    (ChessAI.depthForLevel level = 0%nat ->
       snd (ChessAI.computeBestMove s level rnd) = s /\
       (forall m, fst (ChessAI.computeBestMove s level rnd) = Some m ->
                  In m (getLegalMoves s)) /\
       (getLegalMoves s <> [] ->
          exists m, fst (ChessAI.computeBestMove s level rnd) = Some m)).
Proof.
  intros E s level rnd H0 H1. split.
  - intro Hnil. unfold ChessAI.computeBestMove. rewrite Hnil. simpl.
    destruct (ChessAI.depthForLevel level =? 0)%nat; reflexivity.
  - intro Hd. unfold ChessAI.computeBestMove. rewrite Hd. cbn [Nat.eqb].
    destruct (getLegalMoves s) as [|m0 rest] eqn:Hlegal;
      cbn [List.length Nat.eqb fst snd].
    + split; [reflexivity|]. split; [discriminate|]. intro H. now elim H.
    + split; [reflexivity|]. split.
      * intros m Hm. now apply arrayGet_In in Hm.
      * intros _.
        pose proof (random_index_in_range rnd (S (List.length rest)) H0 H1
                      ltac:(lia)) as [Hlo Hhi].
        unfold ChessAI.arrayGet.
        set (i := Qfloor (rnd * inject_Z (Z.of_nat (S (List.length rest))))) in *.
        destruct (i <? 0) eqn:Hneg; [lia|].
        destruct (nth_error (m0 :: rest) (Z.to_nat i)) as [m|] eqn:Hnth.
        -- now exists m.
        -- apply nth_error_None in Hnth. cbn [List.length] in Hnth. lia.
Qed.

Lemma computeBestMove_null_and_random_witness :
  ChessAI.computeBestMove (E := Toy.engine)
    [Toy.quiet; Toy.quiet; Toy.quiet] godlike (1 # 2)
    = (None, [Toy.quiet; Toy.quiet; Toy.quiet]) /\
  snd (ChessAI.computeBestMove (E := Toy.engine) [] harmless (1 # 2)) = [] /\
  In Toy.capture (getLegalMoves (e := Toy.engine) []) /\
  exists m,
    fst (ChessAI.computeBestMove (E := Toy.engine) [] harmless (1 # 2)) = Some m.
Proof.
  assert (H0 : (0 <= 1 # 2)%Q) by (unfold Qle; simpl; lia).
  assert (H1 : (1 # 2 < 1)%Q) by (unfold Qlt; simpl; lia).
  destruct (computeBestMove_null_and_random Toy.engine
              [Toy.quiet; Toy.quiet; Toy.quiet] godlike (1 # 2) H0 H1)
    as [Hnull _].
  destruct (computeBestMove_null_and_random Toy.engine
              [] harmless (1 # 2) H0 H1) as [_ Hrandom].
  destruct (Hrandom eq_refl) as (Hstate & Hin & Hsome).
  split; [exact (Hnull eq_refl)|].
  split; [exact Hstate|].
  split; [apply Hin; reflexivity | apply Hsome; discriminate].
Defined.

(* ===================================================================== *)
(** * Properties of the adapters *)
(* ===================================================================== *)

Module AdapterFacts.

Import Norm Adapters.

Lemma bind_Ok {A B : Type} (c : Res A) (k : A -> Res B) (b : B) :
  bind c k = Ok b -> exists a, c = Ok a /\ k a = Ok b.
Proof.
  destruct c as [a|e]; simpl; intro H; [now exists a | discriminate].
Qed.

(** Peel the binds of a computation known to return. *)
Ltac peel H :=
  repeat
    (let a := fresh "v" in
     let Ha := fresh "Hv" in
     apply bind_Ok in H; destruct H as (a & Ha & H)).

Lemma get_optGet (v : JsVal) (k : string) (x : JsVal) :
  Js.get v k = Ok x -> x = Js.optGet v k.
Proof.
  destruct v; simpl; intro H; try discriminate; try (now inversion H).
  destruct (Js.assoc k props); now inversion H.
Qed.

Lemma isStr_eq (v : JsVal) (lit : string) :
  Js.isStr v lit = true <-> v = VStr lit.
Proof.
  destruct v; simpl; split; intro H; try discriminate.
  - apply String.eqb_eq in H. now subst.
  - inversion H. apply String.eqb_refl.
Qed.

(** ** The colour normaliser *)

Lemma assertColor_black (c : JsVal) :
  assertColor c = black <-> c = VStr "black" \/ c = VStr "b".
Proof.
  unfold assertColor.
  destruct (Js.isStr c "white") eqn:Hw.
  { apply isStr_eq in Hw. subst c. split; [discriminate|].
    intros [H|H]; discriminate H. }
  destruct (Js.isStr c "black") eqn:Hb.
  { apply isStr_eq in Hb. subst c. split; [now left | reflexivity]. }
  destruct (Js.isStr c "w") eqn:Hw1.
  { apply isStr_eq in Hw1. subst c. split; [discriminate|].
    intros [H|H]; discriminate H. }
  destruct (Js.isStr c "b") eqn:Hb1.
  { apply isStr_eq in Hb1. subst c. split; [now right | reflexivity]. }
  split; [destruct (Js.isStr c "w"); discriminate|].
  intros [H|H]; subst c; simpl in *; discriminate.
Qed.

(** ** Result and game-over flag *)

Lemma rust_result_gameOver (status player : JsVal) :
  Js.includes rustTerminal status = true <-> rustDeriveResult status player <> "*".
Proof.
  unfold rustDeriveResult, rustTerminal, drawStatuses, Js.includes.
  destruct status as [| |b|q|s|l|o]; simpl;
    try (split; [discriminate | intro H; now elim H]).
  destruct (s =s "checkmate"); simpl.
  { destruct (Js.isStr player "white"); split; (reflexivity || discriminate). }
  destruct (s =s "stalemate"); simpl; [split; (reflexivity || discriminate)|].
  destruct (s =s "draw"); simpl; [split; (reflexivity || discriminate)|].
  destruct (s =s "insufficient_material"); simpl;
    [split; (reflexivity || discriminate)|].
  destruct (s =s "threefold_repetition"); simpl;
    [split; (reflexivity || discriminate)|].
  destruct (s =s "fifty_move_rule"); simpl;
    [split; (reflexivity || discriminate)|].
  split; [discriminate | intro H; now elim H].
Qed.

Lemma go_result_gameOver (status : JsVal) :
  Js.includes goTerminal status = true <-> goDeriveResult status <> "*".
Proof.
  unfold goDeriveResult, goTerminal, drawStatuses, Js.includes.
  destruct status as [| |b|q|s|l|o]; simpl;
    try (split; [discriminate | intro H; now elim H]).
  destruct (s =s "white_wins"); simpl; [split; (reflexivity || discriminate)|].
  destruct (s =s "black_wins"); simpl; [split; (reflexivity || discriminate)|].
  destruct (s =s "stalemate"); simpl; [split; (reflexivity || discriminate)|].
  destruct (s =s "draw"); simpl; [split; (reflexivity || discriminate)|].
  destruct (s =s "insufficient_material"); simpl;
    [split; (reflexivity || discriminate)|].
  destruct (s =s "threefold_repetition"); simpl;
    [split; (reflexivity || discriminate)|].
  destruct (s =s "fifty_move_rule"); simpl;
    [split; (reflexivity || discriminate)|].
  split; [discriminate | intro H; now elim H].
Qed.

Section WithNumberFormat.

Context {NF : NumberFormat}.

Lemma rustNormGame_fields (raw : JsVal) (g : NormGameState) :
  rustNormGame raw = Ok g ->
  turn g = assertColor (Js.optGet raw "currentPlayer") /\
  result g = rustDeriveResult (Js.optGet raw "status")
               (Js.optGet raw "currentPlayer") /\
  gameOver g = Js.includes rustTerminal (Js.optGet raw "status").
Proof.
  intro H. unfold rustNormGame in H. peel H.
  inversion H; subst g; clear H. simpl.
  repeat match goal with
         | Hg : Js.get raw _ = Ok _ |- _ => apply get_optGet in Hg; subst
         end.
  repeat split; reflexivity.
Qed.

Lemma goNormGame_fields (raw : JsVal) (g : NormGameState) :
  goNormGame raw = Ok g ->
  turn g = assertColor (Js.optGet raw "active_color") /\
  result g = goDeriveResult (Js.optGet raw "status") /\
  gameOver g = Js.includes goTerminal (Js.optGet raw "status").
Proof.
  intro H. unfold goNormGame in H. peel H.
  inversion H; subst g; clear H. simpl.
  repeat match goal with
         | Hg : Js.get raw _ = Ok _ |- _ => apply get_optGet in Hg; subst
         end.
  repeat split; reflexivity.
Qed.

Lemma jsDeriveResult_value (raw : JsVal) (res : string) :
  jsDeriveResult raw = Ok res ->
  res = if Js.truthy (Js.optGet raw "checkmate") then
          (if Js.isStr (Js.optGet raw "winner") "white" then "1-0" else "0-1")
        else if Js.truthy (Js.optGet raw "gameOver") then "1/2-1/2"
        else "*".
Proof.
  intro H. unfold jsDeriveResult in H.
  apply bind_Ok in H. destruct H as (c & Hc & H).
  apply get_optGet in Hc. subst c.
  destruct (Js.truthy (Js.optGet raw "checkmate")).
  - apply bind_Ok in H. destruct H as (w & Hw & H).
    apply get_optGet in Hw. subst w. now inversion H.
  - apply bind_Ok in H. destruct H as (o & Ho & H).
    apply get_optGet in Ho. subst o.
    destruct (Js.truthy (Js.optGet raw "gameOver")); now inversion H.
Qed.

Lemma jsNormGame_fields (raw : JsVal) (g : NormGameState) :
  jsNormGame raw = Ok g ->
  turn g = assertColor (Js.optGet raw "turn") /\
  jsDeriveResult raw = Ok (result g) /\
  gameOver g = Js.truthy (Js.optGet raw "gameOver").
Proof.
  intro H. unfold jsNormGame in H. peel H.
  inversion H; subst g; clear H. simpl.
  repeat match goal with
         | Hg : Js.get raw _ = Ok _ |- _ => apply get_optGet in Hg; subst
         end.
  repeat split; try reflexivity. assumption.
Qed.

End WithNumberFormat.

End AdapterFacts.

(** ** Cases of the repository's adapter tests *)

Example rustNormGame_checkmate :
  exists g,
    Adapters.rustNormGame (NF := integerFormat)
      (VObj [ ("id", VStr "game-1"); ("fen", VStr "mate-fen");
              ("currentPlayer", VStr "white"); ("status", VStr "checkmate");
              ("check", VBool true); ("moveHistory", VArr []) ]) = Ok g /\
    Norm.status g = Canonical GameStatusNorm.checkmate /\
    Norm.gameOver g = true /\ Norm.result g = "0-1" /\ Norm.turn g = white.
Proof. eexists. split; [reflexivity|]. repeat split. Qed.

Example goNormGame_white_wins :
  exists g,
    Adapters.goNormGame (NF := integerFormat)
      (VObj [ ("id", VNum 1); ("fen", VStr "mate-fen");
              ("active_color", VStr "black"); ("status", VStr "white_wins");
              ("move_history", VArr []) ]) = Ok g /\
    Norm.id g = "1" /\
    Norm.status g = Canonical GameStatusNorm.checkmate /\
    Norm.gameOver g = true /\ Norm.result g = "1-0".
Proof. eexists. split; [reflexivity|]. repeat split. Qed.

Example jsNormGame_threefold :
  exists g,
    Adapters.jsNormGame (NF := integerFormat)
      (VObj [ ("id", VStr "uuid-4"); ("fen", VStr "rep-fen");
              ("turn", VStr "white"); ("gameOver", VBool false);
              ("checkmate", VBool false); ("stalemate", VBool false);
              ("check", VBool false); ("inThreefoldRepetition", VBool true);
              ("moveHistory", VArr []) ]) = Ok g /\
    Norm.status g = Canonical GameStatusNorm.threefold_repetition /\
    Norm.gameOver g = false /\ Norm.result g = "*".
Proof. eexists. split; [reflexivity|]. repeat split. Qed.

Example rustNormGame_single_char_board :
  exists g,
    Adapters.rustNormGame (NF := integerFormat)
      (VObj [ ("id", VStr "g1"); ("fen", VStr "start");
              ("currentPlayer", VStr "white"); ("status", VStr "active");
              ("check", VBool false); ("moveHistory", VArr []);
              ("board", VArr [ VArr [ VStr "K"; VNull; VStr "k" ] ]) ]) = Ok g /\
    Norm.board g
      = Some [ [ Some {| Norm.type := VStr "king"; Norm.color := white |};
                 None;
                 Some {| Norm.type := VStr "king"; Norm.color := black |} ] ].
Proof. eexists. split; reflexivity. Qed.

Example rustNormGame_history_not_an_array :
  Adapters.rustNormGame (NF := integerFormat)
    (VObj [ ("id", VStr "g1"); ("moveHistory", VNum 5) ]) = Throw TypeError.
Proof. reflexivity. Qed.

(** C2, as stated, fails for [jsNormGame]: on a response with
    [checkmate: true] and no [gameOver] the state has [gameOver = false]
    and the decisive result "0-1". *)
Lemma jsNormGame_result_without_gameOver :
  exists g,
    Adapters.jsNormGame (NF := integerFormat) mateWithoutGameOver = Ok g /\
    Norm.gameOver g = false /\ Norm.result g = "0-1" /\
    ~ (Norm.gameOver g = true <-> Norm.result g <> "*").
Proof.
  eexists. split; [reflexivity|]. simpl.
  split; [reflexivity|]. split; [reflexivity|].
  intros [_ H]. discriminate H. discriminate.
Qed.

(** C2, amended.  For every state an adapter's [normGame] returns,
    [gameOver] holds exactly when [result] is not "*": for rust-chess and
    go-chess on every response, for js-chess on every response in which
    a truthy [checkmate] comes with a truthy [gameOver]. *)
Theorem normGame_gameOver_iff_result :
  forall (NF : NumberFormat) (id : BackendId) (a : Adapters.BackendAdapter)
         (raw : JsVal) (g : Norm.NormGameState),
    Adapters.ADAPTERS id = Some a ->
    Adapters.normGame a raw = Ok g ->
    (id = js ->
     Js.truthy (Js.optGet raw "checkmate") = true ->
     Js.truthy (Js.optGet raw "gameOver") = true) ->
    (Norm.gameOver g = true <-> Norm.result g <> "*").
Proof.
  intros NF id a raw g Ha Hg Hjs.
  destruct id; simpl in Ha; inversion Ha; subst a; clear Ha; simpl in Hg.
  - apply AdapterFacts.rustNormGame_fields in Hg.
    destruct Hg as (_ & Hr & Ho). rewrite Hr, Ho.
    apply AdapterFacts.rust_result_gameOver.
  - apply AdapterFacts.goNormGame_fields in Hg.
    destruct Hg as (_ & Hr & Ho). rewrite Hr, Ho.
    apply AdapterFacts.go_result_gameOver.
  - apply AdapterFacts.jsNormGame_fields in Hg.
    destruct Hg as (_ & Hr & Ho).
    apply AdapterFacts.jsDeriveResult_value in Hr.
    rewrite Hr, Ho. specialize (Hjs eq_refl).
    destruct (Js.truthy (Js.optGet raw "checkmate")).
    + rewrite (Hjs eq_refl).
      destruct (Js.isStr (Js.optGet raw "winner") "white");
        split; (reflexivity || discriminate).
    + destruct (Js.truthy (Js.optGet raw "gameOver")).
      * split; (reflexivity || discriminate).
      * split; [discriminate | intro H; now elim H].
Qed.

Lemma normGame_gameOver_iff_result_witness :
  exists g,
    Adapters.jsNormGame (NF := integerFormat) mateWithGameOver = Ok g /\
    (Norm.gameOver g = true <-> Norm.result g <> "*").
Proof.
  eexists. split; [reflexivity|].
  apply (normGame_gameOver_iff_result integerFormat js _ mateWithGameOver _
           eq_refl eq_refl).
  intros _ _. reflexivity.
Defined.

(** ** Which responses are normalised *)

Module ReturnFacts.

Import Norm Adapters AdapterFacts.

Section WithNumberFormat.
Context {NF : NumberFormat}.

Lemma printable_String_ : forall v, printable v = true <-> exists s, Js.String_ v = Ok s.
Proof.
  fix IH 1. intros v. destruct v as [| |b|q|s|elems|props].
  - split; [eexists; reflexivity|reflexivity].
  - split; [eexists; reflexivity|reflexivity].
  - split; [destruct b; eexists; reflexivity|reflexivity].
  - split; [eexists; reflexivity|reflexivity].
  - split; [eexists; reflexivity|reflexivity].
  - cbn [printable Js.String_].
    induction elems as [|x l IHl].
    + split; [eexists; reflexivity|reflexivity].
    + specialize (IH x). destruct IH as [IH1 IH2].
      split.
      * intros H. apply andb_true_iff in H. destruct H as [Hx Hl].
        destruct (IH1 Hx) as [sx Hsx].
        destruct IHl as [IHl1 _]. destruct (IHl1 Hl) as [sl Hsl].
        assert (Hhead : exists sx', (if Js.nullish x then Ok "" else Js.String_ x) = Ok sx').
        { destruct (Js.nullish x); eexists; [reflexivity|exact Hsx]. }
        destruct Hhead as [sx' Hsx']. rewrite Hsx'. cbn [bind].
        destruct l as [|y l']; [eexists; reflexivity|].
        rewrite Hsl. cbn [bind]. eexists; reflexivity.
      * intros [s Hs]. apply andb_true_iff.
        destruct (Js.nullish x) eqn:Hn.
        -- split; [destruct x; try discriminate Hn; reflexivity|].
           cbn [bind] in Hs. destruct l as [|y l']; [reflexivity|].
           apply IHl.
           match type of Hs with
           | bind ?c _ = _ => destruct c as [r|e]; [eexists; reflexivity|discriminate Hs]
           end.
        -- destruct (Js.String_ x) as [sx|e] eqn:Hx; [|discriminate Hs].
           split; [apply IH2; now exists sx|].
           cbn [bind] in Hs. destruct l as [|y l']; [reflexivity|].
           apply IHl.
           match type of Hs with
           | bind ?c _ = _ => destruct c as [r|e]; [eexists; reflexivity|discriminate Hs]
           end.
  - cbn [printable Js.String_]. destruct (Js.assoc "toString" props).
    + split; [discriminate|intros [s Hs]; discriminate Hs].
    + split; [eexists; reflexivity|reflexivity].
Qed.

Lemma returns_Ok {A} (c : Res A) : returns c = true <-> exists a, c = Ok a.
Proof.
  destruct c as [a|e]; simpl; split; try discriminate; eauto.
  intros [a H]; discriminate H.
Qed.

Lemma returns_String_ v : returns (Js.String_ v) = printable v.
Proof.
  destruct (printable v) eqn:Hp.
  - apply printable_String_ in Hp. destruct Hp as [s ->]. reflexivity.
  - destruct (Js.String_ v) as [s|e] eqn:Hs; [|reflexivity].
    assert (printable v = true) by (apply printable_String_; eauto). congruence.
Qed.

Lemma returns_bind {A B} (c : Res A) (k : A -> Res B) :
  returns (bind c k) = match c with Ok a => returns (k a) | Throw _ => false end.
Proof. now destruct c. Qed.

Lemma returns_mapM {A B} (f : A -> Res B) (l : list A) :
  returns (mapM f l) = forallb (fun x => returns (f x)) l.
Proof.
  induction l as [|a l IH]; [reflexivity|]. simpl.
  destruct (f a) as [b|e]; simpl; [|reflexivity].
  rewrite <- IH. now destruct (mapM f l).
Qed.

Lemma get_total v k : Js.nullish v = false -> Js.get v k = Ok (Js.optGet v k).
Proof.
  destruct v; simpl; intro H; try discriminate; try reflexivity.
  now destruct (Js.assoc k props).
Qed.

Lemma get_nullish {A} v k (f : JsVal -> Res A) :
  Js.nullish v = true -> returns (bind (Js.get v k) f) = false.
Proof. destruct v; simpl; intro H; try discriminate; reflexivity. Qed.

Lemma returns_rustNormMove m : returns (rustNormMove m) = moveOk m.
Proof.
  unfold rustNormMove, moveOk.
  destruct (Js.nullish m) eqn:Hn; [now apply get_nullish|].
  rewrite !(get_total m _ Hn). cbn [bind negb andb].
  rewrite <- !returns_String_.
  destruct (Js.String_ _); cbn [bind returns andb]; [|reflexivity].
  destruct (Js.String_ _); reflexivity.
Qed.

Lemma returns_goNormMove m : returns (goNormMove m) = moveOk m.
Proof.
  unfold goNormMove, moveOk.
  destruct (Js.nullish m) eqn:Hn; [now apply get_nullish|].
  rewrite !(get_total m _ Hn). cbn [bind negb andb].
  rewrite <- !returns_String_.
  destruct (Js.String_ _); cbn [bind returns andb]; [|reflexivity].
  destruct (Js.String_ _); reflexivity.
Qed.

Lemma returns_jsNormMove m : returns (jsNormMove m) = moveOk m.
Proof.
  unfold jsNormMove, moveOk.
  destruct (Js.nullish m) eqn:Hn; [now apply get_nullish|].
  rewrite !(get_total m _ Hn). cbn [bind negb andb].
  rewrite <- !returns_String_.
  destruct (Js.String_ _); cbn [bind returns andb]; [|reflexivity].
  destruct (Js.String_ _); reflexivity.
Qed.

Lemma forallb_same {A} (p q : A -> bool) (l : list A) :
  (forall x, p x = q x) -> forallb p l = forallb q l.
Proof.
  intros H. induction l as [|a l IH]; [reflexivity|]. simpl. now rewrite H, IH.
Qed.

Lemma returns_moves (f : JsVal -> Res NormMove) (l : list JsVal) :
  (forall m, returns (f m) = moveOk m) ->
  returns (mapM f l) = forallb moveOk l.
Proof.
  intros Hf. rewrite returns_mapM. now apply forallb_same.
Qed.

Lemma returns_rustNormBoard b : returns (rustNormBoard b) = boardOk b.
Proof.
  destruct b as [| |x|q|s|rows|o]; simpl; try reflexivity.
  rewrite returns_bind.
  match goal with
  | |- match mapM ?f rows with _ => _ end = _ =>
      transitivity (returns (mapM f rows));
        [destruct (mapM f rows); reflexivity|rewrite returns_mapM]
  end.
  apply forallb_same. intros row. destruct row; reflexivity.
Qed.

Lemma returns_status_rust s : returns (rustNormStatus s) = printable s.
Proof.
  unfold rustNormStatus. rewrite <- returns_String_.
  destruct (Js.String_ s); simpl; [|reflexivity].
  destruct (Js.literalGet _ _); reflexivity.
Qed.

Lemma returns_status_go s : returns (goNormStatus s) = printable s.
Proof.
  unfold goNormStatus. rewrite <- returns_String_.
  destruct (Js.String_ s); simpl; [|reflexivity].
  destruct (Js.literalGet _ _); reflexivity.
Qed.

Lemma returns_rustNormGame raw :
  returns (rustNormGame raw) = wellFormedGame rust raw.
Proof.
  unfold rustNormGame, wellFormedGame.
  destruct (Js.nullish raw) eqn:Hn; [now apply get_nullish|].
  rewrite !(get_total raw _ Hn). cbn [bind negb andb AdaptersMore.historyField].
  rewrite <- (returns_status_rust (Js.optGet raw "status")), <- returns_rustNormBoard.
  rewrite <- !returns_String_.
  destruct (Js.String_ (Js.optGet raw "id")); cbn [bind returns andb]; [|reflexivity].
  destruct (Js.String_ (Js.coalesce _ _)); cbn [bind returns andb]; [|reflexivity].
  destruct (rustNormStatus _); cbn [bind returns andb];
    [|now rewrite andb_false_r].
  destruct (Js.optGet raw "moveHistory") as [| |b|q|s0|l|o];
    cbn [Js.coalesce Js.nullish asArray bind historyOk mapM andb returns];
    try reflexivity.
  - now destruct (rustNormBoard _).
  - now destruct (rustNormBoard _).
  - rewrite <- (returns_moves rustNormMove l returns_rustNormMove).
    destruct (mapM rustNormMove l); cbn [bind returns andb]; [|reflexivity].
    now destruct (rustNormBoard _).
Qed.

Lemma returns_goNormGame raw :
  returns (goNormGame raw) = wellFormedGame go raw.
Proof.
  unfold goNormGame, wellFormedGame.
  destruct (Js.nullish raw) eqn:Hn; [now apply get_nullish|].
  rewrite !(get_total raw _ Hn). cbn [bind negb andb AdaptersMore.historyField].
  rewrite <- (returns_status_go (Js.optGet raw "status")).
  rewrite <- !returns_String_.
  destruct (Js.String_ (Js.optGet raw "id")); cbn [bind returns andb]; [|reflexivity].
  destruct (Js.String_ (Js.coalesce _ _)); cbn [bind returns andb]; [|reflexivity].
  destruct (goNormStatus _); cbn [bind returns andb];
    [|now rewrite andb_false_r].
  destruct (Js.optGet raw "move_history") as [| |b|q|s0|l|o];
    cbn [Js.coalesce Js.nullish asArray bind historyOk mapM andb returns];
    try reflexivity.
  rewrite <- (returns_moves goNormMove l returns_goNormMove).
  destruct (mapM goNormMove l); reflexivity.
Qed.

Lemma returns_jsDeriveResult raw :
  Js.nullish raw = false -> returns (jsDeriveResult raw) = true.
Proof.
  intros Hn. unfold jsDeriveResult. rewrite !(get_total raw _ Hn). cbn [bind].
  destruct (Js.truthy _); [reflexivity|].
  destruct (Js.truthy _); reflexivity.
Qed.

Lemma returns_jsNormGame raw :
  returns (jsNormGame raw) = wellFormedGame js raw.
Proof.
  unfold jsNormGame, wellFormedGame.
  destruct (Js.nullish raw) eqn:Hn; [now apply get_nullish|].
  pose proof (returns_jsDeriveResult raw Hn) as Hres.
  rewrite !(get_total raw _ Hn). cbn [bind negb andb AdaptersMore.historyField].
  rewrite <- !returns_String_.
  destruct (Js.String_ (Js.optGet raw "id")); cbn [bind returns andb]; [|reflexivity].
  destruct (Js.String_ (Js.coalesce _ _)); cbn [bind returns andb]; [|reflexivity].
  destruct (Js.optGet raw "moveHistory") as [| |b|q|s0|l|o];
    cbn [Js.coalesce Js.nullish asArray bind historyOk mapM andb returns];
    try reflexivity.
  - now destruct (jsDeriveResult raw).
  - now destruct (jsDeriveResult raw).
  - rewrite <- (returns_moves jsNormMove l returns_jsNormMove).
    destruct (mapM jsNormMove l); cbn [bind returns andb]; [|reflexivity].
    now destruct (jsDeriveResult raw).
Qed.

End WithNumberFormat.

Lemma String_throws {NF : NumberFormat} :
  forall v e, Js.String_ v = Throw e -> e = TypeError.
Proof.
  fix IH 1. intros v e. destruct v as [| |b|q|s|elems|props]; cbn [Js.String_];
    try discriminate.
  - destruct b; discriminate.
  - induction elems as [|x l IHl]; [discriminate|].
    destruct (Js.nullish x).
    + cbn [bind]. destruct l as [|y l']; [discriminate|].
      intros H.
      match type of H with
      | bind ?c _ = _ => destruct c as [r|e'] eqn:Hc; [discriminate H|]
      end.
      cbn [bind] in H. injection H as <-. now apply IHl.
    + destruct (Js.String_ x) as [sx|e'] eqn:Hx; cbn [bind].
      * destruct l as [|y l']; [discriminate|].
        intros H.
        match type of H with
        | bind ?c _ = _ => destruct c as [r|e''] eqn:Hc; [discriminate H|]
        end.
        cbn [bind] in H. injection H as <-. now apply IHl.
      * intros [= <-]. now apply (IH x).
  - destruct (Js.assoc "toString" props); [now intros [= <-]|discriminate].
Qed.

Lemma wellFormedGame_turn (id : BackendId) (props : list (string * JsVal)) (v : JsVal) :
  wellFormedGame id (VObj ((turnField id, v) :: props)) = wellFormedGame id (VObj props).
Proof. destruct id; reflexivity. Qed.

End ReturnFacts.

(** C10, as stated, fails: [normGame] does not return a state for any
    raw input.  On a response whose history member is a string every
    adapter throws a [TypeError] ([history.map] is not a function), and
    so does [rustNormGame] on [null]; no turn is returned there. *)
Lemma normGame_throws_on_malformed_response :
  Adapters.rustNormGame (NF := integerFormat) (historyAsText rust) = Throw TypeError /\
  Adapters.goNormGame (NF := integerFormat) (historyAsText go) = Throw TypeError /\
  Adapters.jsNormGame (NF := integerFormat) (historyAsText js) = Throw TypeError /\
  Adapters.rustNormGame (NF := integerFormat) VNull = Throw TypeError /\
  ~ (forall raw, exists g,
        Adapters.rustNormGame (NF := integerFormat) raw = Ok g /\
        (Norm.turn g = white \/ Norm.turn g = black)).
Proof.
  repeat split; try reflexivity.
  intros H. destruct (H VNull) as (g & Hg & _). discriminate Hg.
Qed.

(** C10, amended.  [assertColor] is total: it answers 'black' for
    'black' and 'b' and 'white' for every other value, a missing member
    and values that are not strings included, and never throws.  An
    adapter's [normGame] returns a state exactly for the responses that
    are well formed in their other members (a response that is not
    [null], with an id, fen and, for rust and go, status that print, a
    history that is missing, [null] or an array of entries, and for rust
    a board that is no array or an array of arrays); in every state it
    returns, [turn] is [assertColor] of the colour member, hence 'white'
    or 'black'; and on a well-formed response it returns whatever value
    the colour member is given. *)
Theorem normGame_turn_is_color :
  forall (NF : NumberFormat) (id : BackendId) (a : Adapters.BackendAdapter)
         (raw : JsVal),
    Adapters.ADAPTERS id = Some a ->
    ((exists g, Adapters.normGame a raw = Ok g) <-> wellFormedGame id raw = true) /\
    (forall g : Norm.NormGameState,
        Adapters.normGame a raw = Ok g ->
        Norm.turn g = Adapters.assertColor (Js.optGet raw (turnField id)) /\
        (Norm.turn g = white \/ Norm.turn g = black) /\
        (Norm.turn g = black <->
         Js.optGet raw (turnField id) = VStr "black" \/
         Js.optGet raw (turnField id) = VStr "b")) /\
    (forall (props : list (string * JsVal)) (c : JsVal),
        wellFormedGame id (VObj props) = true ->
        exists g,
          Adapters.normGame a (VObj ((turnField id, c) :: props)) = Ok g /\
          Norm.turn g = Adapters.assertColor c) /\
    (forall c : JsVal,
        Adapters.assertColor c =
          if Js.isStr c "black" || Js.isStr c "b" then black else white).
Proof.
  intros NF id a raw Ha.
  assert (Hret : forall r, returns (Adapters.normGame a r) = wellFormedGame id r).
  { intro r. destruct id; simpl in Ha; inversion Ha; subst a; simpl.
    - apply ReturnFacts.returns_rustNormGame.
    - apply ReturnFacts.returns_goNormGame.
    - apply ReturnFacts.returns_jsNormGame. }
  assert (Hturn : forall r g, Adapters.normGame a r = Ok g ->
                    Norm.turn g = Adapters.assertColor (Js.optGet r (turnField id))).
  { intros r g Hg. destruct id; simpl in Ha; inversion Ha; subst a; simpl in Hg.
    - now apply AdapterFacts.rustNormGame_fields in Hg.
    - now apply AdapterFacts.goNormGame_fields in Hg.
    - now apply AdapterFacts.jsNormGame_fields in Hg. }
  split; [|split; [|split]].
  - rewrite <- Hret. symmetry. apply ReturnFacts.returns_Ok.
  - intros g Hg. pose proof (Hturn raw g Hg) as Ht.
    split; [exact Ht|]. split; [destruct (Norm.turn g); auto|].
    rewrite Ht. apply AdapterFacts.assertColor_black.
  - intros props c Hwf.
    rewrite <- (ReturnFacts.wellFormedGame_turn id props c), <- Hret in Hwf.
    apply ReturnFacts.returns_Ok in Hwf. destruct Hwf as [g Hg]. exists g.
    split; [exact Hg|]. rewrite (Hturn _ g Hg).
    f_equal. destruct id; simpl; now rewrite ?String.eqb_refl.
  - intro c. unfold Adapters.assertColor.
    destruct c as [| |b|q|s|l|o]; simpl; try reflexivity.
    destruct (s =s "white") eqn:Hw.
    { apply String.eqb_eq in Hw. subst s. reflexivity. }
    destruct (s =s "black"); [reflexivity|].
    destruct (s =s "w") eqn:Hw1.
    { apply String.eqb_eq in Hw1. subst s. reflexivity. }
    destruct (s =s "b"); reflexivity.
Qed.

Lemma normGame_turn_is_color_witness :
  (exists g,
      Adapters.rustNormGame (NF := integerFormat) rustAfterE4 = Ok g /\
      Norm.turn g = black) /\
  (exists g,
      Adapters.goNormGame (NF := integerFormat) goShortColor = Ok g /\
      Norm.turn g = black) /\
  (exists g,
      Adapters.jsNormGame (NF := integerFormat) mateWithGameOver = Ok g /\
      Norm.turn g = white).
Proof.
  split; [|split].
  - destruct (normGame_turn_is_color integerFormat rust _ rustAfterE4 eq_refl)
      as (Hret & Hturn & _).
    destruct (proj2 Hret eq_refl) as [g Hg].
    exists g. split; [exact Hg|].
    destruct (Hturn g Hg) as (_ & _ & Hblack).
    apply Hblack. now left.
  - destruct (normGame_turn_is_color integerFormat go _ goShortColor eq_refl)
      as (Hret & Hturn & _).
    destruct (proj2 Hret eq_refl) as [g Hg].
    exists g. split; [exact Hg|].
    destruct (Hturn g Hg) as (_ & _ & Hblack).
    apply Hblack. now right.
  - destruct (normGame_turn_is_color integerFormat js _ mateWithGameOver eq_refl)
      as (Hret & Hturn & _).
    destruct (proj2 Hret eq_refl) as [g Hg].
    exists g. split; [exact Hg|].
    destruct (Hturn g Hg) as (Ht & _). rewrite Ht. reflexivity.
Defined.

(** ** The status tables *)

(** C5.  [rustNormStatus] and [goNormStatus] send each documented status
    of their backend to its canonical status, and every other string to
    'active', except the names of the members of [Object.prototype]: the
    table is an object literal, so [map[s]] finds the inherited member
    for such a name and [?? 'active'] does not apply.  On "constructor"
    the result is that member, not 'active'. *)
Theorem normStatus_table_and_fallback :
  forall (NF : NumberFormat),
    (map (fun kv => Adapters.rustNormStatus (VStr (fst kv))) Adapters.rustStatusMap
       = map (fun kv => Ok (Canonical (snd kv))) Adapters.rustStatusMap) /\
    (map (fun kv => Adapters.goNormStatus (VStr (fst kv))) Adapters.goStatusMap
       = map (fun kv => Ok (Canonical (snd kv))) Adapters.goStatusMap) /\
    (forall s : string,
        Js.own s Adapters.rustStatusMap = None ->
        ~ In s Js.ObjectPrototypeKeys ->
        Adapters.rustNormStatus (VStr s) = Ok (Canonical GameStatusNorm.active)) /\
    (forall s : string,
        Js.own s Adapters.goStatusMap = None ->
        ~ In s Js.ObjectPrototypeKeys ->
        Adapters.goNormStatus (VStr s) = Ok (Canonical GameStatusNorm.active)) /\
    Adapters.rustNormStatus (VStr "constructor") = Ok (PrototypeMember "constructor") /\
    Adapters.goNormStatus (VStr "constructor") = Ok (PrototypeMember "constructor").
Proof.
  intro NF.
  assert (Hproto : forall s, ~ In s Js.ObjectPrototypeKeys ->
                             existsb (String.eqb s) Js.ObjectPrototypeKeys = false).
  { intros s Hn. destruct (existsb _ _) eqn:Hex; [|reflexivity].
    apply existsb_exists in Hex. destruct Hex as (k & Hin & Heq).
    apply String.eqb_eq in Heq. subst k. now elim Hn. }
  split; [reflexivity|]. split; [reflexivity|].
  split; [|split; [|split; reflexivity]].
  - intros s Hown Hn. unfold Adapters.rustNormStatus.
    cbn [Js.String_ bind]. unfold Js.literalGet.
    rewrite Hown, (Hproto s Hn). reflexivity.
  - intros s Hown Hn. unfold Adapters.goNormStatus.
    cbn [Js.String_ bind]. unfold Js.literalGet.
    rewrite Hown, (Hproto s Hn). reflexivity.
Qed.

(* ===================================================================== *)
(** * Properties of the remote provider *)
(* ===================================================================== *)

(** ** Cases of the repository's provider tests *)

Example request_text_plain_error :
  snd (RemoteProvider.request (NF := integerFormat)
         (answering {| Http.status := 500;
                       Http.statusText := "Internal Server Error";
                       Http.contentType := Some "text/plain";
                       Http.text := "Internal failure";
                       Http.json := Throw SyntaxError |})
         "http://localhost:8082/api/games/x"
         {| RemoteProvider.init_method := None;
            RemoteProvider.init_headers := [];
            RemoteProvider.init_body := None |})
    = Throw (ApiError 500 "HTTP_ERROR" "Internal failure").
Proof. reflexivity. Qed.

Example request_string_error_body :
  snd (RemoteProvider.request (NF := integerFormat)
         (answering {| Http.status := 500;
                       Http.statusText := "Error";
                       Http.contentType := Some "application/json";
                       Http.text := "";
                       Http.json :=
                         Ok (VObj [ ("error", VStr "Something broke");
                                    ("message", VStr "oops") ]) |})
         "http://localhost:8082/api/games/x"
         {| RemoteProvider.init_method := None;
            RemoteProvider.init_headers := [];
            RemoteProvider.init_body := None |})
    = Throw (ApiError 500 "Something broke" "oops").
Proof. reflexivity. Qed.

Example undoMove_rust_url :
  exists p,
    RemoteProvider.constructor (NF := integerFormat) rust "http://localhost:8082///"
      = Ok p /\
    map Http.url (fst (RemoteProvider.undoMove (NF := integerFormat) p
                         (answering healthy) "uuid-1"))
      = [ "http://localhost:8082/api/games/uuid-1/undo" ].
Proof. eexists. split; reflexivity. Qed.

Example undoMove_js_url :
  exists p,
    RemoteProvider.constructor (NF := integerFormat) js "http://localhost:8081"
      = Ok p /\
    map Http.url (fst (RemoteProvider.undoMove (NF := integerFormat) p
                         (answering healthy) "uuid-1"))
      = [ "http://localhost:8081/api/v1/games/uuid-1/undo" ].
Proof. eexists. split; reflexivity. Qed.

(** C9, as stated, fails: on a 500 answer whose error code is an object
    with a member named [toString], [String(code)] throws, so [request]
    throws a [TypeError] and not an error that carries the HTTP
    status. *)
Lemma request_unprintable_code_is_TypeError :
  Http.ok unprintableCode = false /\
  snd (RemoteProvider.request (NF := integerFormat) (answering unprintableCode)
         "http://localhost:8082/api/games"
         {| RemoteProvider.init_method := None;
            RemoteProvider.init_headers := [];
            RemoteProvider.init_body := None |})
    = Throw TypeError /\
  ~ (exists code message,
        snd (RemoteProvider.request (NF := integerFormat) (answering unprintableCode)
               "http://localhost:8082/api/games"
               {| RemoteProvider.init_method := None;
                  RemoteProvider.init_headers := [];
                  RemoteProvider.init_body := None |})
        = Throw (ApiError 500 code message)).
Proof.
  split; [reflexivity|]. split; [reflexivity|].
  intros (c & m & H). discriminate H.
Qed.

(** C9, amended.  When the response to [request] is not 2xx: with a
    content type containing "text/plain" the call throws [ApiError] with
    the HTTP status, the code "HTTP_ERROR" and the response text as the
    message.  Otherwise, with a body that parses as JSON, the call
    throws; it throws [ApiError] with the HTTP status exactly when the
    code and the message of the body print, and a [TypeError] when one
    of them does not.  The code and the message are those of the
    [error] object in the shape [{error: {code, message}}], and the
    [error] and [message] members in the shape [{error, message}], with
    "UNKNOWN" for a missing [error] and the status text for a missing
    [message]; string members are taken as they are.  A body that does
    not parse makes the call throw the parse error.  One [fetch] was
    issued. *)
Theorem request_error_extraction :
  forall (NF : NumberFormat) (fetch : Http.Fetch) (u : string)
         (init : RemoteProvider.RequestInit) (res : Http.Response),
    fetch (requestSent u init) = Http.Resolves res ->
    Http.ok res = false ->
    fst (RemoteProvider.request fetch u init) = [requestSent u init] /\
    (RemoteProvider.strIncludes "text/plain" (contentTypeOf res) = true ->
     snd (RemoteProvider.request fetch u init)
       = Throw (ApiError (Http.status res) "HTTP_ERROR" (Http.text res))) /\
    (RemoteProvider.strIncludes "text/plain" (contentTypeOf res) = false ->
     forall body : JsVal,
       Http.json res = Ok body ->
       (exists e, snd (RemoteProvider.request fetch u init) = Throw e) /\
       (forall (err : list (string * JsVal)) (code message : string),
           Js.optGet body "error" = VObj err ->
           Js.optGet (VObj err) "code" = VStr code ->
           Js.optGet (VObj err) "message" = VStr message ->
           snd (RemoteProvider.request fetch u init)
             = Throw (ApiError (Http.status res) code message)) /\
       (forall (err message : string),
           Js.optGet body "error" = VStr err ->
           Js.optGet body "message" = VStr message ->
           snd (RemoteProvider.request fetch u init)
             = Throw (ApiError (Http.status res) err message)) /\
       (forall code message : string,
           Js.String_ (errorCodeOf body) = Ok code ->
           Js.String_ (errorMessageOf body (Http.statusText res)) = Ok message ->
           snd (RemoteProvider.request fetch u init)
             = Throw (ApiError (Http.status res) code message)) /\
       (printable (errorCodeOf body)
        && printable (errorMessageOf body (Http.statusText res)) = true <->
        exists code message,
          snd (RemoteProvider.request fetch u init)
            = Throw (ApiError (Http.status res) code message)) /\
       (printable (errorCodeOf body)
        && printable (errorMessageOf body (Http.statusText res)) = false ->
        snd (RemoteProvider.request fetch u init) = Throw TypeError)) /\
    (RemoteProvider.strIncludes "text/plain" (contentTypeOf res) = false ->
     forall e : Exn,
       Http.json res = Throw e ->
       snd (RemoteProvider.request fetch u init) = Throw e).
Proof.
  intros NF fetch u init res Hfetch Hok.
  unfold RemoteProvider.request. fold (requestSent u init).
  rewrite Hfetch. fold (contentTypeOf res). rewrite Hok. cbn [negb].
  split; [destruct (RemoteProvider.strIncludes _ _); reflexivity|].
  split; [|split].
  - intro Hct. rewrite Hct. reflexivity.
  - intros Hct body Hbody. rewrite Hct, Hbody. cbn [snd bind].
    assert (Hcode :
      (if Js.typeofObject (Js.optGet body "error")
       then Js.optGet (Js.optGet body "error") "code"
       else Js.coalesce (Js.optGet body "error") (VStr "UNKNOWN"))
      = errorCodeOf body).
    { unfold errorCodeOf. destruct (Js.optGet body "error"); reflexivity. }
    assert (Hmsg :
      (if Js.typeofObject (Js.optGet body "error")
       then Js.optGet (Js.optGet body "error") "message"
       else Js.coalesce (Js.optGet body "message") (VStr (Http.statusText res)))
      = errorMessageOf body (Http.statusText res)).
    { unfold errorMessageOf.
      destruct (Js.optGet body "error"); try reflexivity;
        destruct (Js.optGet body "message"); reflexivity. }
    split; [|split; [|split; [|split; [|split]]]].
    + destruct (Js.String_ _) as [c|e]; cbn [bind]; [|now exists e].
      destruct (Js.String_ _) as [m|e]; cbn [bind]; eexists; reflexivity.
    + intros err code message Herr Hcode' Hmsg'.
      rewrite Herr. cbn [Js.typeofObject]. rewrite Hcode', Hmsg'. reflexivity.
    + intros err message Herr Hmsg'.
      rewrite Herr, Hmsg'. reflexivity.
    + intros code message Hc Hm. rewrite Hcode, Hmsg, Hc, Hm. reflexivity.
    + rewrite Hcode, Hmsg, <- !ReturnFacts.returns_String_.
      destruct (Js.String_ (errorCodeOf body)) as [c|e] eqn:Hc; cbn [bind returns andb].
      * destruct (Js.String_ (errorMessageOf body _)) as [m|e] eqn:Hm; cbn [bind returns].
        -- split; [eexists; eexists; reflexivity|reflexivity].
        -- apply ReturnFacts.String_throws in Hm. subst e.
           split; [discriminate|intros (c' & m' & H); discriminate H].
      * apply ReturnFacts.String_throws in Hc. subst e.
        split; [discriminate|intros (c' & m' & H); discriminate H].
    + rewrite Hcode, Hmsg, <- !ReturnFacts.returns_String_.
      destruct (Js.String_ (errorCodeOf body)) as [c|e] eqn:Hc; cbn [bind returns andb].
      * destruct (Js.String_ (errorMessageOf body _)) as [m|e] eqn:Hm; cbn [bind returns].
        -- discriminate.
        -- apply ReturnFacts.String_throws in Hm. now subst e.
      * apply ReturnFacts.String_throws in Hc. now subst e.
  - intros Hct e He. rewrite Hct, He. reflexivity.
Qed.

Lemma request_error_extraction_witness :
  snd (RemoteProvider.request (NF := integerFormat) (answering notFound)
         "http://localhost:8082/api/games/bad-id"
         {| RemoteProvider.init_method := None;
            RemoteProvider.init_headers := [];
            RemoteProvider.init_body := None |})
    = Throw (ApiError 404 "NOT_FOUND" "Game not found").
Proof.
  destruct (request_error_extraction integerFormat (answering notFound)
              "http://localhost:8082/api/games/bad-id"
              {| RemoteProvider.init_method := None;
                 RemoteProvider.init_headers := [];
                 RemoteProvider.init_body := None |}
              notFound eq_refl eq_refl) as (_ & _ & Hjson & _).
  destruct (Hjson eq_refl _ eq_refl) as (_ & Hobject & _).
  exact (Hobject _ "NOT_FOUND" "Game not found" eq_refl eq_refl eq_refl).
Defined.

(** C4.  For a provider built by [new RemoteProvider(id, base)]:
    when its [capabilities.undo] is false, which is the case for go and
    only for go, [undoMove] throws the error "Undo is not supported by
    the go backend" and no request has been issued; when it is true,
    [undoMove] issues exactly one request, a POST to
    [{base}{prefix}/games/{id}/undo]. *)
Theorem undoMove_capability_guard :
  forall (NF : NumberFormat) (id : BackendId) (base : string)
         (p : RemoteProvider.RemoteProvider) (fetch : Http.Fetch)
         (gameId : string),
    RemoteProvider.constructor id base = Ok p ->
    (cap_undo (RemoteProvider.capabilities p) = false <-> id = go) /\
    (cap_undo (RemoteProvider.capabilities p) = false ->
     RemoteProvider.undoMove p fetch gameId
       = ([], Throw (Error "Undo is not supported by the go backend"))) /\
    (cap_undo (RemoteProvider.capabilities p) = true ->
     exists a,
       Adapters.ADAPTERS id = Some a /\
       fst (RemoteProvider.undoMove p fetch gameId)
         = [undoRequest base (Adapters.apiPrefix a) gameId]).
Proof.
  intros NF id base p fetch gameId Hp.
  unfold RemoteProvider.constructor in Hp.
  destruct id; simpl in Hp; inversion Hp; subst p; clear Hp; simpl.
  - split; [split; discriminate|]. split; [discriminate|]. intros _.
    eexists. split; [reflexivity|].
    unfold RemoteProvider.undoMove, RemoteProvider.url_; simpl.
    unfold RemoteProvider.request.
    match goal with |- context [fetch ?r] => destruct (fetch r) as [res|m] end;
      [|reflexivity].
    destruct (RemoteProvider.strIncludes _ _); [|reflexivity].
    destruct (negb (Http.ok res)); reflexivity.
  - split; [split; reflexivity|]. split; [reflexivity|]. discriminate.
  - split; [split; discriminate|]. split; [discriminate|]. intros _.
    eexists. split; [reflexivity|].
    unfold RemoteProvider.undoMove, RemoteProvider.url_; simpl.
    unfold RemoteProvider.request.
    match goal with |- context [fetch ?r] => destruct (fetch r) as [res|m] end;
      [|reflexivity].
    destruct (RemoteProvider.strIncludes _ _); [|reflexivity].
    destruct (negb (Http.ok res)); reflexivity.
Qed.

Lemma undoMove_capability_guard_witness :
  exists p,
    RemoteProvider.constructor (NF := integerFormat) go "http://localhost:8080"
      = Ok p /\
    cap_undo (RemoteProvider.capabilities p) = false /\
    RemoteProvider.undoMove (NF := integerFormat) p (answering notFound) "1"
      = ([], Throw (Error "Undo is not supported by the go backend")).
Proof.
  eexists. split; [reflexivity|]. split; [reflexivity|].
  destruct (undoMove_capability_guard integerFormat go "http://localhost:8080"
              _ (answering notFound) "1" eq_refl) as (Hgo & Hguard & _).
  apply Hguard. apply Hgo. reflexivity.
Defined.

(* ===================================================================== *)
(** * Properties of the backend selector *)
(* ===================================================================== *)

(** C3, as stated, fails for js: after switching to js the provider is
    the local one, no [RemoteProvider] is built, no health-check request
    is issued, and the backend counts as connected whatever the network
    would have answered. *)
Lemma switch_to_js_uses_local_provider :
  BackendContext.provider (NF := integerFormat)
    (BackendContext.switchBackend freshLocal js None) = Ok BackendContext.LocalProvider /\
  ~ (exists p,
        BackendContext.provider (NF := integerFormat)
          (BackendContext.switchBackend freshLocal js None)
        = Ok (BackendContext.Remote p)) /\
  fst (BackendContext.switchAndCheck (NF := integerFormat)
         freshLocal js None (fun _ => Http.Rejects (Some "Failed to fetch"))) = [] /\
  BackendContext.connected
    (snd (BackendContext.switchAndCheck (NF := integerFormat)
            freshLocal js None (fun _ => Http.Rejects (Some "Failed to fetch"))))
    = Some true.
Proof.
  split; [reflexivity|]. split; [|split; reflexivity].
  intros [p Hp]. discriminate Hp.
Qed.

Section Selector.

Import Http BackendContext BackendAsync.

Lemma checkConnection_phases {NF : NumberFormat} (s : State) (fetch : Fetch) :
  checkConnection s fetch
  = match checkStart s with
    | (None, s') => ([], s')
    | (Some req, s') => ([req], checkSettle (fetch req) s')
    end.
Proof.
  unfold checkConnection, checkStart.
  destruct (BackendId_eqb (backendId s) local || BackendId_eqb (backendId s) js);
    [reflexivity|].
  cbv zeta. destruct (fetch _) as [res|m]; simpl; [destruct (ok res)|]; reflexivity.
Qed.

Lemma checkStart_remote (s : State) (u : string) :
  backendId s = rust \/ backendId s = go ->
  backends_url s (backendId s) = Some u ->
  checkStart s
  = (Some (healthRequest u),
     {| backendId := backendId s; urlOverrides := urlOverrides s;
        connected := connected s; connectionError := connectionError s;
        checking := true |}).
Proof.
  intros Hid Hu. unfold checkStart. rewrite Hu.
  destruct Hid as [Hid|Hid]; rewrite Hid; reflexivity.
Qed.

(** The settle step writes into the state the context is in by then: a
    check started for rust that fails after the user went back to local
    leaves local marked as disconnected. *)
Example stale_check_overwrites :
  let started := checkStart (initialState rust (fun _ => None)) in
  let switched := switchBackend (snd started) local None in
  fst started = Some (healthRequest "http://localhost:8082") /\
  connected switched = Some true /\
  backendId (checkSettle (NF := integerFormat) (Rejects None) switched) = local /\
  connected (checkSettle (NF := integerFormat) (Rejects None) switched) = Some false.
Proof. repeat split. Qed.

(** C3, amended.  [switchBackend] to local sets Connected itself, and no
    health-check request is issued for local.  For js the provider is the
    local one as well and no request is issued; for rust and go a
    [RemoteProvider] for that backend and its URL is built.  For rust,
    go and js [switchBackend] resets [connected] to [null].  The
    connection check runs after the switch exactly when the backend id
    changed or a custom URL was given for a backend other than local;
    otherwise the state stays as
    [switchBackend] left it and nothing is requested.  When the check
    runs, js becomes connected without a request, and for rust and go
    exactly one request goes to [{url}/health] with a timeout of 5000 ms,
    [checking] being set meanwhile; when that request settles in the
    state the check left, the backend is connected when the response is
    ok, and otherwise disconnected with the message "Health check
    returned <status>", the message of the error [fetch] failed with, or
    "Cannot reach backend". *)
Theorem switchBackend_connectivity :
  forall (NF : NumberFormat) (s : State) (id : BackendId)
         (customUrl : option string) (fetch : Fetch),
    let s1 := switchBackend s id customUrl in
    backendId s1 = id /\
    connected s1 = (if BackendId_eqb id local then Some true else None) /\
    connectionError s1 = None /\
    (id = local \/ id = js -> provider s1 = Ok LocalProvider) /\
    (id = rust \/ id = go ->
     exists u,
       backends_url s1 id = Some u /\
       provider s1
         = Ok (Remote
                 {| RemoteProvider.backendId := id;
                    RemoteProvider.capabilities :=
                      match RemoteProvider.REMOTE_CAPS id with
                      | Some c => c
                      | None => mkCaps true true true true true true true true
                      end;
                    RemoteProvider.baseUrl := RemoteProvider.stripTrailingSlashes u;
                    RemoteProvider.adapter := Adapters.ADAPTERS id |})) /\
    (effectRuns s id customUrl = true <->
     id <> backendId s \/ overrides id customUrl = true) /\
    (effectRuns s id customUrl = false ->
     switchAndCheck s id customUrl fetch = ([], s1)) /\
    (effectRuns s id customUrl = true ->
     (id = local \/ id = js ->
      fst (switchAndCheck s id customUrl fetch) = [] /\
      connected (snd (switchAndCheck s id customUrl fetch)) = Some true /\
      connectionError (snd (switchAndCheck s id customUrl fetch)) = None) /\
     (id = rust \/ id = go ->
      exists u,
        backends_url s1 id = Some u /\
        fst (checkStart s1) = Some (healthRequest u) /\
        connected (snd (checkStart s1)) = None /\
        checking (snd (checkStart s1)) = true /\
        switchAndCheck s id customUrl fetch
          = ([healthRequest u],
             checkSettle (fetch (healthRequest u)) (snd (checkStart s1))) /\
        match fetch (healthRequest u) with
        | Resolves res =>
            if ok res then
              connected (snd (switchAndCheck s id customUrl fetch)) = Some true /\
              connectionError (snd (switchAndCheck s id customUrl fetch)) = None
            else
              connected (snd (switchAndCheck s id customUrl fetch)) = Some false /\
              connectionError (snd (switchAndCheck s id customUrl fetch))
                = Some ("Health check returned "
                          ++ Number_toString (inject_Z (status res)))%string
        | Rejects m =>
            connected (snd (switchAndCheck s id customUrl fetch)) = Some false /\
            connectionError (snd (switchAndCheck s id customUrl fetch))
              = Some (match m with
                      | Some msg => msg
                      | None => "Cannot reach backend"
                      end)
        end)).
Proof.
  intros NF s id customUrl fetch s1.
  assert (Hurl : id = rust \/ id = go -> exists u, backends_url s1 id = Some u).
  { intros Hid. unfold backends_url.
    destruct (urlOverrides s1 id) as [u|]; [now exists u|].
    destruct Hid as [Hid|Hid]; subst id; eexists; reflexivity. }
  split; [reflexivity|]. split; [reflexivity|]. split; [reflexivity|].
  split.
  { intros [Hid|Hid]; subst id; reflexivity. }
  split.
  { intros Hid. destruct (Hurl Hid) as [u Hu]. exists u. split; [exact Hu|].
    unfold provider. change (backendId s1) with id. rewrite Hu.
    destruct Hid as [Hid|Hid]; subst id; reflexivity. }
  split.
  { unfold effectRuns. rewrite orb_true_iff, negb_true_iff.
    assert (Heq : BackendId_eqb id (backendId s) = false <-> id <> backendId s).
    { destruct id, (backendId s); simpl; split; intro H;
        try discriminate; try reflexivity; try (now elim H). }
    now rewrite Heq. }
  split.
  { intros Hrun. unfold switchAndCheck. now rewrite Hrun. }
  intros Hrun. unfold switchAndCheck. rewrite Hrun.
  split.
  - intros [Hid|Hid]; subst id; repeat split; reflexivity.
  - intros Hid. destruct (Hurl Hid) as [u Hu]. exists u. split; [exact Hu|].
    subst s1. rewrite checkConnection_phases.
    rewrite !(checkStart_remote (switchBackend s id customUrl) u Hid Hu).
    cbn [fst snd connected checking].
    split; [reflexivity|].
    split; [destruct Hid as [Hid|Hid]; subst id; reflexivity|].
    split; [reflexivity|]. split; [reflexivity|].
    destruct (fetch (healthRequest u)) as [res|m]; simpl.
    + destruct (ok res); split; reflexivity.
    + split; reflexivity.
Qed.

Lemma switchBackend_connectivity_witness :
  fst (switchAndCheck (NF := integerFormat) freshLocal rust None (answering healthy))
    = [healthRequest "http://localhost:8082"] /\
  connected (snd (switchAndCheck (NF := integerFormat)
                    freshLocal rust None (answering healthy))) = Some true.
Proof.
  destruct (switchBackend_connectivity integerFormat freshLocal rust None
              (answering healthy))
    as (_ & _ & _ & _ & _ & _ & _ & Hrun).
  destruct (Hrun eq_refl) as [_ Hremote].
  destruct (Hremote (or_introl eq_refl)) as (u & Hu & _ & _ & _ & Heq & Hres).
  inversion Hu; subst u. simpl in Hres.
  split; [now rewrite Heq | exact (proj1 Hres)].
Defined.

End Selector.

(* ===================================================================== *)
(** * Further properties: the search *)
(* ===================================================================== *)

Module WindowFacts.

Import ChessAI.

Lemma Finite_eq (x y : Z) : Finite x = Finite y <-> x = y.
Proof. split; [now intros [= ->] | now intros ->]. Qed.

Lemma Finite_NegInfinity (x : Z) : Finite x = NegInfinity <-> False.
Proof. split; [discriminate | tauto]. Qed.

Lemma Finite_Infinity (x : Z) : Finite x = Infinity <-> False.
Proof. split; [discriminate | tauto]. Qed.

Lemma NegInfinity_Finite (x : Z) : NegInfinity = Finite x <-> False.
Proof. split; [discriminate | tauto]. Qed.

Lemma Infinity_Finite (x : Z) : Infinity = Finite x <-> False.
Proof. split; [discriminate | tauto]. Qed.

Lemma NegInfinity_Infinity : NegInfinity = Infinity <-> False.
Proof. split; [discriminate | tauto]. Qed.

Lemma Infinity_NegInfinity : Infinity = NegInfinity <-> False.
Proof. split; [discriminate | tauto]. Qed.

Lemma false_true : false = true <-> False.
Proof. split; [discriminate | tauto]. Qed.

Lemma same_eq {A : Type} (x : A) : x = x <-> True.
Proof. tauto. Qed.

(** After a case split on the scores everything is a proposition over
    integers. *)
Ltac num_finish :=
  simpl in *;
  repeat match goal with
         | H : context [Finite _ = Finite _] |- _ => rewrite Finite_eq in H
         | H : context [Finite _ = NegInfinity] |- _ => rewrite Finite_NegInfinity in H
         | H : context [Finite _ = Infinity] |- _ => rewrite Finite_Infinity in H
         | H : context [NegInfinity = Finite _] |- _ => rewrite NegInfinity_Finite in H
         | H : context [Infinity = Finite _] |- _ => rewrite Infinity_Finite in H
         | H : context [NegInfinity = Infinity] |- _ => rewrite NegInfinity_Infinity in H
         | H : context [Infinity = NegInfinity] |- _ => rewrite Infinity_NegInfinity in H
         | |- context [Finite _ = Finite _] => rewrite Finite_eq
         | |- context [Finite _ = NegInfinity] => rewrite Finite_NegInfinity
         | |- context [Finite _ = Infinity] => rewrite Finite_Infinity
         | |- context [NegInfinity = Finite _] => rewrite NegInfinity_Finite
         | |- context [Infinity = Finite _] => rewrite Infinity_Finite
         | |- context [NegInfinity = Infinity] => rewrite NegInfinity_Infinity
         | |- context [Infinity = NegInfinity] => rewrite Infinity_NegInfinity
         end;
  try tauto; try lia.

Ltac num_cases :=
  unfold within, Num_le, Num_lt in *;
  repeat match goal with
         | x : Num |- _ => destruct x
         end;
  num_finish.

Lemma within_exact (v m : Num) : v = m -> forall a b, within a b v m.
Proof. intros -> a b. num_cases. Qed.

Lemma within_full (v m : Num) : within NegInfinity Infinity v m -> v = m.
Proof.
  unfold within, Num_le, Num_lt. intros (H1 & H2 & H3).
  destruct v, m; simpl in *; try reflexivity;
    try (specialize (H1 eq_refl); discriminate);
    try (specialize (H2 eq_refl); discriminate);
    try (apply H3; reflexivity).
Qed.

Lemma Num_le_refl (a : Num) : Num_le a a.
Proof. num_cases. Qed.

Lemma Num_le_trans (a b c : Num) : Num_le a b -> Num_le b c -> Num_le a c.
Proof. intros H1 H2. num_cases. Qed.

Lemma Num_le_max_l (a b : Num) : Num_le a (Num.max a b).
Proof. num_cases. Qed.

Lemma Num_min_le_l (a b : Num) : Num_le (Num.min a b) a.
Proof. num_cases. Qed.

Lemma Num_le_NegInfinity (a : Num) : Num_le a NegInfinity -> a = NegInfinity.
Proof. intro H. num_cases. Qed.

Lemma Num_ge_false (a b : Num) : Num.ge a b = false -> Num_lt a b.
Proof. intro H. num_cases. Qed.

Lemma Num_gt_false (a b : Num) : Num.gt a b = false -> Num_le a b.
Proof. intro H. num_cases. Qed.

Lemma Num_gt_le (a b : Num) : Num.gt a b = true -> Num_le b a.
Proof. intro H. num_cases. Qed.

Lemma Num_max_NegInfinity_r (a : Num) : Num.max a NegInfinity = a.
Proof. now destruct a. Qed.

Lemma Num_min_Infinity_r (a : Num) : Num.min a Infinity = a.
Proof. now destruct a. Qed.

Lemma max_alpha (a0 val c : Num) :
  Num.max (Num.max a0 val) (Num.max val c) = Num.max a0 (Num.max val c).
Proof. num_cases. Qed.

Lemma min_beta (b0 val c : Num) :
  Num.min (Num.min b0 val) (Num.min val c) = Num.min b0 (Num.min val c).
Proof. num_cases. Qed.

(** One more child at a maximizing node. *)
Lemma max_step (a0 b val mval c m : Num) :
  Num_lt (Num.max a0 val) b ->
  within a0 b val mval ->
  within (Num.max a0 val) b c m ->
  within a0 b (Num.max val c) (Num.max mval m).
Proof.
  intros H1 H2 H3. unfold within, Num_le, Num_lt in *.
  destruct a0, val, b; simpl in H1; try discriminate H1;
    destruct mval, c, m; num_finish.
Qed.

(** Leaving a maximizing node at a cut-off. *)
Lemma max_break (a0 b val mval M : Num) :
  Num_lt a0 b ->
  Num.ge (Num.max a0 val) b = true ->
  within a0 b val mval ->
  Num_le mval M ->
  within a0 b val M.
Proof. intros H1 H2 H3 H4. num_cases. Qed.

(** One more child at a minimizing node. *)
Lemma min_step (a b0 val mval c m : Num) :
  Num_lt a (Num.min b0 val) ->
  within a b0 val mval ->
  within a (Num.min b0 val) c m ->
  within a b0 (Num.min val c) (Num.min mval m).
Proof.
  intros H1 H2 H3. unfold within, Num_le, Num_lt in *.
  destruct a, val, b0; simpl in H1; try discriminate H1;
    destruct mval, c, m; num_finish.
Qed.

(** Leaving a minimizing node at a cut-off. *)
Lemma min_break (a b0 val mval M : Num) :
  Num_lt a b0 ->
  Num.ge a (Num.min b0 val) = true ->
  within a b0 val mval ->
  Num_le M mval ->
  within a b0 val M.
Proof. intros H1 H2 H3 H4. num_cases. Qed.

Lemma lt_max_lt (a0 val b : Num) : Num_lt (Num.max a0 val) b -> Num_lt a0 b.
Proof. intro H. num_cases. Qed.

Lemma lt_min_lt (a b0 val : Num) : Num_lt a (Num.min b0 val) -> Num_lt a b0.
Proof. intro H. num_cases. Qed.

Lemma Num_lt_trans (a b c : Num) : Num_lt a b -> Num_lt b c -> Num_lt a c.
Proof. intros H1 H2. num_cases. Qed.

Lemma Num_lt_le (a b : Num) : Num_lt a b -> Num_le a b.
Proof. intro H. num_cases. Qed.

Lemma Num_le_lt_trans (a b c : Num) : Num_le a b -> Num_lt b c -> Num_lt a c.
Proof. intros H1 H2. num_cases. Qed.

Section Window.

Variable E : Engine.

Hypothesis makeMove_undo :
  forall (s s' : St E) f t p m,
    makeMove s f t p = (Some m, s') -> snd (undo s') = s.

Hypothesis makeMove_null :
  forall (s s' : St E) f t p,
    makeMove s f t p = (None, s') -> s' = s.

Lemma maxStep_grows (pchild : St E -> Num) (s : St E) moves :
  forall acc, Num_le acc (fold_left (maxStep pchild s) moves acc).
Proof.
  induction moves as [|move rest IH]; intro acc; simpl.
  - apply Num_le_refl.
  - eapply Num_le_trans; [|apply IH].
    unfold maxStep. destruct (makeMove s _ _ _) as [[m|] s1].
    + apply Num_le_max_l.
    + apply Num_le_refl.
Qed.

Lemma minStep_shrinks (pchild : St E -> Num) (s : St E) moves :
  forall acc, Num_le (fold_left (minStep pchild s) moves acc) acc.
Proof.
  induction moves as [|move rest IH]; intro acc; simpl.
  - apply Num_le_refl.
  - eapply Num_le_trans; [apply IH|].
    unfold minStep. destruct (makeMove s _ _ _) as [[m|] s1].
    + apply Num_min_le_l.
    + apply Num_le_refl.
Qed.

Lemma maxLoop_within (child : St E -> Num -> Num -> Num * St E) (pchild : St E -> Num) :
  restoring child ->
  (forall s' a b, Num_lt a b -> within a b (fst (child s' a b)) (pchild s')) ->
  forall moves (s : St E) val mval a0 b,
    Num_lt (Num.max a0 val) b ->
    within a0 b val mval ->
    within a0 b (fst (maxLoop child moves s val (Num.max a0 val) b))
      (fold_left (maxStep pchild s) moves mval).
Proof.
  intros Hr Hc moves.
  induction moves as [|move rest IH]; intros s val mval a0 b Hlt Hw; simpl.
  - exact Hw.
  - unfold maxStep at 2.
    destruct (makeMove s (from move) (to move) (promotion move))
      as [[m|] s1] eqn:Hmk.
    + pose proof (Hr s1 (Num.max a0 val) b) as Hs.
      pose proof (Hc s1 (Num.max a0 val) b Hlt) as Hchild.
      destruct (child s1 (Num.max a0 val) b) as [c s2].
      simpl in Hs, Hchild. subst s2.
      rewrite (makeMove_undo _ _ _ _ _ _ Hmk).
      rewrite max_alpha.
      pose proof (max_step _ _ _ _ _ _ Hlt Hw Hchild) as Hw'.
      destruct (Num.ge (Num.max a0 (Num.max val c)) b) eqn:Hge.
      * simpl. eapply max_break; [eapply lt_max_lt; exact Hlt | exact Hge
                                 | exact Hw' | apply maxStep_grows].
      * apply IH; [now apply Num_ge_false | exact Hw'].
    + rewrite (makeMove_null _ _ _ _ _ Hmk). now apply IH.
Qed.

Lemma minLoop_within (child : St E -> Num -> Num -> Num * St E) (pchild : St E -> Num) :
  restoring child ->
  (forall s' a b, Num_lt a b -> within a b (fst (child s' a b)) (pchild s')) ->
  forall moves (s : St E) val mval a b0,
    Num_lt a (Num.min b0 val) ->
    within a b0 val mval ->
    within a b0 (fst (minLoop child moves s val a (Num.min b0 val)))
      (fold_left (minStep pchild s) moves mval).
Proof.
  intros Hr Hc moves.
  induction moves as [|move rest IH]; intros s val mval a b0 Hlt Hw; simpl.
  - exact Hw.
  - unfold minStep at 2.
    destruct (makeMove s (from move) (to move) (promotion move))
      as [[m|] s1] eqn:Hmk.
    + pose proof (Hr s1 a (Num.min b0 val)) as Hs.
      pose proof (Hc s1 a (Num.min b0 val) Hlt) as Hchild.
      destruct (child s1 a (Num.min b0 val)) as [c s2].
      simpl in Hs, Hchild. subst s2.
      rewrite (makeMove_undo _ _ _ _ _ _ Hmk).
      rewrite min_beta.
      pose proof (min_step _ _ _ _ _ _ Hlt Hw Hchild) as Hw'.
      destruct (Num.ge a (Num.min b0 (Num.min val c))) eqn:Hge.
      * simpl. eapply min_break; [eapply lt_min_lt; exact Hlt | exact Hge
                                 | exact Hw' | apply minStep_shrinks].
      * apply IH; [now apply Num_ge_false | exact Hw'].
    + rewrite (makeMove_null _ _ _ _ _ Hmk). now apply IH.
Qed.

Lemma minimax_within :
  forall depth (s : St E) alpha beta mc,
    Num_lt alpha beta ->
    within alpha beta (fst (minimax depth s alpha beta mc)) (plainMinimax depth s mc).
Proof.
  induction depth as [|depth' IH]; intros s alpha beta mc Hlt; simpl.
  - now apply within_exact.
  - destruct (isGameOver s); [now apply within_exact|].
    destruct (List.length (getLegalMoves s) =? 0)%nat; [now apply within_exact|].
    destruct (Color_eqb (getTurn s) mc).
    + pose proof (maxLoop_within
                    (fun s' a b => minimax depth' s' a b mc)
                    (fun s' => plainMinimax depth' s' mc)
                    (fun s' a b => SearchFacts.minimax_restores E makeMove_undo
                                     makeMove_null depth' s' a b mc)
                    (fun s' a b H => IH s' a b mc H)
                    (getLegalMoves s) s NegInfinity NegInfinity alpha beta) as H.
      rewrite Num_max_NegInfinity_r in H.
      apply H; [exact Hlt | now apply within_exact].
    + pose proof (minLoop_within
                    (fun s' a b => minimax depth' s' a b mc)
                    (fun s' => plainMinimax depth' s' mc)
                    (fun s' a b => SearchFacts.minimax_restores E makeMove_undo
                                     makeMove_null depth' s' a b mc)
                    (fun s' a b H => IH s' a b mc H)
                    (getLegalMoves s) s Infinity Infinity alpha beta) as H.
      rewrite Num_min_Infinity_r in H.
      apply H; [exact Hlt | now apply within_exact].
Qed.

Lemma minimax_full_window :
  forall depth (s : St E) mc,
    fst (minimax depth s NegInfinity Infinity mc) = plainMinimax depth s mc.
Proof.
  intros depth s mc. apply within_full. now apply minimax_within.
Qed.


(** What the root loop returns, with [bestMove] and [bestScore] the
    values on entry. *)
Lemma rootLoop_best depth' mc (s : St E) :
  forall ordered bestMove bestScore,
    match fst (rootLoop depth' mc ordered s bestMove bestScore) with
    | Some m =>
        (bestMove = Some m /\
         forall m' sc', In m' ordered ->
                        rootValue depth' mc s m' = Some sc' -> Num_le sc' bestScore)
        \/
        (In m ordered /\
         exists sc,
           rootValue depth' mc s m = Some sc /\ Num_lt bestScore sc /\
           forall m' sc', In m' ordered ->
                          rootValue depth' mc s m' = Some sc' -> Num_le sc' sc)
    | None =>
        bestMove = None /\
        forall m' sc', In m' ordered ->
                       rootValue depth' mc s m' = Some sc' -> Num_le sc' bestScore
    end.
Proof.
  induction ordered as [|move rest IH]; intros bm bs; simpl.
  - destruct bm as [m|]; [left|]; split; try reflexivity; intros m' sc' [].
  - destruct (makeMove s (from move) (to move) (promotion move))
      as [[mv|] s1] eqn:Hmk.
    + pose proof (minimax_full_window depth' s1 mc) as Hval.
      pose proof (SearchFacts.minimax_restores E makeMove_undo makeMove_null
                    depth' s1 NegInfinity Infinity mc) as Hst.
      destruct (minimax depth' s1 NegInfinity Infinity mc) as [score s2].
      simpl in Hval, Hst. subst s2 score.
      rewrite (makeMove_undo _ _ _ _ _ _ Hmk).
      assert (Hrv : rootValue depth' mc s move = Some (plainMinimax depth' s1 mc)).
      { unfold rootValue. now rewrite Hmk. }
      set (score := plainMinimax depth' s1 mc) in *.
      destruct (Num.gt score bs) eqn:Hgt.
      * specialize (IH (Some move) score).
        destruct (fst (rootLoop depth' mc rest s (Some move) score)) as [m|].
        -- right. destruct IH as [[Hm Hall]|(Hin & sc & Hsc & Hlt & Hall)].
           ++ injection Hm as <-. split; [now left|].
              exists score. split; [exact Hrv|]. split; [exact Hgt|].
              intros m' sc' [<-|Hin'] Hv.
              ** rewrite Hrv in Hv. injection Hv as <-. apply Num_le_refl.
              ** eapply Hall; eassumption.
           ++ split; [now right|]. exists sc. split; [exact Hsc|].
              split; [eapply Num_lt_trans; [exact Hgt | exact Hlt]|].
              intros m' sc' [<-|Hin'] Hv.
              ** rewrite Hrv in Hv. injection Hv as <-. now apply Num_lt_le.
              ** eapply Hall; eassumption.
        -- destruct IH as [Hm _]. discriminate Hm.
      * apply Num_gt_false in Hgt. specialize (IH bm bs).
        destruct (fst (rootLoop depth' mc rest s bm bs)) as [m|].
        -- destruct IH as [[Hm Hall]|(Hin & sc & Hsc & Hlt & Hall)].
           ++ left. split; [exact Hm|].
              intros m' sc' [<-|Hin'] Hv.
              ** rewrite Hrv in Hv. injection Hv as <-. exact Hgt.
              ** eapply Hall; eassumption.
           ++ right. split; [now right|]. exists sc. split; [exact Hsc|].
              split; [exact Hlt|].
              intros m' sc' [<-|Hin'] Hv.
              ** rewrite Hrv in Hv. injection Hv as <-.
                 apply Num_lt_le. eapply Num_le_lt_trans; eassumption.
              ** eapply Hall; eassumption.
        -- destruct IH as [Hm Hall]. split; [exact Hm|].
           intros m' sc' [<-|Hin'] Hv.
           ++ rewrite Hrv in Hv. injection Hv as <-. exact Hgt.
           ++ eapply Hall; eassumption.
    + rewrite (makeMove_null _ _ _ _ _ Hmk).
      assert (Hrv : rootValue depth' mc s move = None).
      { unfold rootValue. now rewrite Hmk. }
      specialize (IH bm bs).
      destruct (fst (rootLoop depth' mc rest s bm bs)) as [m|].
      * destruct IH as [[Hm Hall]|(Hin & sc & Hsc & Hlt & Hall)].
        -- left. split; [exact Hm|].
           intros m' sc' [<-|Hin'] Hv; [congruence | eapply Hall; eassumption].
        -- right. split; [now right|]. exists sc. split; [exact Hsc|].
           split; [exact Hlt|].
           intros m' sc' [<-|Hin'] Hv; [congruence | eapply Hall; eassumption].
      * destruct IH as [Hm Hall]. split; [exact Hm|].
        intros m' sc' [<-|Hin'] Hv; [congruence | eapply Hall; eassumption].
Qed.

End Window.

(** ** The ordering of the root moves *)

Lemma insertByCapture_perm a l : Permutation (insertByCapture a l) (a :: l).
Proof.
  induction l as [|b l IH]; simpl.
  - apply Permutation_refl.
  - destruct (capOf b - capOf a <=? 0).
    + apply Permutation_refl.
    + eapply Permutation_trans; [apply perm_skip, IH | apply perm_swap].
Qed.

Lemma sortByCapture_perm l : Permutation (sortByCapture l) l.
Proof.
  induction l as [|a l IH]; simpl.
  - apply perm_nil.
  - eapply Permutation_trans; [apply insertByCapture_perm | now apply perm_skip].
Qed.

Lemma insertByCapture_sorted a l :
  StronglySorted capGe l -> StronglySorted capGe (insertByCapture a l).
Proof.
  induction l as [|b l IH]; intro Hs; simpl.
  - constructor; [constructor | constructor].
  - destruct (capOf b - capOf a <=? 0) eqn:Hc.
    + apply Z.leb_le in Hc. constructor; [exact Hs|].
      constructor; [unfold capGe; lia|].
      inversion Hs as [|? ? _ Hall]; subst.
      eapply Forall_impl; [|exact Hall]. unfold capGe. intros c Hcge. lia.
    + apply Z.leb_gt in Hc.
      inversion Hs as [|? ? Hs' Hall]; subst.
      constructor; [now apply IH|].
      eapply Permutation_Forall;
        [apply Permutation_sym, insertByCapture_perm|].
      constructor; [unfold capGe; lia | exact Hall].
Qed.

Lemma sortByCapture_sorted l : StronglySorted capGe (sortByCapture l).
Proof.
  induction l as [|a l IH]; simpl; [constructor | now apply insertByCapture_sorted].
Qed.

Lemma insertByCapture_filter k a l :
  StronglySorted capGe l ->
  filter (fun m => capOf m =? k) (insertByCapture a l)
  = filter (fun m => capOf m =? k) (a :: l).
Proof.
  induction l as [|b l IH]; intro Hs; simpl.
  - reflexivity.
  - destruct (capOf b - capOf a <=? 0) eqn:Hc; [reflexivity|].
    apply Z.leb_gt in Hc. simpl.
    inversion Hs as [|? ? Hs' Hall]; subst.
    simpl in IH. rewrite (IH Hs').
    destruct (capOf a =? k) eqn:Ha; destruct (capOf b =? k) eqn:Hb; try reflexivity.
    apply Z.eqb_eq in Ha, Hb. lia.
Qed.

Lemma sortByCapture_stable k l :
  filter (fun m => capOf m =? k) (sortByCapture l)
  = filter (fun m => capOf m =? k) l.
Proof.
  induction l as [|a l IH]; simpl; [reflexivity|].
  rewrite insertByCapture_filter by apply sortByCapture_sorted.
  simpl. now rewrite IH.
Qed.

End WindowFacts.

(** ** What the search returns *)

(** X1.  The ordered move list of [computeBestMove] is a rearrangement of
    the legal moves (none lost, none added), runs by descending capture
    value, and keeps moves of equal capture value, the non-capturing
    ones among them, in the order the engine listed them. *)
Theorem sortByCapture_stable_descending :
  forall (l : list ChessMove),
    Permutation (ChessAI.sortByCapture l) l /\
    StronglySorted capGe (ChessAI.sortByCapture l) /\
    (forall k : Z,
        filter (fun m => ChessAI.capOf m =? k) (ChessAI.sortByCapture l)
        = filter (fun m => ChessAI.capOf m =? k) l).
Proof.
  intro l. split; [apply WindowFacts.sortByCapture_perm|].
  split; [apply WindowFacts.sortByCapture_sorted|].
  intro k. apply WindowFacts.sortByCapture_stable.
Qed.

(** X2.  Against an engine with make/undo symmetry, [minimax] called
    with [alpha < beta] answers for the plain minimax value of the node:
    a result strictly inside the window is that value, a result at or
    below [alpha] is an upper bound of it, a result at or above [beta] a
    lower bound.  With the full window, as at the root, the result is the
    plain minimax value: the cut-offs change no score. *)
Theorem minimax_window_sound :
  forall (E : Engine),
    (forall (s s' : St E) f t p m,
        makeMove s f t p = (Some m, s') -> snd (undo s') = s) ->
    (forall (s s' : St E) f t p,
        makeMove s f t p = (None, s') -> s' = s) ->
    forall (depth : nat) (s : St E) (alpha beta : Num) (maximizingColor : Color),
      Num_lt alpha beta ->
      within alpha beta
        (fst (ChessAI.minimax depth s alpha beta maximizingColor))
        (plainMinimax depth s maximizingColor) /\
      fst (ChessAI.minimax depth s NegInfinity Infinity maximizingColor)
        = plainMinimax depth s maximizingColor.
Proof.
  intros E Hundo Hnull depth s alpha beta mc Hlt. split.
  - now apply WindowFacts.minimax_within.
  - now apply WindowFacts.minimax_full_window.
Qed.

Lemma minimax_window_sound_witness :
  within (Finite 0) (Finite 100)
    (fst (ChessAI.minimax (E := Toy.engine) 2 [] (Finite 0) (Finite 100) white))
    (plainMinimax (E := Toy.engine) 2 [] white) /\
  fst (ChessAI.minimax (E := Toy.engine) 2 [] NegInfinity Infinity white)
    = plainMinimax (E := Toy.engine) 2 [] white.
Proof.
  apply (minimax_window_sound Toy.engine Toy_makeMove_undo Toy_makeMove_null
           2 [] (Finite 0) (Finite 100) white).
  reflexivity.
Defined.

Lemma computeBestMove_rootLoop {E : Engine} (s : St E) level rnd :
  ChessAI.depthForLevel level <> 0%nat ->
  ChessAI.computeBestMove s level rnd
  = ChessAI.rootLoop
      (spec_effectiveDepth level (List.length (getLegalMoves s)) - 1)
      (getTurn s) (ChessAI.sortByCapture (getLegalMoves s)) s None NegInfinity.
Proof.
  intro Hd. unfold ChessAI.computeBestMove, spec_effectiveDepth.
  destruct level; simpl in *; try (now elim Hd); try reflexivity;
    destruct (60 <? List.length (getLegalMoves s))%nat; reflexivity.
Qed.

(** X3.  At depth 1 and more, against an engine with make/undo symmetry,
    the move [computeBestMove] returns is a legal move whose position has
    a plain minimax value above [-Infinity] that no other applied legal
    move exceeds; [null] is returned exactly when no applied legal move
    scores above [-Infinity], which happens with legal moves on the board
    when every one of them loses by force within the search depth. *)
Theorem computeBestMove_is_optimal :
  forall (E : Engine),
    (forall (s s' : St E) f t p m,
        makeMove s f t p = (Some m, s') -> snd (undo s') = s) ->
    (forall (s s' : St E) f t p,
        makeMove s f t p = (None, s') -> s' = s) ->
    forall (s : St E) (level : AIDifficulty) (rnd : Q),
      ChessAI.depthForLevel level <> 0%nat ->
      match fst (ChessAI.computeBestMove s level rnd) with
      | Some m =>
          In m (getLegalMoves s) /\
          exists sc,
            rootValue (spec_effectiveDepth level (List.length (getLegalMoves s)) - 1)
              (getTurn s) s m = Some sc /\
            sc <> NegInfinity /\
            forall m' sc',
              In m' (getLegalMoves s) ->
              rootValue (spec_effectiveDepth level (List.length (getLegalMoves s)) - 1)
                (getTurn s) s m' = Some sc' ->
              Num_le sc' sc
      | None =>
          forall m' sc',
            In m' (getLegalMoves s) ->
            rootValue (spec_effectiveDepth level (List.length (getLegalMoves s)) - 1)
              (getTurn s) s m' = Some sc' ->
            sc' = NegInfinity
      end.
Proof.
  intros E Hundo Hnull s level rnd Hd.
  rewrite (computeBestMove_rootLoop s level rnd Hd).
  pose proof (WindowFacts.rootLoop_best E Hundo Hnull
                (spec_effectiveDepth level (List.length (getLegalMoves s)) - 1)
                (getTurn s) s (ChessAI.sortByCapture (getLegalMoves s))
                None NegInfinity) as H.
  pose proof (WindowFacts.sortByCapture_perm (getLegalMoves s)) as Hperm.
  destruct (fst (ChessAI.rootLoop _ _ _ s None NegInfinity)) as [m|].
  - destruct H as [[Hm _]|(Hin & sc & Hsc & Hlt & Hall)]; [discriminate Hm|].
    split; [eapply Permutation_in; eassumption|].
    exists sc. split; [exact Hsc|]. split.
    + intros ->. discriminate Hlt.
    + intros m' sc' Hin' Hv. eapply Hall; [|exact Hv].
      eapply Permutation_in; [apply Permutation_sym|]; eassumption.
  - destruct H as [_ Hall]. intros m' sc' Hin' Hv.
    apply WindowFacts.Num_le_NegInfinity. eapply Hall; [|exact Hv].
    eapply Permutation_in; [apply Permutation_sym|]; eassumption.
Qed.

Lemma computeBestMove_is_optimal_witness :
  fst (ChessAI.computeBestMove (E := Toy.engine) [Toy.quiet] medium (1 # 2)) = None /\
  getLegalMoves (e := Toy.engine) [Toy.quiet] = [Toy.quiet; Toy.capture] /\
  forall m' sc',
    In m' (getLegalMoves (e := Toy.engine) [Toy.quiet]) ->
    rootValue (E := Toy.engine) 1 black [Toy.quiet] m' = Some sc' ->
    sc' = NegInfinity.
Proof.
  split; [reflexivity|]. split; [reflexivity|].
  exact (computeBestMove_is_optimal Toy.engine Toy_makeMove_undo Toy_makeMove_null
           [Toy.quiet] medium (1 # 2) ltac:(discriminate)).
Defined.

Lemma rootLoop_member {E : Engine} depth' mc :
  forall ordered (s : St E) bestMove bestScore m,
    fst (ChessAI.rootLoop depth' mc ordered s bestMove bestScore) = Some m ->
    bestMove = Some m \/ In m ordered.
Proof.
  induction ordered as [|move rest IH]; intros s bm bs m; simpl.
  - now left.
  - destruct (makeMove s (from move) (to move) (promotion move)) as [[mv|] s1].
    + destruct (ChessAI.minimax depth' s1 NegInfinity Infinity mc) as [score s2].
      destruct (Num.gt score bs); intro H; apply IH in H.
      * destruct H as [H|H]; [injection H as <-; right; now left | right; now right].
      * destruct H as [H|H]; [now left | right; now right].
    + intro H. apply IH in H. destruct H as [H|H]; [now left | right; now right].
Qed.

Lemma computeBestMove_member {E : Engine} (s : St E) level rnd m :
  fst (ChessAI.computeBestMove s level rnd) = Some m -> In m (getLegalMoves s).
Proof.
  destruct (Nat.eq_dec (ChessAI.depthForLevel level) 0) as [Hd|Hd].
  - unfold ChessAI.computeBestMove. rewrite Hd. cbn [Nat.eqb].
    destruct (List.length (getLegalMoves s) =? 0)%nat; cbn [fst];
      [discriminate | apply arrayGet_In].
  - rewrite (computeBestMove_rootLoop s level rnd Hd). intro H.
    apply rootLoop_member in H. destruct H as [H|H]; [discriminate H|].
    eapply Permutation_in; [apply WindowFacts.sortByCapture_perm | exact H].
Qed.

(** X4.  At every tier and against any engine, a move returned by
    [computeBestMove] is one of the legal moves of the root position. *)
Theorem computeBestMove_returns_legal_move :
  forall (E : Engine) (s : St E) (level : AIDifficulty) (rnd : Q) (m : ChessMove),
    fst (ChessAI.computeBestMove s level rnd) = Some m ->
    In m (getLegalMoves s).
Proof.
  intros E s level rnd m. apply computeBestMove_member.
Qed.

Lemma computeBestMove_returns_legal_move_witness :
  In Toy.capture (getLegalMoves (e := Toy.engine) []).
Proof.
  exact (computeBestMove_returns_legal_move Toy.engine [] medium (1 # 2)
           Toy.capture eq_refl).
Defined.

Lemma materialSum_opponent board mc :
  spec_materialSum board (opponent mc) = - spec_materialSum board mc.
Proof.
  unfold spec_materialSum.
  induction (piecesOf board) as [|p ps IH]; simpl; [reflexivity|].
  rewrite IH. destruct (color p), mc; simpl; lia.
Qed.

Lemma evaluate_opponent {E : Engine} (s : St E) mc :
  ChessAI.evaluate s (opponent mc) = Num_neg (ChessAI.evaluate s mc).
Proof.
  unfold ChessAI.evaluate. rewrite !board_loop_sum, !Z.add_0_l.
  rewrite materialSum_opponent.
  destruct (isGameOver s); [|reflexivity].
  cbv zeta.
  destruct (ChessEngine.getResult s =s "1-0"); [now destruct mc|].
  destruct (ChessEngine.getResult s =s "0-1"); [now destruct mc|].
  reflexivity.
Qed.

Lemma Num_max_neg (a b : Num) : Num.max (Num_neg a) (Num_neg b) = Num_neg (Num.min a b).
Proof. WindowFacts.num_cases. Qed.

Lemma Num_min_neg (a b : Num) : Num.min (Num_neg a) (Num_neg b) = Num_neg (Num.max a b).
Proof. WindowFacts.num_cases. Qed.

Lemma fold_maxStep_neg {E : Engine} (p q : St E -> Num) (s : St E) :
  (forall s1, q s1 = Num_neg (p s1)) ->
  forall moves acc,
    fold_left (maxStep q s) moves (Num_neg acc)
    = Num_neg (fold_left (minStep p s) moves acc).
Proof.
  intros Hq moves. induction moves as [|move rest IH]; intro acc; simpl.
  - reflexivity.
  - unfold maxStep at 2, minStep at 2.
    destruct (makeMove s _ _ _) as [[m|] s1].
    + rewrite Hq, Num_max_neg. apply IH.
    + apply IH.
Qed.

Lemma fold_minStep_neg {E : Engine} (p q : St E -> Num) (s : St E) :
  (forall s1, q s1 = Num_neg (p s1)) ->
  forall moves acc,
    fold_left (minStep q s) moves (Num_neg acc)
    = Num_neg (fold_left (maxStep p s) moves acc).
Proof.
  intros Hq moves. induction moves as [|move rest IH]; intro acc; simpl.
  - reflexivity.
  - unfold maxStep at 2, minStep at 2.
    destruct (makeMove s _ _ _) as [[m|] s1].
    + rewrite Hq, Num_min_neg. apply IH.
    + apply IH.
Qed.

Lemma Color_eqb_opponent a mc : Color_eqb a (opponent mc) = negb (Color_eqb a mc).
Proof. now destruct a, mc. Qed.

Lemma plainMinimax_opponent {E : Engine} :
  forall depth (s : St E) mc,
    plainMinimax depth s (opponent mc) = Num_neg (plainMinimax depth s mc).
Proof.
  induction depth as [|depth' IH]; intros s mc; simpl.
  - apply evaluate_opponent.
  - destruct (isGameOver s); [apply evaluate_opponent|].
    destruct (List.length (getLegalMoves s) =? 0)%nat; [apply evaluate_opponent|].
    rewrite Color_eqb_opponent.
    destruct (Color_eqb (getTurn s) mc); simpl.
    + apply (fold_minStep_neg (fun s1 => plainMinimax depth' s1 mc)
               (fun s1 => plainMinimax depth' s1 (opponent mc)) s
               (fun s1 => IH s1 mc) (getLegalMoves s) NegInfinity).
    + apply (fold_maxStep_neg (fun s1 => plainMinimax depth' s1 mc)
               (fun s1 => plainMinimax depth' s1 (opponent mc)) s
               (fun s1 => IH s1 mc) (getLegalMoves s) Infinity).
Qed.

(** X5.  The evaluation and the search are zero-sum: evaluating or
    searching a position for the other colour gives the negated score. *)
Theorem search_is_zero_sum :
  forall (E : Engine),
    (forall (s s' : St E) f t p m,
        makeMove s f t p = (Some m, s') -> snd (undo s') = s) ->
    (forall (s s' : St E) f t p,
        makeMove s f t p = (None, s') -> s' = s) ->
    forall (depth : nat) (s : St E) (maximizingColor : Color),
      ChessAI.evaluate s (opponent maximizingColor)
        = Num_neg (ChessAI.evaluate s maximizingColor) /\
      fst (ChessAI.minimax depth s NegInfinity Infinity (opponent maximizingColor))
        = Num_neg (fst (ChessAI.minimax depth s NegInfinity Infinity maximizingColor)).
Proof.
  intros E Hundo Hnull depth s mc. split; [apply evaluate_opponent|].
  rewrite !(WindowFacts.minimax_full_window E Hundo Hnull). apply plainMinimax_opponent.
Qed.

Lemma search_is_zero_sum_witness :
  ChessAI.evaluate (E := Toy.engine) [Toy.capture] black
    = Num_neg (ChessAI.evaluate (E := Toy.engine) [Toy.capture] white) /\
  fst (ChessAI.minimax (E := Toy.engine) 2 [Toy.capture] NegInfinity Infinity black)
    = Num_neg (fst (ChessAI.minimax (E := Toy.engine) 2 [Toy.capture]
                      NegInfinity Infinity white)).
Proof.
  exact (search_is_zero_sum Toy.engine Toy_makeMove_undo Toy_makeMove_null
           2 [Toy.capture] white).
Defined.

(** X6.  [evaluate] is [Infinity] exactly in a finished game whose status
    is "checkmate" with the opponent of the maximizing colour to move,
    and [-Infinity] exactly in one with the maximizing colour to move:
    the side to move in a mate is the side that lost. *)
Theorem evaluate_mate_sign :
  forall (E : Engine) (s : St E) (maximizingColor : Color),
    (ChessAI.evaluate s maximizingColor = Infinity <->
     isGameOver s = true /\ getStatus s = "checkmate" /\
     getTurn s = opponent maximizingColor) /\
    (ChessAI.evaluate s maximizingColor = NegInfinity <->
     isGameOver s = true /\ getStatus s = "checkmate" /\
     getTurn s = maximizingColor).
Proof.
  intros E s mc. unfold ChessAI.evaluate, ChessEngine.getResult.
  rewrite board_loop_sum, Z.add_0_l. cbv zeta.
  destruct (isGameOver s).
  2:{ split; split; try discriminate; intros (H & _); discriminate H. }
  destruct (getStatus s =s "checkmate") eqn:Hst.
  - apply String.eqb_eq in Hst. rewrite Hst.
    destruct (getTurn s), mc; simpl; split; split;
      try discriminate; try (intros _; repeat split; reflexivity);
      intros (_ & _ & H); discriminate H.
  - assert (Hne : getStatus s <> "checkmate")
      by (intro H; rewrite H in Hst; discriminate Hst).
    destruct (_ || _); simpl; split; split; try discriminate;
      intros (_ & H & _); now elim Hne.
Qed.

(* ===================================================================== *)
(** * Further properties: ChessEngine coordinates *)
(* ===================================================================== *)

Lemma decimal_digit (r : Z) :
  0 <= r <= 9 ->
  Coords.decimal r = String (ascii_of_nat (Z.to_nat (48 + r))) EmptyString.
Proof.
  intro H.
  assert (Hr : r = 0 \/ r = 1 \/ r = 2 \/ r = 3 \/ r = 4 \/ r = 5 \/ r = 6
               \/ r = 7 \/ r = 8 \/ r = 9) by lia.
  repeat (destruct Hr as [->|Hr]; [reflexivity|]). subst r. reflexivity.
Qed.

Lemma parseDigit_digit (r : Z) :
  0 <= r <= 9 ->
  Coords.parseDigit (ascii_of_nat (Z.to_nat (48 + r))) = Some r.
Proof.
  intro H.
  assert (Hr : r = 0 \/ r = 1 \/ r = 2 \/ r = 3 \/ r = 4 \/ r = 5 \/ r = 6
               \/ r = 7 \/ r = 8 \/ r = 9) by lia.
  repeat (destruct Hr as [->|Hr]; [reflexivity|]). subst r. reflexivity.
Qed.

(** X7.  For a row from 0 to 8 and a column whose letter code is a
    character, [squareToCoords(coordsToSquare(row, col))] is
    [{row, col}]; the board coordinates 0..7 are among them. *)
Theorem coords_round_trip :
  forall (row_ col_ : Z),
    0 <= row_ <= 8 -> -97 <= col_ <= 158 ->
    exists square,
      Coords.coordsToSquare row_ col_ = Some square /\
      Coords.squareToCoords square
        = {| Coords.row := Some row_; Coords.col := Some col_ |}.
Proof.
  intros r c Hr Hc. unfold Coords.coordsToSquare.
  rewrite Z.mod_small by lia.
  destruct (97 + c <? 256) eqn:Hlt; [|apply Z.ltb_ge in Hlt; lia].
  eexists. split; [reflexivity|].
  rewrite (decimal_digit (r + 1)) by lia.
  unfold Coords.squareToCoords.
  rewrite nat_ascii_embedding by lia.
  rewrite parseDigit_digit by lia.
  f_equal; f_equal; lia.
Qed.

Lemma coords_round_trip_witness :
  Coords.coordsToSquare 3 4 = Some "e4" /\
  Coords.squareToCoords "e4" = {| Coords.row := Some 3; Coords.col := Some 4 |}.
Proof.
  destruct (coords_round_trip 3 4 ltac:(lia) ltac:(lia)) as (sq & Hsq & Hback).
  split; [reflexivity|].
  assert (Heq : sq = "e4") by (compute in Hsq; now inversion Hsq).
  now rewrite <- Heq.
Defined.

(** X8.  For a square written as one character followed by one digit,
    [coordsToSquare] applied to the row and column of [squareToCoords]
    gives the square back. *)
Theorem square_round_trip :
  forall (f d : ascii),
    (48 <= nat_of_ascii d <= 57)%nat ->
    exists r c,
      Coords.squareToCoords (String f (String d EmptyString))
        = {| Coords.row := Some r; Coords.col := Some c |} /\
      Coords.coordsToSquare r c = Some (String f (String d EmptyString)).
Proof.
  intros f d Hd.
  pose proof (nat_ascii_bounded f) as Hf.
  unfold Coords.squareToCoords, Coords.parseDigit.
  destruct ((48 <=? nat_of_ascii d)%nat && (nat_of_ascii d <=? 57)%nat) eqn:Hb.
  2:{ apply andb_false_iff in Hb.
      destruct Hb as [Hb|Hb]; [apply Nat.leb_gt in Hb | apply Nat.leb_gt in Hb]; lia. }
  eexists. eexists. split; [reflexivity|].
  unfold Coords.coordsToSquare.
  replace (97 + (Z.of_nat (nat_of_ascii f) - 97)) with (Z.of_nat (nat_of_ascii f)) by lia.
  rewrite Z.mod_small by lia.
  destruct (Z.of_nat (nat_of_ascii f) <? 256) eqn:Hlt; [|apply Z.ltb_ge in Hlt; lia].
  rewrite Nat2Z.id, ascii_nat_embedding.
  replace (Z.of_nat (nat_of_ascii d) - 48 - 1 + 1) with (Z.of_nat (nat_of_ascii d) - 48) by lia.
  rewrite decimal_digit by lia.
  replace (48 + (Z.of_nat (nat_of_ascii d) - 48)) with (Z.of_nat (nat_of_ascii d)) by lia.
  now rewrite Nat2Z.id, ascii_nat_embedding.
Qed.

Lemma square_round_trip_witness :
  exists r c,
    Coords.squareToCoords "h8" = {| Coords.row := Some r; Coords.col := Some c |} /\
    Coords.coordsToSquare r c = Some "h8".
Proof.
  apply (square_round_trip "h"%char "8"%char).
  change (48 <= 56 <= 57)%nat. lia.
Defined.

(* ===================================================================== *)
(** * Further properties: the adapters *)
(* ===================================================================== *)

Module AdapterProps.

Import Norm Adapters AdaptersMore.

Module MoreAdapterFacts.

Import AdapterFacts.

Lemma mapM_length {A B : Type} (f : A -> Res B) :
  forall l l', mapM f l = Ok l' -> List.length l' = List.length l.
Proof.
  induction l as [|a l IH]; intros l' H; simpl in H.
  - now inversion H.
  - apply bind_Ok in H. destruct H as (b & _ & H).
    apply bind_Ok in H. destruct H as (bs & Hbs & H).
    inversion H; subst. simpl. f_equal. now apply IH.
Qed.

Lemma mapM_Forall2 {A B : Type} (f : A -> Res B) :
  forall l l', mapM f l = Ok l' -> Forall2 (fun a b => f a = Ok b) l l'.
Proof.
  induction l as [|a l IH]; intros l' H; simpl in H.
  - inversion H. constructor.
  - apply bind_Ok in H. destruct H as (b & Hb & H).
    apply bind_Ok in H. destruct H as (bs & Hbs & H).
    inversion H; subst. constructor; [exact Hb | now apply IH].
Qed.

Lemma asArray_Ok v l : asArray v = Ok l -> v = VArr l.
Proof. destruct v; simpl; intro H; now inversion H. Qed.

Ltac gets raw :=
  repeat match goal with
         | Hg : Js.get raw _ = Ok _ |- _ => apply get_optGet in Hg; subst
         end.

Section WithNumberFormat.

Context {NF : NumberFormat}.

Lemma rustNormGame_more (raw : JsVal) (g : NormGameState) :
  rustNormGame raw = Ok g ->
  exists items,
    Js.coalesce (Js.optGet raw "moveHistory") (VArr []) = VArr items /\
    moveCount g = List.length items /\
    mapM rustNormMove items = Ok (moveHistory g) /\
    rustNormStatus (Js.optGet raw "status") = Ok (status g) /\
    rustNormBoard (Js.optGet raw "board") = Ok (board g).
Proof.
  intro H. unfold rustNormGame in H. peel H.
  inversion H; subst g; clear H. simpl. gets raw.
  match goal with Ha : asArray _ = Ok ?l |- _ => apply asArray_Ok in Ha; exists l end.
  repeat split; assumption.
Qed.

Lemma goNormGame_more (raw : JsVal) (g : NormGameState) :
  goNormGame raw = Ok g ->
  exists items,
    Js.coalesce (Js.optGet raw "move_history") (VArr []) = VArr items /\
    moveCount g = List.length items /\
    mapM goNormMove items = Ok (moveHistory g) /\
    goNormStatus (Js.optGet raw "status") = Ok (status g) /\
    board g = None.
Proof.
  intro H. unfold goNormGame in H. peel H.
  inversion H; subst g; clear H. simpl. gets raw.
  match goal with Ha : asArray _ = Ok ?l |- _ => apply asArray_Ok in Ha; exists l end.
  repeat split; assumption.
Qed.

Lemma jsNormGame_more (raw : JsVal) (g : NormGameState) :
  jsNormGame raw = Ok g ->
  exists items,
    Js.coalesce (Js.optGet raw "moveHistory") (VArr []) = VArr items /\
    moveCount g = List.length items /\
    mapM jsNormMove items = Ok (moveHistory g) /\
    board g = None /\
    status g =
      Canonical
        (if Js.truthy (Js.optGet raw "checkmate") then GameStatusNorm.checkmate
         else if Js.truthy (Js.optGet raw "stalemate") then GameStatusNorm.stalemate
         else if Js.truthy (Js.optGet raw "inThreefoldRepetition")
              then GameStatusNorm.threefold_repetition
         else if Js.truthy (Js.optGet raw "inFiftyMoveRule")
              then GameStatusNorm.fifty_move_rule
         else if Js.truthy (Js.optGet raw "gameOver") then GameStatusNorm.draw
         else if Js.truthy (Js.optGet raw "check") then GameStatusNorm.check
         else GameStatusNorm.active).
Proof.
  intro H. unfold jsNormGame in H. peel H.
  inversion H; subst g; clear H. simpl. gets raw.
  match goal with Ha : asArray _ = Ok ?l |- _ => apply asArray_Ok in Ha; exists l end.
  repeat split; assumption.
Qed.

End WithNumberFormat.

End MoreAdapterFacts.

Import MoreAdapterFacts AdapterFacts.


(** X9.  In every state an adapter's [normGame] returns, [moveCount] is
    the length of [moveHistory], and both are the number of entries of
    the backend's history array (none when the member is missing or
    [null]). *)
Theorem normGame_moveCount :
  forall (NF : NumberFormat) (id : BackendId) (a : BackendAdapter)
         (raw : JsVal) (g : NormGameState),
    ADAPTERS id = Some a ->
    normGame a raw = Ok g ->
    moveCount g = List.length (moveHistory g) /\
    exists items,
      Js.coalesce (Js.optGet raw (historyField id)) (VArr []) = VArr items /\
      moveCount g = List.length items.
Proof.
  intros NF id a raw g Ha Hg.
  destruct id; simpl in Ha; inversion Ha; subst a; clear Ha; simpl in Hg.
  - apply rustNormGame_more in Hg. destruct Hg as (items & Hi & Hc & Hm & _).
    split; [|now exists items]. rewrite Hc. symmetry. eapply mapM_length, Hm.
  - apply goNormGame_more in Hg. destruct Hg as (items & Hi & Hc & Hm & _).
    split; [|now exists items]. rewrite Hc. symmetry. eapply mapM_length, Hm.
  - apply jsNormGame_more in Hg. destruct Hg as (items & Hi & Hc & Hm & _).
    split; [|now exists items]. rewrite Hc. symmetry. eapply mapM_length, Hm.
Qed.

Lemma includes_In lits v :
  Js.includes lits v = true <-> exists s, v = VStr s /\ In s lits.
Proof.
  unfold Js.includes. rewrite existsb_exists. split.
  - intros (l & Hin & His). apply isStr_eq in His. now exists l.
  - intros (s & -> & Hin). exists s. split; [exact Hin|]. simpl. apply String.eqb_refl.
Qed.

Section WithNumberFormat.
Context {NF : NumberFormat}.

Lemma rustNormStatus_terminal (s : string) :
  (exists v, rustNormStatus (VStr s) = Ok v /\ terminalStatus v = true)
  <-> In s rustTerminal.
Proof.
  unfold rustNormStatus. cbn [Js.String_ bind]. unfold Js.literalGet. simpl Js.own.
  split.
  - intros (v & Hv & Ht). simpl.
    repeat match type of Hv with
           | context [if ?s0 =s ?k then _ else _] =>
               let E := fresh "E" in
               destruct (s0 =s k) eqn:E;
               [apply String.eqb_eq in E; subst; inversion Hv; subst; simpl in Ht;
                try discriminate Ht; tauto|]
           end.
    destruct (existsb _ _); inversion Hv; subst; discriminate Ht.
  - simpl. intros [<-|[<-|[<-|[<-|[<-|[<-|[]]]]]]]; simpl; eexists; split;
      reflexivity.
Qed.

Lemma goNormStatus_terminal (s : string) :
  (exists v, goNormStatus (VStr s) = Ok v /\ terminalStatus v = true)
  <-> In s goTerminal.
Proof.
  unfold goNormStatus. cbn [Js.String_ bind]. unfold Js.literalGet. simpl Js.own.
  split.
  - intros (v & Hv & Ht). simpl.
    repeat match type of Hv with
           | context [if ?s0 =s ?k then _ else _] =>
               let E := fresh "E" in
               destruct (s0 =s k) eqn:E;
               [apply String.eqb_eq in E; subst; inversion Hv; subst; simpl in Ht;
                try discriminate Ht; tauto|]
           end.
    destruct (existsb _ _); inversion Hv; subst; discriminate Ht.
  - simpl. intros [<-|[<-|[<-|[<-|[<-|[<-|[<-|[]]]]]]]]; simpl; eexists; split;
      reflexivity.
Qed.

End WithNumberFormat.

(** X10.  In every state an adapter's [normGame] returns, [gameOver]
    implies a terminal status (checkmate, stalemate, draw, insufficient
    material, threefold repetition or fifty-move rule).  For rust-chess
    and go-chess, when the backend's status is a string, the converse
    holds as well. *)
Theorem normGame_gameOver_status :
  forall (NF : NumberFormat) (id : BackendId) (a : BackendAdapter)
         (raw : JsVal) (g : NormGameState),
    ADAPTERS id = Some a ->
    normGame a raw = Ok g ->
    (gameOver g = true -> terminalStatus (status g) = true) /\
    (id <> js ->
     (exists s, Js.optGet raw "status" = VStr s) ->
     terminalStatus (status g) = true -> gameOver g = true).
Proof.
  intros NF id a raw g Ha Hg.
  destruct id; simpl in Ha; inversion Ha; subst a; clear Ha; simpl in Hg.
  - pose proof (rustNormGame_fields raw g Hg) as (_ & _ & Ho).
    apply rustNormGame_more in Hg. destruct Hg as (_ & _ & _ & _ & Hs & _).
    rewrite Ho. split.
    + intro Hinc. apply includes_In in Hinc. destruct Hinc as (s & Hv & Hin).
      rewrite Hv in Hs. apply rustNormStatus_terminal in Hin.
      destruct Hin as (v & Hv' & Ht). rewrite Hs in Hv'. now inversion Hv'; subst.
    + intros _ (s & Hv) Ht. rewrite Hv in *. apply includes_In. exists s.
      split; [reflexivity|]. apply rustNormStatus_terminal. now exists (status g).
  - pose proof (goNormGame_fields raw g Hg) as (_ & _ & Ho).
    apply goNormGame_more in Hg. destruct Hg as (_ & _ & _ & _ & Hs & _).
    rewrite Ho. split.
    + intro Hinc. apply includes_In in Hinc. destruct Hinc as (s & Hv & Hin).
      rewrite Hv in Hs. apply goNormStatus_terminal in Hin.
      destruct Hin as (v & Hv' & Ht). rewrite Hs in Hv'. now inversion Hv'; subst.
    + intros _ (s & Hv) Ht. rewrite Hv in *. apply includes_In. exists s.
      split; [reflexivity|]. apply goNormStatus_terminal. now exists (status g).
  - pose proof (jsNormGame_fields raw g Hg) as (_ & _ & Ho).
    apply jsNormGame_more in Hg. destruct Hg as (_ & _ & _ & _ & _ & Hs).
    rewrite Ho, Hs. split; [|intro H; now elim H].
    intro Hgo. rewrite Hgo.
    destruct (Js.truthy (Js.optGet raw "checkmate")); [reflexivity|].
    destruct (Js.truthy (Js.optGet raw "stalemate")); [reflexivity|].
    destruct (Js.truthy (Js.optGet raw "inThreefoldRepetition")); [reflexivity|].
    destruct (Js.truthy (Js.optGet raw "inFiftyMoveRule")); reflexivity.
Qed.

Lemma draw_is_terminal_rust v :
  Js.includes drawStatuses v = true -> Js.includes rustTerminal v = true.
Proof.
  intro Hd. apply includes_In in Hd. destruct Hd as (s & Hv & Hin).
  apply includes_In. exists s. split; [exact Hv|]. simpl in *. tauto.
Qed.

Lemma draw_is_terminal_go v :
  Js.includes drawStatuses v = true -> Js.includes goTerminal v = true.
Proof.
  intro Hd. apply includes_In in Hd. destruct Hd as (s & Hv & Hin).
  apply includes_In. exists s. split; [exact Hv|]. simpl in *. tauto.
Qed.

Ltac result_parts :=
  split; [unfold resultStrings; cbn [In]; tauto|];
  split; [try (intros _; reflexivity); try (intros [H|H]; discriminate H)
         | try discriminate].

(** X11.  In every state an adapter's [normGame] returns, [result] is one
    of "1-0", "0-1", "1/2-1/2" and "*"; a decisive result comes with the
    status checkmate, and a drawn result with [gameOver]. *)
Theorem normGame_result_strings :
  forall (NF : NumberFormat) (id : BackendId) (a : BackendAdapter)
         (raw : JsVal) (g : NormGameState),
    ADAPTERS id = Some a ->
    normGame a raw = Ok g ->
    In (result g) resultStrings /\
    (result g = "1-0" \/ result g = "0-1" ->
     status g = Canonical GameStatusNorm.checkmate) /\
    (result g = "1/2-1/2" -> gameOver g = true).
Proof.
  intros NF id a raw g Ha Hg.
  destruct id; simpl in Ha; inversion Ha; subst a; clear Ha; simpl in Hg.
  - pose proof (rustNormGame_fields raw g Hg) as (_ & Hr & Ho).
    apply rustNormGame_more in Hg. destruct Hg as (_ & _ & _ & _ & Hs & _).
    rewrite Hr, Ho. unfold rustDeriveResult.
    destruct (Js.isStr (Js.optGet raw "status") "checkmate") eqn:Hm.
    + apply isStr_eq in Hm. rewrite Hm in Hs. inversion Hs as [Hs'].
      destruct (Js.isStr _ "white"); result_parts.
    + destruct (Js.includes drawStatuses (Js.optGet raw "status")) eqn:Hd;
        result_parts.
      intros _. now apply draw_is_terminal_rust.
  - pose proof (goNormGame_fields raw g Hg) as (_ & Hr & Ho).
    apply goNormGame_more in Hg. destruct Hg as (_ & _ & _ & _ & Hs & _).
    rewrite Hr, Ho. unfold goDeriveResult.
    destruct (Js.isStr (Js.optGet raw "status") "white_wins") eqn:Hw.
    { apply isStr_eq in Hw. rewrite Hw in Hs. inversion Hs as [Hs'].
      result_parts. }
    destruct (Js.isStr (Js.optGet raw "status") "black_wins") eqn:Hb.
    { apply isStr_eq in Hb. rewrite Hb in Hs. inversion Hs as [Hs'].
      result_parts. }
    destruct (Js.includes drawStatuses (Js.optGet raw "status")) eqn:Hd;
      result_parts.
    intros _. now apply draw_is_terminal_go.
  - pose proof (jsNormGame_fields raw g Hg) as (_ & Hr & Ho).
    apply jsDeriveResult_value in Hr.
    apply jsNormGame_more in Hg. destruct Hg as (_ & _ & _ & _ & _ & Hs).
    rewrite Hr, Ho, Hs.
    destruct (Js.truthy (Js.optGet raw "checkmate")).
    + destruct (Js.isStr _ "white"); result_parts.
    + destruct (Js.truthy (Js.optGet raw "gameOver")); result_parts.
      intros _. reflexivity.
Qed.

(** X13.  When an adapter's [normAiMove] returns, its [game] is what the
    adapter's [normGame] returns on the same response, so an AI answer
    that [normGame] rejects is rejected as a whole; without a move member
    (js-chess: [lastMove]) the move is [{from: '', to: ''}]. *)
Theorem normAiMove_game :
  forall (NF : NumberFormat) (id : BackendId)
         (f : JsVal -> Res NormAiMoveResult.t) (raw : JsVal)
         (r : NormAiMoveResult.t),
    normAiMove id = Some f ->
    f raw = Ok r ->
    (exists a, ADAPTERS id = Some a /\
               normGame a raw = Ok (NormAiMoveResult.game r)) /\
    (Js.truthy (Js.optGet raw (aiMoveField id)) = false ->
     NormAiMoveResult.move r = emptyMove).
Proof.
  intros NF id f raw r Hf Hr.
  destruct id; simpl in Hf; inversion Hf; subst f; clear Hf.
  - unfold rustNormAiMove in Hr. peel Hr. inversion Hr; subst r; clear Hr.
    simpl. gets raw. split; [eexists; split; [reflexivity | assumption]|].
    intro Hfalsy. rewrite Hfalsy in *.
    match goal with H : Ok emptyMove = Ok _ |- _ => now inversion H end.
  - unfold goNormAiMove in Hr. peel Hr. inversion Hr; subst r; clear Hr.
    simpl. gets raw. split; [eexists; split; [reflexivity | assumption]|].
    intro Hfalsy. rewrite Hfalsy in *.
    match goal with H : Ok emptyMove = Ok _ |- _ => now inversion H end.
  - unfold jsNormAiMove in Hr. peel Hr. inversion Hr; subst r; clear Hr.
    simpl. gets raw. split; [eexists; split; [reflexivity | assumption]|].
    intro Hfalsy. rewrite Hfalsy in *.
    match goal with H : Ok emptyMove = Ok _ |- _ => now inversion H end.
Qed.

Lemma legalMoveOf_entry {NF : NumberFormat} item m :
  legalMoveOf item = Ok m -> legalEntry item m.
Proof.
  intro H. unfold legalMoveOf in H. peel H. inversion H; subst m; clear H.
  gets item. split; assumption.
Qed.

Lemma goLegalMoveOf_entry {NF : NumberFormat} item m :
  goLegalMoveOf item = Ok m -> legalEntry item m.
Proof.
  intro H. unfold goLegalMoveOf in H. peel H. inversion H; subst m; clear H.
  gets item. split; assumption.
Qed.

(** X14.  When an adapter's [normLegalMoves] returns, the list has one
    entry per element of the backend's array (none when the member is
    missing or [null]), in order, and each entry's [from] and [to] are
    the backend's values as [String] prints them: a missing [from] is
    the string "undefined", not the empty string. *)
Theorem normLegalMoves_entries :
  forall (NF : NumberFormat) (id : BackendId)
         (f : JsVal -> Res (list NormLegalMove.t)) (raw : JsVal)
         (l : list NormLegalMove.t),
    normLegalMoves id = Some f ->
    f raw = Ok l ->
    exists items,
      Js.coalesce (Js.optGet raw (legalMovesField id)) (VArr []) = VArr items /\
      List.length l = List.length items /\
      Forall2 legalEntry items l.
Proof.
  intros NF id f raw l Hf Hl.
  destruct id; simpl in Hf; inversion Hf; subst f; clear Hf.
  - unfold rustNormLegalMoves in Hl. peel Hl. gets raw.
    match goal with Ha : asArray _ = Ok ?i |- _ => apply asArray_Ok in Ha; exists i end.
    split; [assumption|]. split; [eapply mapM_length; eassumption|].
    apply mapM_Forall2 in Hl. eapply Forall2_impl; [|exact Hl].
    intros; now apply legalMoveOf_entry.
  - unfold goNormLegalMoves in Hl. peel Hl. gets raw.
    match goal with Ha : asArray _ = Ok ?i |- _ => apply asArray_Ok in Ha; exists i end.
    split; [assumption|]. split; [eapply mapM_length; eassumption|].
    apply mapM_Forall2 in Hl. eapply Forall2_impl; [|exact Hl].
    intros; now apply goLegalMoveOf_entry.
  - unfold jsNormLegalMoves in Hl. peel Hl. gets raw.
    match goal with Ha : asArray _ = Ok ?i |- _ => apply asArray_Ok in Ha; exists i end.
    split; [assumption|]. split; [eapply mapM_length; eassumption|].
    apply mapM_Forall2 in Hl. eapply Forall2_impl; [|exact Hl].
    intros; now apply legalMoveOf_entry.
Qed.

(** X15.  The [evaluation] an adapter's [normAnalysis] returns is never
    [null] or [undefined]: the backend's [evaluation] is kept whenever it
    is present, a zero included; otherwise go-chess falls back on
    [evaluation_cp], and what remains becomes 0. *)
Theorem normAnalysis_evaluation :
  forall (NF : NumberFormat) (id : BackendId)
         (f : JsVal -> Res NormAnalysis.t) (raw : JsVal) (r : NormAnalysis.t),
    normAnalysis id = Some f ->
    f raw = Ok r ->
    Js.nullish (NormAnalysis.evaluation r) = false /\
    (Js.nullish (Js.optGet raw "evaluation") = false ->
     NormAnalysis.evaluation r = Js.optGet raw "evaluation") /\
    (Js.nullish (Js.optGet raw "evaluation") = true ->
     NormAnalysis.evaluation r =
       if BackendId_eqb id go && negb (Js.nullish (Js.optGet raw "evaluation_cp"))
       then Js.optGet raw "evaluation_cp" else VNum 0).
Proof.
  intros NF id f raw r Hf Hr.
  destruct id; simpl in Hf; inversion Hf; subst f; clear Hf.
  - unfold rustNormAnalysis in Hr. peel Hr. inversion Hr; subst r; clear Hr.
    simpl. gets raw. unfold Js.coalesce.
    destruct (Js.nullish (Js.optGet raw "evaluation")) eqn:He;
      repeat split; try reflexivity; try assumption; discriminate.
  - unfold goNormAnalysis in Hr. peel Hr. inversion Hr; subst r; clear Hr.
    simpl. gets raw. unfold Js.coalesce.
    destruct (Js.nullish (Js.optGet raw "evaluation")) eqn:He.
    + destruct (Js.nullish (Js.optGet raw "evaluation_cp")) eqn:Hc;
        rewrite ?Hc; repeat split; try reflexivity; try assumption; discriminate.
    + rewrite He. repeat split; try reflexivity; try assumption; discriminate.
  - unfold jsNormAnalysis in Hr. peel Hr. inversion Hr; subst r; clear Hr.
    simpl. gets raw. unfold Js.coalesce.
    destruct (Js.nullish (Js.optGet raw "evaluation")) eqn:He;
      repeat split; try reflexivity; try assumption; discriminate.
Qed.

Lemma rustNormBoard_shape {NF : NumberFormat} rows b :
  rustNormBoard (VArr rows) = Ok (Some b) ->
  Forall2 (fun row brow =>
             exists cells, row = VArr cells /\ List.length brow = List.length cells)
          rows b.
Proof.
  unfold rustNormBoard. intro H.
  apply bind_Ok in H. destruct H as (b' & Hb & H). inversion H; subst b'; clear H.
  apply mapM_Forall2 in Hb. eapply Forall2_impl; [|exact Hb].
  intros row brow Hrow. apply bind_Ok in Hrow. destruct Hrow as (cells & Hc & Hrow).
  apply asArray_Ok in Hc. injection Hrow as <-. exists cells.
  split; [exact Hc | apply length_map].
Qed.

(** X12.  Only rust-chess states carry a board: for go-chess and js-chess
    [board] is always [undefined]; for rust-chess it is defined exactly
    when the backend's [board] is an array, and then has as many rows as
    that array and in each row as many cells as the backend's row. *)
Theorem normGame_board :
  forall (NF : NumberFormat) (id : BackendId) (a : BackendAdapter)
         (raw : JsVal) (g : NormGameState),
    ADAPTERS id = Some a ->
    normGame a raw = Ok g ->
    match board g with
    | Some b =>
        id = rust /\
        exists rows,
          Js.optGet raw "board" = VArr rows /\
          Forall2 (fun row brow =>
                     exists cells,
                       row = VArr cells /\ List.length brow = List.length cells)
                  rows b
    | None => id = rust -> forall rows, Js.optGet raw "board" <> VArr rows
    end.
Proof.
  intros NF id a raw g Ha Hg.
  destruct id; simpl in Ha; inversion Ha; subst a; clear Ha; simpl in Hg.
  - apply rustNormGame_more in Hg. destruct Hg as (_ & _ & _ & _ & _ & Hb).
    destruct (Js.optGet raw "board") as [| |bb|q|s|rows|o] eqn:Hraw;
      try (simpl in Hb; inversion Hb; intros _ rows' Hc; discriminate Hc).
    destruct (board g) as [b|] eqn:Hbg.
    + split; [reflexivity|]. exists rows. split; [reflexivity|].
      now apply rustNormBoard_shape.
    + unfold rustNormBoard in Hb.
      apply bind_Ok in Hb. destruct Hb as (b' & _ & Hb). discriminate Hb.
  - apply goNormGame_more in Hg. destruct Hg as (_ & _ & _ & _ & _ & Hb).
    rewrite Hb. discriminate.
  - apply jsNormGame_more in Hg. destruct Hg as (items & _ & _ & _ & Hb & _).
    rewrite Hb. discriminate.
Qed.

(** ** Instances on sample responses *)

Lemma normGame_moveCount_witness :
  exists g,
    rustNormGame (NF := integerFormat) rustAfterE4 = Ok g /\
    moveCount g = 1%nat /\ List.length (moveHistory g) = 1%nat.
Proof.
  eexists. split; [reflexivity|].
  destruct (normGame_moveCount integerFormat rust _ rustAfterE4 _ eq_refl eq_refl)
    as (Hlen & items & Hitems & Hcount).
  split; [|rewrite <- Hlen]; reflexivity.
Defined.

Lemma normGame_gameOver_status_witness :
  exists g,
    goNormGame (NF := integerFormat) goStalemate = Ok g /\
    terminalStatus (status g) = true.
Proof.
  eexists. split; [reflexivity|].
  destruct (normGame_gameOver_status integerFormat go _ goStalemate _
              eq_refl eq_refl) as (Hterm & _).
  apply Hterm. reflexivity.
Defined.

Lemma normGame_result_strings_witness :
  exists g,
    goNormGame (NF := integerFormat) goWhiteWins = Ok g /\
    status g = Canonical GameStatusNorm.checkmate.
Proof.
  eexists. split; [reflexivity|].
  destruct (normGame_result_strings integerFormat go _ goWhiteWins _
              eq_refl eq_refl) as (_ & Hmate & _).
  apply Hmate. now left.
Defined.

Lemma normGame_board_witness :
  exists g b,
    rustNormGame (NF := integerFormat) rustAfterE4 = Ok g /\
    board g = Some b /\ List.length b = 1%nat.
Proof.
  eexists. eexists. split; [reflexivity|]. split; [reflexivity|].
  pose proof (normGame_board integerFormat rust _ rustAfterE4 _ eq_refl eq_refl)
    as H.
  simpl in H. destruct H as (_ & rows & Hrows & Hshape).
  apply Forall2_length in Hshape.
  cbv in Hrows. inversion Hrows; subst rows. symmetry. exact Hshape.
Defined.

Lemma normAiMove_game_witness :
  exists r g,
    jsNormAiMove (NF := integerFormat) jsAiAnswer = Ok r /\
    jsNormGame (NF := integerFormat) jsAiAnswer = Ok g /\
    NormAiMoveResult.game r = g /\
    NormAiMoveResult.move r = emptyMove.
Proof.
  eexists. eexists. split; [reflexivity|]. split; [reflexivity|].
  destruct (normAiMove_game integerFormat js _ jsAiAnswer _ eq_refl eq_refl)
    as ((a & Ha & Hgame) & Hmove).
  split; [reflexivity | apply Hmove; reflexivity].
Defined.

Lemma normLegalMoves_entries_witness :
  exists l,
    rustNormLegalMoves (NF := integerFormat) rustTwoMoves = Ok l /\
    map NormLegalMove.from l = [ "e2"; "undefined" ] /\
    List.length l = 2%nat.
Proof.
  eexists. split; [reflexivity|]. split; [reflexivity|].
  destruct (normLegalMoves_entries integerFormat rust _ rustTwoMoves _
              eq_refl eq_refl) as (items & Hitems & Hlen & _).
  injection Hitems as <-. exact Hlen.
Defined.

Lemma normAnalysis_evaluation_witness :
  exists r,
    goNormAnalysis (NF := integerFormat) goAnalysisCp = Ok r /\
    NormAnalysis.evaluation r = VNum 150.
Proof.
  eexists. split; [reflexivity|].
  destruct (normAnalysis_evaluation integerFormat go _ goAnalysisCp _
              eq_refl eq_refl) as (_ & _ & Hcp).
  apply Hcp. reflexivity.
Defined.

End AdapterProps.

(* ===================================================================== *)
(** * Further properties: the remote provider *)
(* ===================================================================== *)

Module RemoteFacts.

Import Http RemoteProvider RemoteMore.
Import AdapterFacts.

Lemma strip_nonempty_tail : forall s c r,
  stripTrailingSlashes s = String c r -> endsWithSlash (String c r) = false.
Proof.
  induction s as [|a s IH]; intros c r H; simpl in H; [discriminate|].
  destruct (stripTrailingSlashes s) as [|c' r'] eqn:Hs.
  - destruct (Ascii.eqb a "/"%char) eqn:Ha; [discriminate|].
    injection H as <- <-. simpl. exact Ha.
  - injection H as <- <-.
    specialize (IH c' r' eq_refl).
    change (endsWithSlash (String a (String c' r')))
      with (endsWithSlash (String c' r')). exact IH.
Qed.

Lemma strip_no_trailing : forall s, endsWithSlash (stripTrailingSlashes s) = false.
Proof.
  intros s. destruct (stripTrailingSlashes s) as [|c r] eqn:H; [reflexivity|].
  eapply strip_nonempty_tail; eauto.
Qed.

Lemma strip_decompose : forall s,
  exists k, s = (stripTrailingSlashes s ++ slashes k)%string.
Proof.
  induction s as [|a s [k IH]]; [exists 0%nat; reflexivity|].
  simpl. destruct (stripTrailingSlashes s) as [|c r] eqn:Hs.
  - destruct (Ascii.eqb a "/"%char) eqn:Ha.
    + apply Ascii.eqb_eq in Ha. subst a. exists (S k). simpl. simpl in IH.
      now rewrite <- IH.
    + exists k. simpl. simpl in IH. now rewrite <- IH.
  - exists k. simpl. simpl in IH. now rewrite <- IH.
Qed.

Lemma strip_fixed : forall s, endsWithSlash s = false -> stripTrailingSlashes s = s.
Proof.
  induction s as [|a s IH]; intros H; [reflexivity|].
  simpl. destruct s as [|b s'].
  - simpl. simpl in H. now rewrite H.
  - change (endsWithSlash (String a (String b s')))
      with (endsWithSlash (String b s')) in H.
    rewrite (IH H). reflexivity.
Qed.

Lemma strip_unique : forall r k,
  endsWithSlash r = false -> stripTrailingSlashes (r ++ slashes k) = r.
Proof.
  induction r as [|a r IH]; intros k H.
  - simpl. induction k as [|k IHk]; [reflexivity|].
    simpl. now rewrite IHk.
  - destruct r as [|b r'].
    + simpl in H. change (String a "" ++ slashes k)%string with (String a (slashes k)).
      simpl. assert (Hk : stripTrailingSlashes (slashes k) = "").
      { clear. induction k as [|k IHk]; [reflexivity|]. simpl. now rewrite IHk. }
      rewrite Hk, H. reflexivity.
    + change (endsWithSlash (String a (String b r')))
        with (endsWithSlash (String b r')) in H.
      specialize (IH k H).
      change (String a (String b r') ++ slashes k)%string
        with (String a (String b r' ++ slashes k)).
      simpl stripTrailingSlashes at 1.
      simpl in IH. simpl. rewrite IH. reflexivity.
Qed.


Section Req.
Context {NF : NumberFormat} {JS : JsonStringify}.

Lemma request_fst (fetch : Fetch) u init :
  fst (request fetch u init) = [requestSent u init].
Proof.
  unfold request, requestSent.
  destruct (fetch _) as [res|m]; [|reflexivity].
  destruct (strIncludes _ _); [destruct (negb (ok res)); reflexivity|reflexivity].
Qed.

Lemma request_Ok (fetch : Fetch) u init v :
  snd (request fetch u init) = Ok v ->
  exists res, fetch (requestSent u init) = Resolves res /\ ok res = true /\
    (v = VStr (text res) \/ json res = Ok v).
Proof.
  unfold request. fold (requestSent u init).
  destruct (fetch (requestSent u init)) as [res|m]; [|discriminate].
  intros H. exists res. split; [reflexivity|].
  destruct (strIncludes _ _).
  - destruct (ok res); simpl in H; [|discriminate].
    injection H as <-. auto.
  - simpl in H. apply bind_Ok in H. destruct H as (b & Hb & H).
    destruct (ok res); simpl in H.
    + injection H as <-. auto.
    + destruct (Js.String_ _); simpl in H; [|discriminate].
      destruct (Js.String_ _); simpl in H; discriminate.
Qed.

Lemma send_fst {A} p (fetch : Fetch) path init (norm : JsVal -> Res A) a :
  adapter p = Some a ->
  fst (send p fetch path init norm)
    = [requestSent (baseUrl p ++ Adapters.apiPrefix a ++ path) init].
Proof.
  intros Ha. unfold send, url_. rewrite Ha.
  pose proof (request_fst fetch (baseUrl p ++ Adapters.apiPrefix a ++ path) init) as H.
  destruct (request fetch _ init) as [reqs r]. exact H.
Qed.

Lemma send_Ok {A} p (fetch : Fetch) path init (norm : JsVal -> Res A) x :
  snd (send p fetch path init norm) = Ok x ->
  exists a res raw,
    adapter p = Some a /\
    fetch (requestSent (baseUrl p ++ Adapters.apiPrefix a ++ path) init) = Resolves res /\
    ok res = true /\
    (raw = VStr (text res) \/ json res = Ok raw) /\
    norm raw = Ok x.
Proof.
  unfold send, url_. destruct (adapter p) as [a|]; [|discriminate].
  pose proof (request_Ok fetch (baseUrl p ++ Adapters.apiPrefix a ++ path) init) as H.
  destruct (request fetch _ init) as [reqs r]. simpl in *.
  intros Hx. apply bind_Ok in Hx. destruct Hx as (raw & Hr & Hn).
  destruct (H raw Hr) as (res & Hf & Hok & Hraw).
  exists a, res, raw. auto.
Qed.

(** A network on which no request is answered with a 2xx status. *)
Lemma send_fails {A} p (fetch : Fetch) path init (norm : JsVal -> Res A) :
  (forall req res, fetch req = Resolves res -> ok res = false) ->
  exists e, snd (send p fetch path init norm) = Throw e.
Proof.
  intros Hnet. destruct (snd (send p fetch path init norm)) as [x|e] eqn:H.
  - apply send_Ok in H. destruct H as (a & res & raw & _ & Hf & Hok & _).
    apply Hnet in Hf. congruence.
  - now exists e.
Qed.

Lemma constructor_Ok id base p :
  constructor id base = Ok p ->
  id <> local /\ backendId p = id /\ baseUrl p = stripTrailingSlashes base /\
  adapter p = Adapters.ADAPTERS id.
Proof.
  unfold constructor. destruct id; simpl; intros H; try discriminate;
    injection H as <-; repeat split; discriminate.
Qed.


Ltac one_request Ha :=
  rewrite (send_fst _ _ _ _ _ _ Ha); reflexivity.

Lemma remote_requests_of (p : RemoteProvider) a (fetch : Fetch)
    (g f t fen : string) (pr sq d : option string) (depth : option Q)
    (options : option CreateGameOptions) :
  adapter p = Some a ->
  let req := fun path m b =>
    {| url := (baseUrl p ++ Adapters.apiPrefix a ++ path)%string;
       method := m; headers := [("Content-Type", "application/json")];
       body := b; signalTimeout := None |} in
  let json := fun props => Some (JSON_stringify (VObj props)) in
  fst (createGame p fetch options)
    = [req "/games" (Some "POST") (json (createGameBody (backendId p) options))] /\
  fst (getGame p fetch g) = [req ("/games/" ++ g)%string None None] /\
  fst (deleteGame p fetch g) = [req ("/games/" ++ g)%string (Some "DELETE") None] /\
  fst (makeMove p fetch g f t pr)
    = [req ("/games/" ++ g ++ "/moves")%string (Some "POST") (json (makeMoveBody f t pr))] /\
  fst (getLegalMoves p fetch g sq)
    = [req ("/games/" ++ g ++ "/legal-moves"
              ++ (if given sq then "?from=" ++ match sq with Some s => s | None => "" end else ""))%string
           None None] /\
  fst (aiMove p fetch g d)
    = [req ("/games/" ++ g ++ "/ai-move")%string (Some "POST")
           (json [(Adapters.aiDifficultyField a,
                   VStr match d with Some d => d | None => "medium" end)])] /\
  fst (aiHint p fetch g d)
    = [req ("/games/" ++ g ++ "/ai-hint")%string (Some "POST")
           (json [(Adapters.aiDifficultyField a,
                   VStr match d with Some d => d | None => "easy" end)])] /\
  fst (loadFen p fetch g fen)
    = [req ("/games/" ++ g ++ "/fen")%string (Some "POST") (json [("fen", VStr fen)])] /\
  fst (getPgn p fetch g) = [req ("/games/" ++ g ++ "/pgn")%string None None] /\
  fst (getAnalysis p fetch g depth)
    = [req ("/games/" ++ g ++ "/analysis"
              ++ match depth with
                 | Some q => if Qeq_bool q 0 then "" else "?depth=" ++ Number_toString q
                 | None => ""
                 end)%string None None].
Proof.
  intros Ha req json. subst req json.
  unfold createGame, getGame, deleteGame, makeMove, getLegalMoves, aiMove,
    aiHint, loadFen, getPgn, getAnalysis, difficultyBody.
  rewrite Ha.
  repeat split; try one_request Ha.
  destruct depth as [q|]; simpl; [destruct (Qeq_bool q 0); simpl|]; one_request Ha.
Qed.


Lemma own_setKey_other {A} (b : list (string * A)) k k' v :
  (k =s k') = false -> Js.own k (b ++ [(k', v)]) = Js.own k b.
Proof.
  intros Hk. induction b as [|[k0 v0] b IH]; simpl.
  - now rewrite Hk.
  - destruct (k =s k0); [reflexivity|exact IH].
Qed.

Lemma own_setKey_same {A} (b : list (string * A)) k v :
  Js.own k b = None -> Js.own k (b ++ [(k, v)]) = Some v.
Proof.
  induction b as [|[k0 v0] b IH]; simpl.
  - now rewrite String.eqb_refl.
  - destruct (k =s k0); [discriminate|exact IH].
Qed.

End Req.
End RemoteFacts.


Module RemoteProps.

Import Http RemoteProvider RemoteMore RemoteFacts AdapterFacts.

(** X16.  The base URL a provider keeps is the given URL without its
    trailing run of slashes: it is the one string that does not end in a
    slash and from which the given URL is obtained by appending slashes
    only.  Slashes inside the URL stay. *)
Theorem stripTrailingSlashes_spec (s r : string) :
  stripTrailingSlashes s = r <->
  endsWithSlash r = false /\ exists k, s = (r ++ slashes k)%string.
Proof.
  split.
  - intros <-. split; [apply strip_no_trailing|apply strip_decompose].
  - intros (Hr & k & ->). now apply strip_unique.
Qed.

(** X17.  [request] resolves only when [fetch] resolved with a status
    from 200 to 299.  It has then issued exactly one [fetch], for the
    given URL with the method, headers and body of [init], and what it
    returns is the response text for a text/plain response and the
    parsed JSON body otherwise. *)
Theorem request_resolves_only_on_2xx {NF : NumberFormat}
    (fetch : Fetch) (u : string) (init : RequestInit) (v : JsVal) :
  snd (request fetch u init) = Ok v ->
  fst (request fetch u init) = [requestSent u init] /\
  exists res,
    fetch (requestSent u init) = Resolves res /\
    ok res = true /\
    (if strIncludes "text/plain" (contentTypeOf res)
     then v = VStr (text res)
     else json res = Ok v).
Proof.
  intros H. split; [apply request_fst|].
  unfold request in H. fold (requestSent u init) in H.
  destruct (fetch (requestSent u init)) as [res|m]; [|discriminate].
  exists res. split; [reflexivity|].
  unfold contentTypeOf.
  destruct (strIncludes _ _).
  - destruct (ok res); simpl in H; [|discriminate].
    injection H as <-. auto.
  - simpl in H. apply bind_Ok in H. destruct H as (b & Hb & H).
    destruct (ok res); simpl in H.
    + injection H as <-. auto.
    + destruct (Js.String_ _); simpl in H; [|discriminate].
      destruct (Js.String_ _); simpl in H; discriminate.
Qed.

Lemma request_resolves_only_on_2xx_witness :
  snd (request (NF := integerFormat) (answering healthy) "http://h/health"
         {| init_method := None; init_headers := []; init_body := None |})
    = Ok (VObj [("status", VStr "ok")]) /\
  exists res,
    answering healthy
      (requestSent "http://h/health"
         {| init_method := None; init_headers := []; init_body := None |})
      = Resolves res /\ ok res = true.
Proof.
  split; [reflexivity|].
  destruct (request_resolves_only_on_2xx (NF := integerFormat) (answering healthy)
              "http://h/health"
              {| init_method := None; init_headers := []; init_body := None |}
              (VObj [("status", VStr "ok")]) eq_refl) as (_ & res & Hf & Hok & _).
  exists res. split; assumption.
Defined.

(** X18.  The HTTP contract of a provider built by the constructor for
    the base URL [base].  Whatever the network answers, each method issues
    exactly one request, to the stripped base URL, the prefix of the
    backend's adapter and the path of the method, with the single header
    Content-Type: application/json.  The reads use the default method and
    carry no body; [deleteGame] uses DELETE; the others POST the
    serialised object.  An empty [fromSquare] and a [depth] of 0 add no
    query string, and the difficulty travels under the adapter's field
    name. *)
Theorem remote_method_requests {NF : NumberFormat} {JS : JsonStringify}
    (id : BackendId) (base : string) (p : RemoteProvider) (fetch : Fetch)
    (g f t fen : string) (pr sq d : option string) (depth : option Q)
    (options : option CreateGameOptions) :
  constructor id base = Ok p ->
  exists a, Adapters.ADAPTERS id = Some a /\
  let req := apiRequest base (Adapters.apiPrefix a) in
  let json := fun props => Some (JSON_stringify (VObj props)) in
  fst (createGame p fetch options)
    = [req "/games" (Some "POST") (json (createGameBody id options))] /\
  fst (getGame p fetch g) = [req ("/games/" ++ g)%string None None] /\
  fst (deleteGame p fetch g) = [req ("/games/" ++ g)%string (Some "DELETE") None] /\
  fst (makeMove p fetch g f t pr)
    = [req ("/games/" ++ g ++ "/moves")%string (Some "POST")
           (json (makeMoveBody f t pr))] /\
  fst (getLegalMoves p fetch g sq)
    = [req ("/games/" ++ g ++ "/legal-moves"
              ++ (if given sq
                  then "?from=" ++ match sq with Some s => s | None => "" end
                  else ""))%string
           None None] /\
  fst (aiMove p fetch g d)
    = [req ("/games/" ++ g ++ "/ai-move")%string (Some "POST")
           (json [(Adapters.aiDifficultyField a,
                   VStr match d with Some d => d | None => "medium" end)])] /\
  fst (aiHint p fetch g d)
    = [req ("/games/" ++ g ++ "/ai-hint")%string (Some "POST")
           (json [(Adapters.aiDifficultyField a,
                   VStr match d with Some d => d | None => "easy" end)])] /\
  fst (loadFen p fetch g fen)
    = [req ("/games/" ++ g ++ "/fen")%string (Some "POST")
           (json [("fen", VStr fen)])] /\
  fst (getPgn p fetch g) = [req ("/games/" ++ g ++ "/pgn")%string None None] /\
  fst (getAnalysis p fetch g depth)
    = [req ("/games/" ++ g ++ "/analysis"
              ++ match depth with
                 | Some q => if Qeq_bool q 0 then ""
                             else "?depth=" ++ Number_toString q
                 | None => ""
                 end)%string None None].
Proof.
  intros Hp. apply constructor_Ok in Hp.
  destruct Hp as (Hid & Hb & Hbase & Ha).
  destruct (Adapters.ADAPTERS id) as [a|] eqn:Hid'.
  2:{ destruct id; try discriminate Hid'. congruence. }
  exists a. split; [reflexivity|].
  pose proof (remote_requests_of p a fetch g f t fen pr sq d depth options Ha) as H.
  cbv zeta in H. rewrite Hb, Hbase in H. exact H.
Qed.

Lemma remote_method_requests_witness :
  exists p, constructor (NF := integerFormat) js "http://localhost:8081//" = Ok p /\
  fst (getLegalMoves (NF := integerFormat) p unreachable "7" (Some "e2"))
    = [ {| url := "http://localhost:8081/api/v1/games/7/legal-moves?from=e2";
           method := None;
           headers := [("Content-Type", "application/json")];
           body := None; signalTimeout := None |} ].
Proof.
  eexists. split; [reflexivity|].
  destruct (remote_method_requests (NF := integerFormat) (JS := keyList)
              js "http://localhost:8081//" _ unreachable
              "7" "" "" "" None (Some "e2") None None None eq_refl)
    as (a & Ha & H).
  injection Ha as <-.
  exact (proj1 (proj2 (proj2 (proj2 (proj2 H))))).
Defined.

(** X19.  On a network where no request is answered with a 2xx status
    (the backend is down, or answers with errors only), every method of
    a remote provider throws: none makes up a result. *)
Theorem remote_failure_propagates {NF : NumberFormat} {JS : JsonStringify}
    (p : RemoteProvider) (fetch : Fetch)
    (g f t fen : string) (pr sq d : option string) (depth : option Q)
    (options : option CreateGameOptions) :
  (forall req res, fetch req = Resolves res -> ok res = false) ->
  (exists e, snd (createGame p fetch options) = Throw e) /\
  (exists e, snd (getGame p fetch g) = Throw e) /\
  (exists e, snd (deleteGame p fetch g) = Throw e) /\
  (exists e, snd (makeMove p fetch g f t pr) = Throw e) /\
  (exists e, snd (undoMove p fetch g) = Throw e) /\
  (exists e, snd (getLegalMoves p fetch g sq) = Throw e) /\
  (exists e, snd (aiMove p fetch g d) = Throw e) /\
  (exists e, snd (aiHint p fetch g d) = Throw e) /\
  (exists e, snd (loadFen p fetch g fen) = Throw e) /\
  (exists e, snd (getPgn p fetch g) = Throw e) /\
  (exists e, snd (getAnalysis p fetch g depth) = Throw e).
Proof.
  intros Hnet.
  unfold createGame, getGame, deleteGame, makeMove, getLegalMoves, aiMove,
    aiHint, loadFen, getPgn, getAnalysis, difficultyBody.
  repeat split; try (apply send_fails; exact Hnet).
  - unfold undoMove. destruct (negb _); [eexists; reflexivity|].
    change (exists e, snd (send p fetch ("/games/" ++ g ++ "/undo")
              {| init_method := Some "POST"; init_headers := []; init_body := None |}
              (fun raw => match adapter p with
                          | Some a => Adapters.normGame a raw
                          | None => Throw TypeError
                          end)) = Throw e).
    apply send_fails; exact Hnet.
  - destruct (adapter p); [apply send_fails; exact Hnet|eexists; reflexivity].
  - destruct (adapter p); [apply send_fails; exact Hnet|eexists; reflexivity].
Qed.

Lemma remote_failure_propagates_witness :
  (forall req res, unreachable req = Resolves res -> ok res = false) /\
  exists e, snd (getGame (NF := integerFormat) rustAtPreset unreachable "7") = Throw e.
Proof.
  assert (H : forall req res, unreachable req = Resolves res -> ok res = false)
    by (intros req res H; discriminate H).
  split; [exact H|].
  exact (proj1 (proj2 (remote_failure_propagates (NF := integerFormat) (JS := keyList)
                         rustAtPreset unreachable "7" "" "" "" None None None None None H))).
Defined.

Lemma given_value (x : option string) :
  (if given x
   then Some (match x with Some s => VStr s | None => VUndefined end)
   else None)
  = match x with
    | Some s => if s =s "" then None else Some (VStr s)
    | None => None
    end.
Proof.
  destruct x as [s|]; simpl; [|reflexivity]. now destruct (s =s "").
Qed.

(** X20.  The object [createGame] serialises holds a text option only
    when it is given and not empty, [aiEnabled] whenever it is given
    ([false] included), and the AI colour under [ai_color] for go-chess
    and under [aiColor] for the other backends, never under both.
    Without options the object is empty. *)
Theorem createGame_body_members (id : BackendId) (o : CreateGameOptions) :
  let b := createGameBody id (Some o) in
  let text := fun x : option string =>
    match x with
    | Some s => if s =s "" then None else Some (VStr s)
    | None => None
    end in
  let colour := option_map (fun c => VStr (colorName c)) (opt_aiColor o) in
  Js.own "whitePlayer" b = text (opt_whitePlayer o) /\
  Js.own "blackPlayer" b = text (opt_blackPlayer o) /\
  Js.own "fen" b = text (opt_fen o) /\
  Js.own "aiEnabled" b = option_map VBool (opt_aiEnabled o) /\
  Js.own "aiDifficulty" b = text (opt_aiDifficulty o) /\
  Js.own "ai_color" b = (if BackendId_eqb id go then colour else None) /\
  Js.own "aiColor" b = (if BackendId_eqb id go then None else colour) /\
  createGameBody id None = [].
Proof.
  cbv zeta beta. rewrite <- !given_value.
  destruct o as [w bl fe en di co]. unfold createGameBody.
  cbn [opt_whitePlayer opt_blackPlayer opt_fen opt_aiEnabled opt_aiDifficulty opt_aiColor].
  destruct (given w), (given bl), (given fe), en as [en|], (given di), co as [co|],
    (BackendId_eqb id go); repeat split.
Qed.

End RemoteProps.

(* ===================================================================== *)
(** * Further properties: the backend context *)
(* ===================================================================== *)

Module BackendProps.

Import Http BackendContext BackendMore.

(** X21.  Selecting the backend that is already active, without a
    custom URL, sets connectivity to Checking and starts no health check:
    neither the backend id nor the override object changed, so the
    effect does not run again.  This holds for rust, go and js; the
    state stays Checking until [checkConnection] is called. *)
Theorem reselect_active_backend_keeps_checking {NF : NumberFormat}
    (s : State) (customUrl : option string) (fetch : Fetch) :
  backendId s <> local ->
  overrides (backendId s) customUrl = false ->
  fst (switchAndCheck s (backendId s) customUrl fetch) = [] /\
  connected (snd (switchAndCheck s (backendId s) customUrl fetch)) = None.
Proof.
  intros Hid Hov. unfold switchAndCheck, effectRuns. rewrite Hov.
  assert (Hrefl : BackendId_eqb (backendId s) (backendId s) = true)
    by (destruct (backendId s); reflexivity).
  rewrite Hrefl. simpl.
  destruct (backendId s); [congruence | split; reflexivity ..].
Qed.

Lemma reselect_active_backend_keeps_checking_witness :
  let s := snd (switchAndCheck (NF := integerFormat) freshLocal js None (answering healthy)) in
  backendId s = js /\ connected s = Some true /\
  connected (snd (switchAndCheck (NF := integerFormat) s js None (answering healthy))) = None.
Proof.
  cbv zeta.
  set (s := snd (switchAndCheck (NF := integerFormat) freshLocal js None (answering healthy))).
  split; [reflexivity|]. split; [reflexivity|].
  exact (proj2 (reselect_active_backend_keeps_checking (NF := integerFormat)
                  s None (answering healthy)
                  (fun H : backendId s = local => ltac:(discriminate H)) eq_refl)).
Defined.

(** X22.  [checkConnection] always settles: afterwards connectivity is
    Connected or Disconnected, Connected exactly when no error message
    is stored; the backend and the URL overrides are as before; at most
    one request was issued, and none exactly for local and js. *)
Theorem checkConnection_settles {NF : NumberFormat} (s : State) (fetch : Fetch) :
  let r := checkConnection s fetch in
  backendId (snd r) = backendId s /\
  (forall i, urlOverrides (snd r) i = urlOverrides s i) /\
  connected (snd r) <> None /\
  (connected (snd r) = Some true <-> connectionError (snd r) = None) /\
  (fst r = [] <-> backendId s = local \/ backendId s = js) /\
  (List.length (fst r) <= 1)%nat.
Proof.
  unfold checkConnection.
  destruct (backendId s) eqn:Hid; simpl.
  all: try (repeat split; try discriminate; try reflexivity; auto; try lia;
            try (intros [H|H]; discriminate H); fail).
  all: destruct (fetch _) as [res|m]; [destruct (ok res)|]; simpl;
    repeat split; try discriminate; try reflexivity; auto; try lia;
    try (intros [H|H]; discriminate H).
Qed.

(** X23.  [setBackendUrl] for the active remote backend (rust or go)
    makes the provider one for the new URL, with its trailing slashes
    stripped, and the health check that follows goes to the new URL as
    given, followed by /health.  For any other backend id the provider
    stays as it was and the health check is repeated unchanged. *)
Theorem setBackendUrl_retargets {NF : NumberFormat}
    (s : State) (u : string) (fetch : Fetch) :
  backendId s = rust \/ backendId s = go ->
  provider (setBackendUrl s (backendId s) u)
    = (p <- RemoteProvider.constructor (backendId s) u ;; Ok (Remote p)) /\
  fst (setUrlAndCheck s (backendId s) u fetch) = [healthRequest u] /\
  (forall id url, id <> backendId s ->
     provider (setBackendUrl s id url) = provider s /\
     fst (setUrlAndCheck s id url fetch) = fst (checkConnection s fetch)).
Proof.
  intros Hid. unfold setUrlAndCheck, provider, checkConnection, backends_url,
    setBackendUrl, healthRequest. simpl.
  destruct Hid as [Hid|Hid]; rewrite Hid; simpl.
  - split; [reflexivity|]. split.
    + destruct (fetch _) as [res|m]; [destruct (ok res)|]; reflexivity.
    + intros id url Hne. destruct id; try congruence; simpl; split; try reflexivity.
      all: destruct (urlOverrides s rust);
        (destruct (fetch _) as [res|m]; [destruct (ok res)|]; reflexivity).
  - split; [reflexivity|]. split.
    + destruct (fetch _) as [res|m]; [destruct (ok res)|]; reflexivity.
    + intros id url Hne. destruct id; try congruence; simpl; split; try reflexivity.
      all: destruct (urlOverrides s go);
        (destruct (fetch _) as [res|m]; [destruct (ok res)|]; reflexivity).
Qed.

Lemma setBackendUrl_retargets_witness :
  let s := initialState rust (fun _ => None) in
  (backendId s = rust \/ backendId s = go) /\
  fst (setUrlAndCheck (NF := integerFormat) s rust "http://chess.test:9000/"
         (answering healthy))
    = [healthRequest "http://chess.test:9000/"].
Proof.
  cbv zeta. split; [now left|].
  exact (proj1 (proj2 (setBackendUrl_retargets (NF := integerFormat)
                         (initialState rust (fun _ => None))
                         "http://chess.test:9000/" (answering healthy)
                         (or_introl eq_refl)))).
Defined.

End BackendProps.

(* ===================================================================== *)
(** * Further properties: the local provider *)
(* ===================================================================== *)

Module LocalFacts.

Section Maps.
Context {V : Type}.
Implicit Types (m : list (string * V)) (k : string) (v : V).

Lemma Map_get_set_same m k v : LocalProvider.Map_get k (LocalProvider.Map_set k v m) = Some v.
Proof.
  unfold LocalProvider.Map_get. induction m as [|[k' v'] m IH]; simpl.
  - now rewrite String.eqb_refl.
  - destruct (k =s k') eqn:Hk; simpl.
    + now rewrite String.eqb_refl.
    + now rewrite Hk.
Qed.

Lemma Map_get_set_other m k k' v :
  k' <> k -> LocalProvider.Map_get k' (LocalProvider.Map_set k v m) = LocalProvider.Map_get k' m.
Proof.
  intros Hne. apply String.eqb_neq in Hne.
  unfold LocalProvider.Map_get. induction m as [|[k0 v0] m IH]; simpl.
  - now rewrite Hne.
  - destruct (k =s k0) eqn:Hk; simpl.
    + apply String.eqb_eq in Hk. subst k0. now rewrite Hne.
    + destruct (k' =s k0); [reflexivity|exact IH].
Qed.

Lemma Map_set_get m k v : LocalProvider.Map_get k m = Some v -> LocalProvider.Map_set k v m = m.
Proof.
  unfold LocalProvider.Map_get. induction m as [|[k' v'] m IH]; simpl; [discriminate|].
  destruct (k =s k') eqn:Hk.
  - apply String.eqb_eq in Hk. subst k'. now intros [= ->].
  - intros H. now rewrite (IH H).
Qed.

Lemma Map_set_set m k v v' : LocalProvider.Map_set k v (LocalProvider.Map_set k v' m) = LocalProvider.Map_set k v m.
Proof.
  induction m as [|[k' v0] m IH]; simpl.
  - now rewrite String.eqb_refl.
  - destruct (k =s k') eqn:Hk; simpl.
    + now rewrite String.eqb_refl.
    + now rewrite Hk, IH.
Qed.

Lemma Map_delete_absent m k : LocalProvider.Map_get k m = None -> LocalProvider.Map_delete k m = m.
Proof.
  unfold LocalProvider.Map_get, LocalProvider.Map_delete. induction m as [|[k' v'] m IH]; simpl; [reflexivity|].
  destruct (k =s k'); [discriminate|]. intros H. simpl. now rewrite (IH H).
Qed.

Lemma Map_get_delete_other m k k' :
  k' <> k -> LocalProvider.Map_get k' (LocalProvider.Map_delete k m) = LocalProvider.Map_get k' m.
Proof.
  intros Hne. apply String.eqb_neq in Hne.
  unfold LocalProvider.Map_get, LocalProvider.Map_delete. induction m as [|[k0 v0] m IH]; simpl; [reflexivity|].
  destruct (k =s k0) eqn:Hk; simpl.
  - apply String.eqb_eq in Hk. subst k0. now rewrite Hne.
  - destruct (k' =s k0); [reflexivity|exact IH].
Qed.

Lemma Map_get_delete_same m k : LocalProvider.Map_get k (LocalProvider.Map_delete k m) = None.
Proof.
  unfold LocalProvider.Map_get, LocalProvider.Map_delete. induction m as [|[k' v'] m IH]; simpl; [reflexivity|].
  destruct (k =s k') eqn:Hk; simpl; [exact IH|]. now rewrite Hk.
Qed.

End Maps.

Section Provider.

Context {E : Engine} (X : EngineExtras E) {NF : NumberFormat}.

Implicit Types (st : LocalProvider.Store (E := E)) (s : St E).

Lemma store_eta st :
  {| LocalProvider.nextLocalId := LocalProvider.nextLocalId st;
     LocalProvider.engines := LocalProvider.engines st;
     LocalProvider.games := LocalProvider.games st |} = st.
Proof. now destruct st. Qed.

Lemma assign_same (l : list (St E)) r s :
  nth_error l r = Some s -> LocalProvider.assign r s l = l.
Proof.
  revert r. induction l as [|x l IH]; intros [|r]; simpl; try discriminate.
  - now intros [= ->].
  - intros H. now rewrite (IH r H).
Qed.

Lemma assign_assign (l : list (St E)) r s s' :
  LocalProvider.assign r s (LocalProvider.assign r s' l) = LocalProvider.assign r s l.
Proof.
  revert r. induction l as [|x l IH]; intros [|r]; simpl; try reflexivity.
  now rewrite IH.
Qed.

Lemma nth_error_assign_same (l : list (St E)) r s s0 :
  nth_error l r = Some s0 -> nth_error (LocalProvider.assign r s l) r = Some s.
Proof.
  revert r. induction l as [|x l IH]; intros [|r]; simpl; try discriminate.
  - reflexivity.
  - apply IH.
Qed.

Lemma nth_error_assign_other (l : list (St E)) r r' s :
  r' <> r -> nth_error (LocalProvider.assign r s l) r' = nth_error l r'.
Proof.
  revert r r'. induction l as [|x l IH]; intros [|r] [|r'] Hne; simpl;
    try reflexivity; try (now elim Hne).
  apply IH. intros ->. now elim Hne.
Qed.

Lemma length_assign (l : list (St E)) r s :
  List.length (LocalProvider.assign r s l) = List.length l.
Proof.
  revert r. induction l as [|x l IH]; intros [|r]; simpl; try reflexivity.
  now rewrite IH.
Qed.

Lemma games_mutated st gid s :
  LocalProvider.games (LocalProvider.mutated st gid s) = LocalProvider.games st /\
  LocalProvider.nextLocalId (LocalProvider.mutated st gid s)
    = LocalProvider.nextLocalId st.
Proof.
  unfold LocalProvider.mutated.
  destruct (LocalProvider.Map_get gid (LocalProvider.games st)); split; reflexivity.
Qed.

Lemma mutated_same st gid s :
  LocalProvider.engineOf st gid = Some s -> LocalProvider.mutated st gid s = st.
Proof.
  unfold LocalProvider.engineOf, LocalProvider.mutated.
  destruct (LocalProvider.Map_get gid (LocalProvider.games st)) as [r|]; [|discriminate].
  intros H. rewrite (assign_same _ _ _ H). apply store_eta.
Qed.

Lemma mutated_mutated st gid s s' :
  LocalProvider.mutated (LocalProvider.mutated st gid s') gid s
  = LocalProvider.mutated st gid s.
Proof.
  unfold LocalProvider.mutated.
  destruct (LocalProvider.Map_get gid (LocalProvider.games st)) as [r|] eqn:Hg;
    simpl; rewrite Hg; [|reflexivity].
  simpl. now rewrite assign_assign.
Qed.

Lemma engineOf_mutated st gid s s0 :
  LocalProvider.engineOf st gid = Some s0 ->
  LocalProvider.engineOf (LocalProvider.mutated st gid s) gid = Some s.
Proof.
  unfold LocalProvider.engineOf, LocalProvider.mutated.
  destruct (LocalProvider.Map_get gid (LocalProvider.games st)) as [r|] eqn:Hg;
    [|discriminate].
  simpl. rewrite Hg. apply nth_error_assign_same.
Qed.

(** Two ids whose entries hold different engine objects. *)
Lemma engineOf_mutated_other st gid other s :
  (forall r, LocalProvider.Map_get gid (LocalProvider.games st) = Some r ->
             LocalProvider.Map_get other (LocalProvider.games st) <> Some r) ->
  LocalProvider.engineOf (LocalProvider.mutated st gid s) other
  = LocalProvider.engineOf st other.
Proof.
  intros Hd. unfold LocalProvider.engineOf, LocalProvider.mutated.
  destruct (LocalProvider.Map_get gid (LocalProvider.games st)) as [r|] eqn:Hg;
    [|reflexivity].
  simpl. destruct (LocalProvider.Map_get other (LocalProvider.games st)) as [r'|] eqn:Ho;
    [|reflexivity].
  apply nth_error_assign_other. intros ->. now apply (Hd r eq_refl).
Qed.

(** Two ids whose entries hold the same engine object. *)
Lemma engineOf_mutated_shared st gid other s r :
  LocalProvider.Map_get gid (LocalProvider.games st) = Some r ->
  LocalProvider.Map_get other (LocalProvider.games st) = Some r ->
  LocalProvider.engineOf (LocalProvider.mutated st gid s) other
  = LocalProvider.engineOf (LocalProvider.mutated st gid s) gid.
Proof.
  intros Hg Ho. unfold LocalProvider.engineOf, LocalProvider.mutated.
  rewrite Hg. simpl. now rewrite Hg, Ho.
Qed.

Lemma getEngine_Some st gid s :
  LocalProvider.engineOf st gid = Some s -> LocalProvider.getEngine st gid = Ok s.
Proof. unfold LocalProvider.getEngine. now intros ->. Qed.

Lemma getEngine_None st gid :
  LocalProvider.engineOf st gid = None ->
  LocalProvider.getEngine st gid = Throw (Error ("Game not found: " ++ gid)).
Proof. unfold LocalProvider.getEngine. now intros ->. Qed.

Lemma engineOf_absent st gid :
  LocalProvider.Map_get gid (LocalProvider.games st) = None ->
  LocalProvider.engineOf st gid = None.
Proof. unfold LocalProvider.engineOf. now intros ->. Qed.

Lemma levelOfName_depth d :
  ChessAI.depthForLevel (LocalProvider.levelOfName d) = LocalProvider.depthForLevelOfName d.
Proof.
  unfold LocalProvider.levelOfName, LocalProvider.depthForLevelOfName.
  destruct (d =s "harmless"); [reflexivity|].
  destruct (d =s "random"); [reflexivity|]. simpl.
  destruct (d =s "easy"); [reflexivity|].
  destruct (d =s "medium"); [reflexivity|].
  destruct (d =s "hard"); [reflexivity|].
  destruct (d =s "expert"); [reflexivity|].
  destruct (d =s "godlike"); reflexivity.
Qed.

End Provider.
End LocalFacts.

Module LocalProps.

Import LocalFacts.

(** X24.  For a game id the local provider does not hold, every method
    that needs the game throws 'Game not found: <id>' and changes
    nothing; [deleteGame] succeeds and changes nothing; [getPgn] still
    answers the empty string, and [getAnalysis] throws that analysis is
    not supported. *)
Theorem local_unknown_game {E : Engine} (X : EngineExtras E)
    (st : LocalProvider.Store) (gid f t fen : string) (pr sq d : option string)
    (rnd elapsed : Q) (depth : option Q) :
  LocalProvider.Map_get gid (LocalProvider.games st) = None ->
  let notFound := Error ("Game not found: " ++ gid) in
  LocalProvider.getGame X st gid = (Throw notFound, st) /\
  LocalProvider.makeMove X st gid f t pr = (Throw notFound, st) /\
  LocalProvider.undoMove X st gid = (Throw notFound, st) /\
  LocalProvider.getLegalMoves X st gid sq = (Throw notFound, st) /\
  LocalProvider.aiMove X st gid d rnd elapsed = (Throw notFound, st) /\
  LocalProvider.aiHint X st gid d rnd = (Throw notFound, st) /\
  LocalProvider.loadFen X st gid fen = (Throw notFound, st) /\
  LocalProvider.deleteGame st gid = (Ok tt, st) /\
  LocalProvider.getPgn st gid = (Ok "", st) /\
  LocalProvider.getAnalysis st gid depth
    = (Throw (Error "Analysis not supported in local mode"), st).
Proof.
  intros H. cbv zeta.
  unfold LocalProvider.getGame, LocalProvider.makeMove, LocalProvider.undoMove,
    LocalProvider.getLegalMoves, LocalProvider.aiMove, LocalProvider.aiHint,
    LocalProvider.loadFen, LocalProvider.deleteGame, LocalProvider.getPgn,
    LocalProvider.getAnalysis.
  rewrite (getEngine_None st gid (engineOf_absent st gid H)),
    (Map_delete_absent _ _ H), store_eta.
  repeat split.
Qed.

Lemma local_unknown_game_witness :
  LocalProvider.Map_get "local-9" (LocalProvider.games oneToyGame) = None /\
  LocalProvider.makeMove toyExtras oneToyGame "local-9" "e2" "e4" None
    = (Throw (Error "Game not found: local-9"), oneToyGame).
Proof.
  split; [reflexivity|].
  exact (proj1 (proj2 (local_unknown_game toyExtras oneToyGame
                         "local-9" "e2" "e4" "" None None None 0 0 None eq_refl))).
Defined.

Section Laws.

Variable E : Engine.
Variable X : EngineExtras E.

Hypothesis makeMove_undo :
  forall (s s' : St E) f t p m,
    makeMove s f t p = (Some m, s') -> snd (undo s') = s.

Hypothesis makeMove_null :
  forall (s s' : St E) f t p,
    makeMove s f t p = (None, s') -> s' = s.

Lemma aiHint_store (st : LocalProvider.Store) gid d rnd :
  snd (LocalProvider.aiHint X st gid d rnd) = st.
Proof.
  unfold LocalProvider.aiHint.
  destruct (LocalProvider.engineOf st gid) as [s|] eqn:Hg.
  - rewrite (getEngine_Some st gid s Hg).
    pose proof (SearchFacts.computeBestMove_state E makeMove_undo makeMove_null s
                  (LocalProvider.levelOfName match d with Some d => d | None => "easy" end)
                  rnd) as Hs.
    destruct (ChessAI.computeBestMove s _ rnd) as [[m|] s1]; simpl in Hs; subst s1;
      simpl; now apply mutated_same.
  - now rewrite (getEngine_None st gid Hg).
Qed.

Lemma aiHint_result (st : LocalProvider.Store) gid d rnd h s :
  LocalProvider.engineOf st gid = Some s ->
  fst (LocalProvider.aiHint X st gid d rnd) = Ok h ->
  exists m, In m (getLegalMoves s) /\
    h = {| Norm.from := from m; Norm.to := to m; Norm.san := sanOf X m;
           Norm.piece := None; Norm.captured := None;
           Norm.promotion := VUndefined |}.
Proof.
  intros Hg. unfold LocalProvider.aiHint. rewrite (getEngine_Some st gid s Hg).
  pose proof (computeBestMove_member s
                (LocalProvider.levelOfName match d with Some d => d | None => "easy" end)
                rnd) as Hm.
  destruct (ChessAI.computeBestMove s _ rnd) as [[m|] s1]; simpl; [|discriminate].
  intros [= <-]. exists m. split; [now apply Hm|reflexivity].
Qed.

Lemma aiMove_result (st : LocalProvider.Store) gid d rnd elapsed r s :
  LocalProvider.engineOf st gid = Some s ->
  fst (LocalProvider.aiMove X st gid d rnd elapsed) = Ok r ->
  exists m applied s2,
    In m (getLegalMoves s) /\
    makeMove s (from m) (to m) (promotion m) = (Some applied, s2) /\
    Local.move r = LocalProvider.toNormMove X applied /\
    Local.game r = LocalProvider.gameToNorm X gid s2 /\
    snd (LocalProvider.aiMove X st gid d rnd elapsed) = LocalProvider.mutated st gid s2.
Proof.
  intros Hg. unfold LocalProvider.aiMove. rewrite (getEngine_Some st gid s Hg).
  pose proof (computeBestMove_member s
                (LocalProvider.levelOfName match d with Some d => d | None => "medium" end)
                rnd) as Hm.
  pose proof (SearchFacts.computeBestMove_state E makeMove_undo makeMove_null s
                (LocalProvider.levelOfName match d with Some d => d | None => "medium" end)
                rnd) as Hs.
  destruct (ChessAI.computeBestMove s _ rnd) as [[m|] s1]; simpl in *; [|discriminate].
  subst s1.
  destruct (makeMove s (from m) (to m) (promotion m)) as [[applied|] s2] eqn:Hmk;
    simpl; [|discriminate].
  intros [= <-]. exists m, applied, s2. simpl. auto.
Qed.

Lemma aiMove_failure (st : LocalProvider.Store) gid d rnd elapsed e :
  fst (LocalProvider.aiMove X st gid d rnd elapsed) = Throw e ->
  snd (LocalProvider.aiMove X st gid d rnd elapsed) = st.
Proof.
  unfold LocalProvider.aiMove.
  destruct (LocalProvider.engineOf st gid) as [s|] eqn:Hg.
  - rewrite (getEngine_Some st gid s Hg).
    pose proof (SearchFacts.computeBestMove_state E makeMove_undo makeMove_null s
                  (LocalProvider.levelOfName match d with Some d => d | None => "medium" end)
                  rnd) as Hs.
    destruct (ChessAI.computeBestMove s _ rnd) as [[m|] s1]; simpl in *; subst s1.
    + destruct (makeMove s (from m) (to m) (promotion m)) as [[applied|] s2] eqn:Hmk;
        simpl; [discriminate|].
      intros _. rewrite (makeMove_null _ _ _ _ _ Hmk). now apply mutated_same.
    + intros _. now apply mutated_same.
  - now rewrite (getEngine_None st gid Hg).
Qed.

End Laws.

(** X25.  Against an engine with make/undo symmetry, [aiHint] leaves
    the provider as it found it, the game asked about included, and a
    hint it returns is the source and target of a legal move of that
    game's position. *)
Theorem local_aiHint_leaves_game :
  forall (E : Engine) (X : EngineExtras E),
    (forall (s s' : St E) f t p m,
        makeMove s f t p = (Some m, s') -> snd (undo s') = s) ->
    (forall (s s' : St E) f t p,
        makeMove s f t p = (None, s') -> s' = s) ->
    forall (st : LocalProvider.Store) (gid : string) (d : option string) (rnd : Q),
      snd (LocalProvider.aiHint X st gid d rnd) = st /\
      forall h, fst (LocalProvider.aiHint X st gid d rnd) = Ok h ->
        exists s m,
          LocalProvider.engineOf st gid = Some s /\
          In m (getLegalMoves s) /\
          h = {| Norm.from := from m; Norm.to := to m; Norm.san := sanOf X m;
                 Norm.piece := None; Norm.captured := None;
                 Norm.promotion := VUndefined |}.
Proof.
  intros E X Hundo Hnull st gid d rnd. split.
  - now apply aiHint_store.
  - intros h Hh. destruct (LocalProvider.engineOf st gid) as [s|] eqn:Hg.
    + destruct (aiHint_result E X st gid d rnd h s Hg Hh) as (m & Hm & ->).
      exists s, m. auto.
    + unfold LocalProvider.aiHint in Hh.
      rewrite (getEngine_None st gid Hg) in Hh. discriminate Hh.
Qed.

Lemma local_aiHint_leaves_game_witness :
  snd (LocalProvider.aiHint toyExtras oneToyGame "local-1" None (1 # 2)) = oneToyGame.
Proof.
  exact (proj1 (local_aiHint_leaves_game Toy.engine toyExtras
                  Toy_makeMove_undo Toy_makeMove_null
                  oneToyGame "local-1" None (1 # 2))).
Defined.

(** X26.  Against an engine whose [undo] reverses and reports the last
    applied move, [undoMove] after a successful [makeMove] returns the
    state [getGame] gave before the move and leaves the provider as it
    was before the move. *)
Theorem local_makeMove_undoMove :
  forall (E : Engine) (X : EngineExtras E),
    (forall (s s' : St E) f t p m,
        makeMove s f t p = (Some m, s') -> snd (undo s') = s) ->
    (forall (s s' : St E) f t p m,
        makeMove s f t p = (Some m, s') -> fst (undo s') <> None) ->
    forall (st : LocalProvider.Store) (gid f t : string) (pr : option string)
           (g : Local.GameState),
      fst (LocalProvider.makeMove X st gid f t pr) = Ok g ->
      LocalProvider.undoMove X (snd (LocalProvider.makeMove X st gid f t pr)) gid
        = LocalProvider.getGame X st gid /\
      exists g0, fst (LocalProvider.getGame X st gid) = Ok g0.
Proof.
  intros E X Hundo Hsome st gid f t pr g.
  unfold LocalProvider.makeMove, LocalProvider.getGame.
  destruct (LocalProvider.engineOf st gid) as [s|] eqn:Hg.
  2:{ rewrite (getEngine_None st gid Hg). discriminate. }
  rewrite (getEngine_Some st gid s Hg).
  destruct (makeMove s f t pr) as [[m|] s'] eqn:Hmk; simpl; [|discriminate].
  intros _. split; [|eexists; reflexivity].
  unfold LocalProvider.undoMove.
  rewrite (getEngine_Some (LocalProvider.mutated st gid s') gid s')
    by (eapply engineOf_mutated; exact Hg).
  pose proof (Hundo _ _ _ _ _ _ Hmk) as Hu.
  pose proof (Hsome _ _ _ _ _ _ Hmk) as Hs.
  destruct (undo s') as [[um|] s0]; simpl in *; [|congruence].
  subst s0. f_equal.
  rewrite mutated_mutated. now apply mutated_same.
Qed.

Lemma Toy_undo_reports :
  forall (s s' : St Toy.engine) f t p m,
    makeMove s f t p = (Some m, s') -> fst (undo s') <> None.
Proof.
  intros s s' f t p m. simpl.
  destruct (find _ _); intros [= <- <-]. discriminate.
Qed.

Lemma local_makeMove_undoMove_witness :
  LocalProvider.undoMove toyExtras
    (snd (LocalProvider.makeMove toyExtras oneToyGame "local-1" "e2" "e4" None))
    "local-1"
    = LocalProvider.getGame toyExtras oneToyGame "local-1".
Proof.
  exact (proj1 (local_makeMove_undoMove Toy.engine toyExtras
                  Toy_makeMove_undo Toy_undo_reports
                  oneToyGame "local-1" "e2" "e4" None _ eq_refl)).
Defined.

(** X27.  Against an engine with make/undo symmetry, a successful
    [aiMove] has played a legal move of the position the game was in:
    the result carries the applied move and the state after it, which is
    also what [getGame] returns from then on.  When [aiMove] throws, for
    want of a move or because the engine rejected it, the provider is
    unchanged. *)
Theorem local_aiMove_plays_legal_move :
  forall (E : Engine) (X : EngineExtras E),
    (forall (s s' : St E) f t p m,
        makeMove s f t p = (Some m, s') -> snd (undo s') = s) ->
    (forall (s s' : St E) f t p,
        makeMove s f t p = (None, s') -> s' = s) ->
    forall (st : LocalProvider.Store) (gid : string) (d : option string)
           (rnd elapsed : Q) (s : St E),
      LocalProvider.engineOf st gid = Some s ->
      (forall r, fst (LocalProvider.aiMove X st gid d rnd elapsed) = Ok r ->
         exists m applied s2,
           In m (getLegalMoves s) /\
           makeMove s (from m) (to m) (promotion m) = (Some applied, s2) /\
           Local.move r = LocalProvider.toNormMove X applied /\
           Local.game r = LocalProvider.gameToNorm X gid s2 /\
           fst (LocalProvider.getGame X
                  (snd (LocalProvider.aiMove X st gid d rnd elapsed)) gid)
             = Ok (Local.game r)) /\
      (forall e, fst (LocalProvider.aiMove X st gid d rnd elapsed) = Throw e ->
         (e = Error "AI could not find a move" \/ e = Error "AI move was illegal") /\
         snd (LocalProvider.aiMove X st gid d rnd elapsed) = st).
Proof.
  intros E X Hundo Hnull st gid d rnd elapsed s Hg. split.
  - intros r Hr.
    destruct (aiMove_result E X Hundo Hnull st gid d rnd elapsed r s Hg Hr)
      as (m & applied & s2 & Hm & Hmk & Hmv & Hgm & Hst).
    exists m, applied, s2. repeat split; try assumption.
    rewrite Hst, Hgm. unfold LocalProvider.getGame.
    rewrite (getEngine_Some (LocalProvider.mutated st gid s2) gid s2)
      by (eapply engineOf_mutated; exact Hg).
    reflexivity.
  - intros e Hr.
    split; [|now apply (aiMove_failure E X Hundo Hnull st gid d rnd elapsed e)].
    unfold LocalProvider.aiMove in Hr. rewrite (getEngine_Some st gid s Hg) in Hr.
    destruct (ChessAI.computeBestMove s _ rnd) as [[m|] s1]; simpl in Hr.
    + destruct (makeMove s1 (from m) (to m) (promotion m)) as [[applied|] s2];
        simpl in Hr; [discriminate|]. injection Hr as <-. now right.
    + injection Hr as <-. now left.
Qed.

Lemma local_aiMove_plays_legal_move_witness :
  LocalProvider.engineOf oneToyGame "local-1" = Some ([] : St Toy.engine) /\
  exists r,
    fst (LocalProvider.aiMove toyExtras oneToyGame "local-1" (Some "random") (3 # 4) 12)
      = Ok r /\
    exists m, In m (getLegalMoves (e := Toy.engine) []) /\
              Local.move r = LocalProvider.toNormMove toyExtras m.
Proof.
  split; [reflexivity|].
  eexists. split; [reflexivity|].
  destruct (proj1 (local_aiMove_plays_legal_move Toy.engine toyExtras
                     Toy_makeMove_undo Toy_makeMove_null
                     oneToyGame "local-1" (Some "random") (3 # 4) 12 [] eq_refl)
              _ eq_refl) as (m & applied & s2 & Hm & Hmk & Hmv & _).
  exists m. split; [exact Hm|].
  simpl in Hm. destruct Hm as [<-|[<-|[]]]; injection Hmk as <- _; exact Hmv.
Defined.

Lemma allocated_mutated {E : Engine} (st : LocalProvider.Store (E := E)) gid s :
  LocalProvider.allocated st -> LocalProvider.allocated (LocalProvider.mutated st gid s).
Proof.
  intros Ha g r Hg. destruct (games_mutated st gid s) as [Hgames _].
  rewrite Hgames in Hg. apply Ha in Hg.
  unfold LocalProvider.mutated.
  destruct (LocalProvider.Map_get gid (LocalProvider.games st)); [|exact Hg].
  simpl. now rewrite length_assign.
Qed.

Lemma Map_get_set_cases {V : Type} (m : list (string * V)) k k' v r :
  LocalProvider.Map_get k' (LocalProvider.Map_set k v m) = Some r ->
  (k' = k /\ r = v) \/ (k' <> k /\ LocalProvider.Map_get k' m = Some r).
Proof.
  destruct (String.eqb k' k) eqn:Hk.
  - apply String.eqb_eq in Hk. subst k'. rewrite Map_get_set_same.
    intros [= <-]. now left.
  - apply String.eqb_neq in Hk. rewrite (Map_get_set_other m k k' v Hk).
    intros H. now right.
Qed.

(** X28.  Games whose entries hold different engine objects are
    independent: no method called for one game id changes the engine
    read under another id, its entry or the id counter.  Reading,
    deleting and registering never touch another id's game.  When two
    ids hold the same engine object, as [registerEngine] allows, every
    method that mutates the engine under one id is seen under the
    other.  A deleted game is gone, after [dispose] every game is gone,
    and a registered engine is the one read under its id. *)
Theorem local_games_are_independent {E : Engine} (X : EngineExtras E)
    (st : LocalProvider.Store) (gid other f t fen : string) (pr sq d : option string)
    (rnd elapsed : Q) (engine : LocalProvider.Ref) :
  other <> gid ->
  let kept := fun st' : LocalProvider.Store =>
    LocalProvider.engineOf st' other = LocalProvider.engineOf st other /\
    LocalProvider.Map_get other (LocalProvider.games st')
      = LocalProvider.Map_get other (LocalProvider.games st) /\
    LocalProvider.nextLocalId st' = LocalProvider.nextLocalId st in
  let shared := fun st' : LocalProvider.Store =>
    LocalProvider.engineOf st' other = LocalProvider.engineOf st' gid in
  (kept (snd (LocalProvider.getGame X st gid)) /\
   kept (snd (LocalProvider.getLegalMoves X st gid sq)) /\
   kept (snd (LocalProvider.deleteGame st gid)) /\
   kept (LocalProvider.registerEngine st gid engine)) /\
  ((forall r, LocalProvider.Map_get gid (LocalProvider.games st) = Some r ->
              LocalProvider.Map_get other (LocalProvider.games st) <> Some r) ->
   kept (snd (LocalProvider.makeMove X st gid f t pr)) /\
   kept (snd (LocalProvider.undoMove X st gid)) /\
   kept (snd (LocalProvider.aiMove X st gid d rnd elapsed)) /\
   kept (snd (LocalProvider.aiHint X st gid d rnd)) /\
   kept (snd (LocalProvider.loadFen X st gid fen))) /\
  ((exists r, LocalProvider.Map_get gid (LocalProvider.games st) = Some r /\
              LocalProvider.Map_get other (LocalProvider.games st) = Some r) ->
   shared (snd (LocalProvider.makeMove X st gid f t pr)) /\
   shared (snd (LocalProvider.undoMove X st gid)) /\
   shared (snd (LocalProvider.aiMove X st gid d rnd elapsed)) /\
   shared (snd (LocalProvider.aiHint X st gid d rnd)) /\
   shared (snd (LocalProvider.loadFen X st gid fen))) /\
  fst (LocalProvider.getGame X (snd (LocalProvider.deleteGame st gid)) gid)
    = Throw (Error ("Game not found: " ++ gid)) /\
  fst (LocalProvider.getGame X (LocalProvider.dispose st) other)
    = Throw (Error ("Game not found: " ++ other)) /\
  LocalProvider.engineOf (LocalProvider.registerEngine st gid engine) gid
    = nth_error (LocalProvider.engines st) engine.
Proof.
  intros Hne kept shared. subst kept shared. cbv beta.
  assert (Hself : LocalProvider.engineOf st other = LocalProvider.engineOf st other /\
                  LocalProvider.Map_get other (LocalProvider.games st)
                    = LocalProvider.Map_get other (LocalProvider.games st) /\
                  LocalProvider.nextLocalId st = LocalProvider.nextLocalId st)
    by (repeat split).
  split; [|split; [|split; [|split; [|split]]]].
  - unfold LocalProvider.getGame, LocalProvider.getLegalMoves,
      LocalProvider.deleteGame, LocalProvider.registerEngine. cbn [snd].
    split; [exact Hself|]. split.
    { destruct (LocalProvider.getEngine st gid); exact Hself. }
    split.
    + unfold LocalProvider.engineOf. simpl.
      rewrite (Map_get_delete_other _ gid other Hne). repeat split.
    + unfold LocalProvider.engineOf. simpl.
      rewrite (Map_get_set_other _ gid other engine Hne). repeat split.
  - intros Hd.
    assert (Hmut : forall s',
               LocalProvider.engineOf (LocalProvider.mutated st gid s') other
                 = LocalProvider.engineOf st other /\
               LocalProvider.Map_get other
                 (LocalProvider.games (LocalProvider.mutated st gid s'))
                 = LocalProvider.Map_get other (LocalProvider.games st) /\
               LocalProvider.nextLocalId (LocalProvider.mutated st gid s')
                 = LocalProvider.nextLocalId st).
    { intros s'. destruct (games_mutated st gid s') as [Hg Hn].
      split; [now apply engineOf_mutated_other|]. now rewrite Hg, Hn. }
    unfold LocalProvider.makeMove, LocalProvider.undoMove, LocalProvider.aiMove,
      LocalProvider.aiHint, LocalProvider.loadFen.
    destruct (LocalProvider.getEngine st gid) as [s0|e]; cbn [snd];
      [|repeat split].
    split; [destruct (makeMove s0 f t pr) as [[m|] s']; apply Hmut|].
    split; [destruct (undo s0) as [[m|] s']; apply Hmut|].
    split.
    { destruct (ChessAI.computeBestMove s0 _ rnd) as [[m|] s1]; [|apply Hmut].
      destruct (makeMove s1 (from m) (to m) (promotion m)) as [[a|] s2]; apply Hmut. }
    split; [destruct (ChessAI.computeBestMove s0 _ rnd) as [[m|] s1]; apply Hmut|].
    destruct (loadFEN X s0 fen) as [[e|] s']; apply Hmut.
  - intros (r & Hg & Ho).
    assert (Hst : LocalProvider.engineOf st other = LocalProvider.engineOf st gid)
      by (unfold LocalProvider.engineOf; now rewrite Hg, Ho).
    assert (Hmut : forall s',
               LocalProvider.engineOf (LocalProvider.mutated st gid s') other
               = LocalProvider.engineOf (LocalProvider.mutated st gid s') gid)
      by (intros s'; now apply (engineOf_mutated_shared st gid other s' r)).
    unfold LocalProvider.makeMove, LocalProvider.undoMove, LocalProvider.aiMove,
      LocalProvider.aiHint, LocalProvider.loadFen.
    destruct (LocalProvider.getEngine st gid) as [s0|e]; cbn [snd];
      [|repeat split; exact Hst].
    split; [destruct (makeMove s0 f t pr) as [[m|] s']; apply Hmut|].
    split; [destruct (undo s0) as [[m|] s']; apply Hmut|].
    split.
    { destruct (ChessAI.computeBestMove s0 _ rnd) as [[m|] s1]; [|apply Hmut].
      destruct (makeMove s1 (from m) (to m) (promotion m)) as [[a|] s2]; apply Hmut. }
    split; [destruct (ChessAI.computeBestMove s0 _ rnd) as [[m|] s1]; apply Hmut|].
    destruct (loadFEN X s0 fen) as [[e|] s']; apply Hmut.
  - unfold LocalProvider.getGame, LocalProvider.getEngine, LocalProvider.engineOf,
      LocalProvider.deleteGame. simpl. now rewrite Map_get_delete_same.
  - reflexivity.
  - unfold LocalProvider.engineOf, LocalProvider.registerEngine. simpl.
    now rewrite Map_get_set_same.
Qed.

Lemma local_games_are_independent_witness :
  "mirror" <> "local-1" /\
  LocalProvider.engineOf
    (snd (LocalProvider.makeMove toyExtras sharedToyGame "local-1" "e2" "e4" None))
    "mirror"
    = Some ([Toy.quiet] : St Toy.engine) /\
  LocalProvider.engineOf
    (snd (LocalProvider.makeMove toyExtras
            (snd (LocalProvider.createGame (NF := integerFormat) toyExtras oneToyGame None))
            "local-1" "e2" "e4" None))
    "local-2"
    = Some ([] : St Toy.engine).
Proof.
  assert (Hne : "mirror" <> "local-1") by discriminate.
  assert (Hne2 : "local-2" <> "local-1") by discriminate.
  split; [exact Hne|]. split.
  - destruct (local_games_are_independent toyExtras sharedToyGame
                "local-1" "mirror" "e2" "e4" "" None None None 0 0 0%nat Hne)
      as (_ & _ & Hshared & _).
    destruct (Hshared (ex_intro _ 0%nat (conj eq_refl eq_refl))) as (Hmk & _).
    rewrite Hmk. reflexivity.
  - destruct (local_games_are_independent toyExtras
                (snd (LocalProvider.createGame (NF := integerFormat) toyExtras
                        oneToyGame None))
                "local-1" "local-2" "e2" "e4" "" None None None 0 0 0%nat Hne2)
      as (_ & Hdistinct & _).
    assert (Hd : forall r,
               LocalProvider.Map_get "local-1"
                 (LocalProvider.games
                    (snd (LocalProvider.createGame (NF := integerFormat) toyExtras
                            oneToyGame None))) = Some r ->
               LocalProvider.Map_get "local-2"
                 (LocalProvider.games
                    (snd (LocalProvider.createGame (NF := integerFormat) toyExtras
                            oneToyGame None))) <> Some r).
    { intros r Hr. cbv in Hr. injection Hr as <-. discriminate. }
    destruct (Hdistinct Hd) as ((Hk & _) & _).
    rewrite Hk. reflexivity.
Defined.

(** An engine made outside the provider and registered under an id is
    the engine every method then works on. *)
Example register_new_engine :
  let made := LocalProvider.newEngine toyExtras oneToyGame None in
  let st := LocalProvider.registerEngine (snd made) "hook" 1%nat in
  fst made = Ok 1%nat /\
  LocalProvider.engineOf
    (snd (LocalProvider.makeMove toyExtras st "hook" "e2" "e4" None)) "hook"
    = Some ([Toy.quiet] : St Toy.engine) /\
  LocalProvider.engineOf
    (snd (LocalProvider.makeMove toyExtras st "hook" "e2" "e4" None)) "local-1"
    = Some ([] : St Toy.engine).
Proof. repeat split. Qed.

(** X29.  [createGame] takes the id ['local-<n>'] for the counter value
    [n] and advances the counter, also when the engine constructor
    throws; in that case the games and the engines are unchanged.
    Otherwise the new game is stored under that id with a new engine
    object that no other id holds, [getGame] returns the state that
    [createGame] returned, and the games under other ids are
    untouched. *)
Theorem local_createGame_registers {E : Engine} (X : EngineExtras E)
    {NF : NumberFormat} (st : LocalProvider.Store) (options : option CreateGameOptions) :
  let id := ("local-" ++ Number_toString (inject_Z (LocalProvider.nextLocalId st)))%string in
  let st' := snd (LocalProvider.createGame X st options) in
  LocalProvider.nextLocalId st' = LocalProvider.nextLocalId st + 1 /\
  (forall other, other <> id ->
     LocalProvider.Map_get other (LocalProvider.games st')
       = LocalProvider.Map_get other (LocalProvider.games st) /\
     forall s0, LocalProvider.engineOf st other = Some s0 ->
                LocalProvider.engineOf st' other = Some s0) /\
  (LocalProvider.allocated st -> LocalProvider.allocated st') /\
  match fst (LocalProvider.createGame X st options) with
  | Ok g =>
      Local.id g = id /\
      LocalProvider.getGame X st' id = (Ok g, st') /\
      (exists s, LocalProvider.ChessEngine_new X
                   (match options with
                    | Some o => opt_fen o
                    | None => None
                    end) = Ok s /\
                 g = LocalProvider.gameToNorm X id s) /\
      (LocalProvider.allocated st ->
       forall other r, other <> id ->
         LocalProvider.Map_get other (LocalProvider.games st') = Some r ->
         LocalProvider.Map_get id (LocalProvider.games st') <> Some r)
  | Throw e =>
      LocalProvider.games st' = LocalProvider.games st /\
      LocalProvider.engines st' = LocalProvider.engines st
  end.
Proof.
  cbv zeta. unfold LocalProvider.createGame.
  destruct (LocalProvider.ChessEngine_new X _) as [s|e] eqn:Hnew; cbn [fst snd].
  - split; [reflexivity|]. split; [|split].
    + intros other Hne. unfold LocalProvider.engineOf. simpl.
      rewrite (Map_get_set_other _ _ other _ Hne). split; [reflexivity|].
      intros s0. destruct (LocalProvider.Map_get other (LocalProvider.games st)) as [r|];
        [|discriminate].
      intros H. rewrite nth_error_app1; [exact H|].
      apply nth_error_Some. congruence.
    + intros Ha g r Hg. simpl in *. rewrite length_app. simpl.
      apply Map_get_set_cases in Hg. destruct Hg as [[_ ->]|[_ Hg]]; [lia|].
      apply Ha in Hg. lia.
    + split; [reflexivity|]. split; [|split].
      * unfold LocalProvider.getGame, LocalProvider.getEngine, LocalProvider.engineOf.
        simpl. rewrite Map_get_set_same.
        rewrite nth_error_app2 by lia. now rewrite Nat.sub_diag.
      * exists s. split; reflexivity.
      * intros Ha other r Hne Ho. simpl in *.
        rewrite (Map_get_set_other _ _ other _ Hne) in Ho.
        rewrite Map_get_set_same. intros [= <-]. apply Ha in Ho. lia.
  - split; [reflexivity|]. split; [|split].
    + intros other Hne. unfold LocalProvider.engineOf. simpl. split; auto.
    + intros Ha. exact Ha.
    + split; reflexivity.
Qed.

Lemma unknown_name_depth d :
  ~ In d ["easy"; "medium"; "hard"; "expert"; "godlike"] ->
  ChessAI.depthForLevel (LocalProvider.levelOfName d) = 0%nat.
Proof.
  intros Hd. rewrite levelOfName_depth. unfold LocalProvider.depthForLevelOfName.
  destruct ((d =s "harmless") || (d =s "random")); [reflexivity|].
  destruct (d =s "easy") eqn:H1; [apply String.eqb_eq in H1; elim Hd; simpl; auto|].
  destruct (d =s "medium") eqn:H2; [apply String.eqb_eq in H2; elim Hd; simpl; auto|].
  destruct (d =s "hard") eqn:H3; [apply String.eqb_eq in H3; elim Hd; simpl; auto|].
  destruct (d =s "expert") eqn:H4; [apply String.eqb_eq in H4; elim Hd; simpl; auto|].
  destruct (d =s "godlike") eqn:H5; [apply String.eqb_eq in H5; elim Hd; simpl; auto 6|].
  reflexivity.
Qed.

(** At depth 0 [computeBestMove] does not look at the level. *)
Lemma computeBestMove_depth0 {E : Engine} (s : St E) level level' rnd :
  ChessAI.depthForLevel level = 0%nat ->
  ChessAI.depthForLevel level' = 0%nat ->
  ChessAI.computeBestMove s level rnd = ChessAI.computeBestMove s level' rnd.
Proof.
  intros H H'. unfold ChessAI.computeBestMove. now rewrite H, H'.
Qed.

Lemma random_pick_member {E : Engine} (s : St E) level rnd :
  ChessAI.depthForLevel level = 0%nat ->
  getLegalMoves s <> [] ->
  (0 <= rnd)%Q -> (rnd < 1)%Q ->
  exists m, In m (getLegalMoves s) /\
            ChessAI.computeBestMove s level rnd = (Some m, s).
Proof.
  intros Hd Hne H0 H1. unfold ChessAI.computeBestMove. rewrite Hd. cbn [Nat.eqb].
  set (legal := getLegalMoves s) in *.
  assert (Hlen : (0 < List.length legal)%nat)
    by (destruct legal; [congruence|simpl; lia]).
  destruct (List.length legal =? 0)%nat eqn:Hz; [apply Nat.eqb_eq in Hz; lia|].
  pose proof (random_index_in_range rnd (List.length legal) H0 H1 Hlen) as Hi.
  set (i := Qfloor (rnd * inject_Z (Z.of_nat (List.length legal)))) in *.
  destruct (ChessAI.arrayGet legal i) as [m|] eqn:Hn.
  - exists m. split; [now apply (arrayGet_In legal i)|reflexivity].
  - unfold ChessAI.arrayGet in Hn.
    destruct (i <? 0)%Z eqn:Hneg; [apply Z.ltb_lt in Hneg; lia|].
    apply nth_error_None in Hn. lia.
Qed.

(** X30.  A difficulty string that names none of the searching tiers (a
    misspelt one, for instance) is not rejected: [aiHint] and [aiMove]
    treat it exactly as 'harmless'.  So, with legal moves on the board
    and [rnd] a value [Math.random()] can return, [aiHint] returns one
    of the legal moves without searching, against any engine, and leaves
    the provider as it was. *)
Theorem local_unknown_difficulty_is_unsearched {E : Engine} (X : EngineExtras E)
    (st : LocalProvider.Store) (gid d : string) (rnd elapsed : Q) :
  ~ In d ["easy"; "medium"; "hard"; "expert"; "godlike"] ->
  LocalProvider.aiHint X st gid (Some d) rnd
    = LocalProvider.aiHint X st gid (Some "harmless") rnd /\
  LocalProvider.aiMove X st gid (Some d) rnd elapsed
    = LocalProvider.aiMove X st gid (Some "harmless") rnd elapsed /\
  forall s : St E,
    LocalProvider.engineOf st gid = Some s ->
    getLegalMoves s <> [] ->
    (0 <= rnd)%Q -> (rnd < 1)%Q ->
    exists m,
      In m (getLegalMoves s) /\
      LocalProvider.aiHint X st gid (Some d) rnd
        = (Ok {| Norm.from := from m; Norm.to := to m; Norm.san := sanOf X m;
                 Norm.piece := None; Norm.captured := None;
                 Norm.promotion := VUndefined |}, st).
Proof.
  intros Hd. pose proof (unknown_name_depth d Hd) as Hdepth.
  assert (Hsame : forall s : St E,
             ChessAI.computeBestMove s (LocalProvider.levelOfName d) rnd
             = ChessAI.computeBestMove s (LocalProvider.levelOfName "harmless") rnd)
    by (intros s; now apply computeBestMove_depth0).
  split; [|split].
  - unfold LocalProvider.aiHint.
    destruct (LocalProvider.getEngine st gid); [|reflexivity]. now rewrite Hsame.
  - unfold LocalProvider.aiMove.
    destruct (LocalProvider.getEngine st gid); [|reflexivity]. now rewrite Hsame.
  - intros s Hg Hne H0 H1.
    destruct (random_pick_member s (LocalProvider.levelOfName d) rnd Hdepth Hne H0 H1)
      as (m & Hin & Hc).
    exists m. split; [exact Hin|].
    unfold LocalProvider.aiHint. rewrite (getEngine_Some st gid s Hg), Hc.
    now rewrite (mutated_same st gid s Hg).
Qed.

Lemma local_unknown_difficulty_is_unsearched_witness :
  ~ In "grandmaster" ["easy"; "medium"; "hard"; "expert"; "godlike"] /\
  LocalProvider.aiHint toyExtras oneToyGame "local-1" (Some "grandmaster") (3 # 4)
    = LocalProvider.aiHint toyExtras oneToyGame "local-1" (Some "harmless") (3 # 4).
Proof.
  assert (Hd : ~ In "grandmaster" ["easy"; "medium"; "hard"; "expert"; "godlike"]).
  { simpl. intros [H|[H|[H|[H|[H|[]]]]]]; discriminate H. }
  split; [exact Hd|].
  exact (proj1 (local_unknown_difficulty_is_unsearched toyExtras oneToyGame
                  "local-1" "grandmaster" (3 # 4) 0 Hd)).
Defined.

End LocalProps.
